(** * Supervisor-side node tracking and sync scheduling: a shallow embedding

    The four supervisor scripts of the repository, and the heartbeat
    script of the nodes, are embedded as monadic Gallina programs over an
    explicit world (the trace of external effects performed so far) and an
    oracle that answers every external call:

    - [TransferWithRetry]       src/transfer_with_retry.py
    - [QueueShippedData]        src/queue_shipped_data.py
    - [NodeStates]              src/queue_shipped_data.py (node_states.json)
    - [Beam.TransferWithRetry]  src/beam/BEAM_supervisor_package/transfer_with_retry.py
    - [Beam.SupervisorPingCheck]
                                src/beam/BEAM_supervisor_package/supervisor_ping_check.py
    - [NodeHeartbeat]           src/node_heartbeat.py

    Python [int] is [Z]; Python [float] is the kernel's binary64 [float];
    [str] is [string] (read as ASCII bytes); a [dict] used as a keyed store
    is a [gmap], one whose iteration order matters is an association list. *)

From Stdlib Require Import ZArith List String Ascii Bool Lia Sorted Permutation.
From Stdlib Require Import Floats.
From stdpp Require Import base option list gmap strings fin_maps pretty.

Open Scope Z_scope.

(** ** Python values and builtins *)

Module Py.

(** Exceptions the modelled code can raise (the builtin classes, and
    [CalledProcessError] of [subprocess]). *)
Inductive exn : Type :=
| KeyError (key : string)
| IndexError
| ValueError
| OverflowError
| OSError
| CalledProcessError (returncode : Z).

(** Outcome of running a piece of code: a value, an exception that is
    propagating, or the model's loop bound reached ([OutOfFuel] is an
    artefact of the embedding of [while]; the entry points pass enough
    fuel, see [TransferWithRetryProps.rsync_data_fuel]). *)
Inductive res (A : Type) : Type :=
| Ret (a : A)
| Raise (e : exn)
| OutOfFuel.
Arguments Ret {A} a.
Arguments Raise {A} e.
Arguments OutOfFuel {A}.

(** Sequencing of pure computations that may raise. *)
Definition rbind {A B} (r : res A) (k : A -> res B) : res B :=
  match r with
  | Ret a => k a
  | Raise e => Raise e
  | OutOfFuel => OutOfFuel
  end.

(** *** Numbers *)

(** [float(i)] for an [int]: correctly rounded (half to even);
    [OverflowError] when the result would not be finite. *)
Definition float_of_Z (z : Z) : float :=
  SF2Prim (binary_normalize prec emax z 0 false).

Definition float_of_int (i : Z) : res float :=
  let x := float_of_Z i in
  if PrimFloat.is_infinity x then Raise OverflowError else Ret x.

(** Truncation toward zero of a finite float, on its specification. *)
Definition SFtrunc (x : spec_float) : option Z :=
  match x with
  | S754_zero _ => Some 0
  | S754_finite s m e =>
      let a := match e with
               | Z0 => Zpos m
               | Zpos _ => Z.shiftl (Zpos m) e
               | Zneg p => Z.shiftr (Zpos m) (Zpos p)
               end in
      Some (if s then - a else a)
  | S754_infinity _ | S754_nan => None
  end.

(** [int(x)] for a [float]: truncation toward zero; [ValueError] on NaN,
    [OverflowError] on an infinity. *)
Definition int_of_float (x : float) : res Z :=
  match Prim2SF x with
  | S754_nan => Raise ValueError
  | S754_infinity _ => Raise OverflowError
  | sf => match SFtrunc sf with Some z => Ret z | None => Raise ValueError end
  end.

(** A JSON number as Python reads it: [int] or [float]. *)
Inductive num : Type :=
| Int (i : Z)
| Float (x : float).

(** [i * f] for an [int] [i] and a [float] [f]: [i] is converted first. *)
Definition mul_int_float (i : Z) (f : float) : res float :=
  rbind (float_of_int i) (fun x => Ret (PrimFloat.mul x f)).

(** [int(i * k)] for an [int] [i] and a number [k], the expression of
    every backoff step. *)
Definition int_mul (i : Z) (k : num) : res Z :=
  match k with
  | Int j => Ret (i * j)
  | Float f => rbind (mul_int_float i f) int_of_float
  end.

(** Exact comparison [x > i] of a float with an int (false on NaN), as
    Python's mixed comparison does it, without rounding [i]. *)
Definition float_gt_int (x : float) (i : Z) : bool :=
  match Prim2SF x with
  | S754_nan => false
  | S754_infinity s => negb s
  | S754_zero _ => i <? 0
  | S754_finite s m e =>
      (* ceil(x) > i *)
      let c := match e with
               | Z0 => if s then Zneg m else Zpos m
               | Zpos _ => Z.shiftl (if s then Zneg m else Zpos m) e
               | Zneg p => - (Z.shiftr (- (if s then Zneg m else Zpos m)) (Zpos p))
               end in
      i <? c
  end.

(** Exact comparison [x <= i] (false on NaN). *)
Definition float_le_int (x : float) (i : Z) : bool :=
  match Prim2SF x with
  | S754_nan => false
  | _ => negb (float_gt_int x i)
  end.

(** [math.isfinite(x)]: neither an infinity nor NaN. *)
Definition isfinite (x : float) : bool :=
  match Prim2SF x with
  | S754_zero _ | S754_finite _ _ _ => true
  | S754_infinity _ | S754_nan => false
  end.


(** *** Sequences *)

(** [l[i]] with Python's negative indices. *)
Definition index {A} (l : list A) (i : Z) : res A :=
  let n := Z.of_nat (length l) in
  let j := if i <? 0 then i + n else i in
  if (j <? 0) || (n <=? j) then Raise IndexError
  else match nth_error l (Z.to_nat j) with
       | Some a => Ret a
       | None => Raise IndexError
       end.

(** [range(a, b)] as a list. *)
Definition range (a b : Z) : list Z :=
  map (fun k => a + Z.of_nat k) (seq 0 (Z.to_nat (b - a))).

(** *** Strings *)

(** [sub in s]. *)
Fixpoint contains (sub s : string) : bool :=
  String.prefix sub s ||
  match s with
  | EmptyString => false
  | String _ s' => contains sub s'
  end.

(** [s.split(sep)] for a one-character separator: never empty. *)
Fixpoint split (sep : ascii) (s : string) : list string :=
  match s with
  | EmptyString => [EmptyString]
  | String c s' =>
      if Ascii.eqb c sep then EmptyString :: split sep s'
      else match split sep s' with
           | h :: t => String c h :: t
           | [] => [String c EmptyString]
           end
  end.

(** Characters [str.isspace] accepts, among ASCII. *)
Definition isspace (c : ascii) : bool :=
  let n := nat_of_ascii c in
  (n =? 32)%nat || ((9 <=? n)%nat && (n <=? 13)%nat) || ((28 <=? n)%nat && (n <=? 31)%nat).

Fixpoint lstrip (s : string) : string :=
  match s with
  | String c s' => if isspace c then lstrip s' else s
  | EmptyString => EmptyString
  end.

Fixpoint rstrip (s : string) : string :=
  match s with
  | EmptyString => EmptyString
  | String c s' =>
      match rstrip s' with
      | EmptyString => if isspace c then EmptyString else String c EmptyString
      | r => String c r
      end
  end.

(** [s.strip()]. *)
Definition strip (s : string) : string := rstrip (lstrip s).

(** Line boundaries of [str.splitlines], among ASCII. *)
Definition islinebreak (c : ascii) : bool :=
  let n := nat_of_ascii c in
  ((10 <=? n)%nat && (n <=? 13)%nat) || ((28 <=? n)%nat && (n <=? 30)%nat).

(** [s.splitlines()]: a carriage return followed by a line feed is one
    boundary; no empty last line after a final boundary. *)
Fixpoint splitlines_aux (cur : string) (s : string) : list string :=
  match s with
  | EmptyString => if String.eqb cur EmptyString then [] else [cur]
  | String c s' =>
      if islinebreak c then
        match c, s' with
        | "013"%char, String "010"%char s'' => cur :: splitlines_aux EmptyString s''
        | _, _ => cur :: splitlines_aux EmptyString s'
        end
      else splitlines_aux (cur +:+ String c EmptyString) s'
  end.

Definition splitlines (s : string) : list string := splitlines_aux EmptyString s.

(** [os.path.join(a, b)] on POSIX. *)
Definition path_join (a b : string) : string :=
  if String.prefix "/" b then b
  else if String.eqb a EmptyString then b
  else match index (list_ascii_of_string a) (-1) with
       | Ret "/"%char => a +:+ b
       | _ => a +:+ "/" +:+ b
       end.

(** *** [float(s)] for a string *)

Definition isdigit (c : ascii) : bool :=
  let n := nat_of_ascii c in (48 <=? n)%nat && (n <=? 57)%nat.

(** Underscores may only stand between two digits; they are dropped. *)
Fixpoint drop_underscores (prev : ascii) (s : string) : option string :=
  match s with
  | EmptyString => if Ascii.eqb prev "_" then None else Some EmptyString
  | String c s' =>
      if Ascii.eqb c "_" then
        if isdigit prev then drop_underscores c s' else None
      else if Ascii.eqb prev "_" && negb (isdigit c) then None
      else option_map (String c) (drop_underscores c s')
  end.

Definition lower (c : ascii) : ascii :=
  let n := nat_of_ascii c in
  if (65 <=? n)%nat && (n <=? 90)%nat then ascii_of_nat (n + 32) else c.

Fixpoint lowercase (s : string) : string :=
  match s with
  | EmptyString => EmptyString
  | String c s' => String (lower c) (lowercase s')
  end.

(** An optional sign: [true] for a minus. *)
Definition take_sign (s : string) : bool * string :=
  match s with
  | String "-"%char s' => (true, s')
  | String "+"%char s' => (false, s')
  | _ => (false, s)
  end.

(** The longest prefix of decimal digits, accumulated onto [acc]: the
    value, the number of digits read and the rest. *)
Fixpoint take_digits (acc : Z) (n : Z) (s : string) : Z * Z * string :=
  match s with
  | String c s' =>
      if isdigit c
      then take_digits (10 * acc + (Z.of_nat (nat_of_ascii c) - 48)) (n + 1) s'
      else (acc, n, s)
  | EmptyString => (acc, n, s)
  end.

(** The binary64 value nearest to [m * 10 ^ e10] (ties to even) for
    [0 <= m], with the sign [neg]. *)
Definition round_decimal (neg : bool) (m e10 : Z) : float :=
  if m =? 0 then (if neg then PrimFloat.neg_zero else PrimFloat.zero)
  else if 0 <=? e10 then
    SF2Prim (binary_normalize prec emax ((if neg then - m else m) * 10 ^ e10) 0 false)
  else
    let '(q, e, l) := SFdiv_core_binary prec emax m 0 (10 ^ (- e10)) 0 in
    SF2Prim (binary_round_aux prec emax neg q e l).

(** [float(s)]: surrounding whitespace dropped, then an optional sign and
    [inf], [infinity], [nan] (in any case) or a decimal numeral with an
    optional exponent; [ValueError] otherwise. *)
Definition float_of_string (s : string) : res float :=
  match drop_underscores " " (strip s) with
  | None => Raise ValueError
  | Some t =>
      let '(neg, body) := take_sign (lowercase t) in
      if String.eqb body "inf" || String.eqb body "infinity"
      then Ret (if neg then PrimFloat.neg_infinity else PrimFloat.infinity)
      else if String.eqb body "nan" then Ret PrimFloat.nan
      else
        let '(ip, ni, r1) := take_digits 0 0 body in
        let '(mant, nf, r2) :=
          match r1 with
          | String "."%char r => take_digits ip 0 r
          | _ => (ip, 0, r1)
          end in
        if ni + nf =? 0 then Raise ValueError
        else
          match r2 with
          | EmptyString => Ret (round_decimal neg mant (- nf))
          | String "e"%char r =>
              let '(eneg, r3) := take_sign r in
              let '(ev, ne, r4) := take_digits 0 0 r3 in
              if (ne =? 0) || negb (String.eqb r4 EmptyString) then Raise ValueError
              else Ret (round_decimal neg mant ((if eneg then - ev else ev) - nf))
          | _ => Raise ValueError
          end
  end.

End Py.

(** ** Persisted records *)

(** One entry of [node_states.json] as [queue_shipped_data.Node] holds it. *)
Record Node : Type := mkNode {
  name : string;
  ip : string;
  transfer_fail : bool;   (* True if last transfer failed *)
  state : string          (* "alive", "dead", or "unknown" *)
}.

(** One entry of [supervisor_state.json], the per-node dict of the BEAM
    supervisor package; a key that is absent is [None] (reading it raises
    [KeyError]); the times are ISO-8601 strings. *)
Record node_state : Type := mkState {
  node_alive : option bool;
  fail_to_request_data : option bool;
  last_online_time : option string;
  last_offline_time : option string;
  last_fail_time : option string
}.

(** An entry of the [nodes] mapping of supervisor_config.json. *)
Record node_info : Type := mkInfo {
  info_ip : option string;      (* info["ip"]; None when the key is absent *)
  info_priority : option Z      (* info.get("priority", 999) *)
}.

(** ** The world: effects and their oracle *)

Module World.
Import Py.

(** An argument interpolated in a log line. *)
Inductive log_arg : Type :=
| AStr (s : string)
| AInt (i : Z)
| AFloat (x : float)
| ABool (b : bool)
| ASorted (l : list string).

(** What a JSON file is overwritten with. *)
Inductive snapshot : Type :=
| SnapNodes (nodes : list Node)
| SnapState (st : gmap string node_state).

(** The external effects, in the order performed. A log line is kept as
    its template and the interpolated values. *)
Inductive event : Type :=
| EvLog (template : string) (args : list log_arg)
| EvMakedirs (path : string)
| EvRun (argv : list string) (returncode : Z)
| EvSleep (secs : Z)
| EvDump (path : string) (data : snapshot).

(** The environment's answers. Each is indexed by the number of effects
    performed so far, so that successive calls may be answered
    differently (a host that comes back, a copy that fails twice and then
    succeeds); between two effects the environment is still. *)
Record oracle : Type := mkOracle {
  proc : nat -> list string -> Z * string * string;
    (* a child process: return code, stdout, stderr *)
  clock : nat -> float;                   (* time.time() *)
  mtime : nat -> string -> option float;  (* os.stat(path).st_mtime, None when stat fails *)
  isotime : nat -> string;                (* datetime.now().isoformat() *)
  set_iter : list string -> list string   (* iteration order of set(keys) *)
}.

Definition world : Type := list event.

(** Code with effects and exceptions. *)
Definition M (A : Type) : Type := world -> world * res A.

Definition ret {A} (a : A) : M A := fun w => (w, Ret a).

Definition raise {A} (e : exn) : M A := fun w => (w, Raise e).

Definition bind {A B} (c : M A) (k : A -> M B) : M B :=
  fun w =>
    match c w with
    | (w', Ret a) => k a w'
    | (w', Raise e) => (w', Raise e)
    | (w', OutOfFuel) => (w', OutOfFuel)
    end.

(** [try: c  except <the exceptions handler accepts>: ...]. *)
Definition try_except {A} (c : M A) (handler : exn -> option (M A)) : M A :=
  fun w =>
    match c w with
    | (w', Raise e) =>
        match handler e with
        | Some h => h w'
        | None => (w', Raise e)
        end
    | r => r
    end.

(** A pure computation that may raise. *)
Definition lift {A} (r : res A) : M A := fun w => (w, r).

(** [a and b] for booleans: [b] is evaluated only when [a] holds. *)
Definition and_then (a : bool) (b : M bool) : M bool :=
  if a then b else ret false.

Definition emit (e : event) : M unit := fun w => (w ++ [e], Ret tt).

(** [subprocess.CompletedProcess]. *)
Record completed : Type := mkCompleted {
  returncode : Z;
  stdout : string;
  stderr : string
}.

(** [time.sleep] takes at most this many whole seconds (the nanosecond
    count must fit 63 bits). *)
Definition sleep_max : Z := 9223372036.

Section Primitives.
Variable env : oracle.

  (** [subprocess.run(argv, ...)] without [check]. *)
Definition subprocess_run (argv : list string) : M completed :=
    fun w =>
      let '(rc, out, err) := proc env (length w) argv in
      (w ++ [EvRun argv rc], Ret (mkCompleted rc out err)).

  (** [time.sleep(secs)] for an [int]. *)
Definition time_sleep (secs : Z) : M unit :=
    if secs <? 0 then raise ValueError
    else if sleep_max <? secs then raise OverflowError
    else emit (EvSleep secs).

  (** [subprocess.check_output(argv)], and [subprocess.run(argv, check=True)]. *)
Definition subprocess_check_output (argv : list string) : M string :=
    bind (subprocess_run argv) (fun result =>
    if returncode result =? 0 then ret (stdout result)
    else raise (CalledProcessError (returncode result))).

Definition time_time : M float := fun w => (w, Ret (clock env (length w))).

  (** [os.path.exists]: false when the entry is missing or [stat] fails. *)
Definition os_path_exists (path : string) : M bool :=
    fun w => (w, Ret (bool_decide (is_Some (mtime env (length w) path)))).

Definition os_path_getmtime (path : string) : M float :=
    fun w =>
      match mtime env (length w) path with
      | Some t => (w, Ret t)
      | None => (w, Raise OSError)
      end.

Definition datetime_now_isoformat : M string :=
    fun w => (w, Ret (isotime env (length w))).

Definition os_makedirs (path : string) : M unit := emit (EvMakedirs path).

Definition json_dump (path : string) (data : snapshot) : M unit :=
    emit (EvDump path data).
End Primitives.

(** The trace read back: the sleeps taken and the processes started. *)
Definition sleeps (w : world) : list Z :=
  omap (fun e => match e with EvSleep s => Some s | _ => None end) w.

Definition runs (w : world) : list (list string * Z) :=
  omap (fun e => match e with EvRun argv rc => Some (argv, rc) | _ => None end) w.

End World.

Declare Scope py_scope.
Delimit Scope py_scope with py.
Notation "x <- c ;; k" := (World.bind c (fun x => k))
  (at level 20, c at level 99, k at level 200, only parsing) : py_scope.
Notation "' p <- c ;; k" := (World.bind c (fun p => k))
  (at level 20, p pattern, c at level 99, k at level 200, only parsing) : py_scope.
Notation "c ;; k" := (World.bind c (fun _ => k))
  (at level 100, k at level 200, right associativity, only parsing) : py_scope.

(** ** src/transfer_with_retry.py: the multi-cycle queue *)

Module TransferWithRetry.
Import Py World.
Local Open Scope py_scope.

(** supervisor_config.json as [load_config] returns it: an absent key is
    [None]; [nodes] keeps the order of the file. *)
Record config : Type := mkConfig {
  log_file : option string;
  supervisor_data_dir : option string;
  remote_data_path : option string;
  heartbeat_dir : option string;
  heartbeat_max_age_sec : option Z;
  max_retries : option Z;
  retry_delay : option Z;
  backoff_factor : option num;
  max_cycles : option Z;
  cycle_delay : option Z;
  nodes : option (list (string * node_info))
}.

(** [float(x)] for a JSON number. *)
Definition float_of_num (x : num) : res float :=
  match x with
  | Int i => float_of_int i
  | Float f => Ret f
  end.

(** The part of [ping_latency] that reads one [min/avg/max] line. *)
Definition parse_avg (line : string) : res (option float) :=
  rbind (index (split "=" line) (-1)) (fun last =>
  let parts := split "/" (strip last) in
  match rbind (index parts 1) float_of_string with
  | Ret avg_ms => Ret (Some avg_ms)
  | Raise IndexError | Raise ValueError => Ret None
  | Raise e => Raise e
  | OutOfFuel => OutOfFuel
  end).

(** The loop of [ping_latency] over the lines of the output. *)
Fixpoint first_avg (lines : list string) : res (option float) :=
  match lines with
  | [] => Ret None
  | line :: rest =>
      if contains "min/avg/max" line then parse_avg line else first_avg rest
  end.

(** The key of [sorted] in [main]: [(priority, latency)], compared as
    Python compares tuples, through [==] and [<] of the components. *)
Definition key_lt (a b : Z * float) : bool :=
  if fst a =? fst b then
    if PrimFloat.eqb (snd a) (snd b) then false else PrimFloat.ltb (snd a) (snd b)
  else fst a <? fst b.

(** [sorted(items, key=...)]: stable, and decided by [<] on the keys
    alone. Every element goes before the first one it is smaller than. *)
Fixpoint insert_item (x : string * (Z * float)) (l : list (string * (Z * float)))
  : list (string * (Z * float)) :=
  match l with
  | [] => [x]
  | y :: l' => if key_lt (snd x) (snd y) then x :: l else y :: insert_item x l'
  end.

Definition sorted (items : list (string * (Z * float))) : list (string * (Z * float)) :=
  fold_left (fun acc x => insert_item x acc) items [].

(** [d[k] = v] on a dict kept in insertion order. *)
Fixpoint dict_set {V} (d : list (string * V)) (k : string) (v : V) : list (string * V) :=
  match d with
  | [] => [(k, v)]
  | (k', v') :: d' => if String.eqb k' k then (k, v) :: d' else (k', v') :: dict_set d' k v
  end.

(** [d[k]]. *)
Fixpoint dict_get {V} (d : list (string * V)) (k : string) : res V :=
  match d with
  | [] => Raise (KeyError k)
  | (k', v) :: d' => if String.eqb k' k then Ret v else dict_get d' k
  end.

(** [s.remove(x)] on a set kept in its iteration order. *)
Definition set_remove (s : list string) (x : string) : res (list string) :=
  if existsb (String.eqb x) s
  then Ret (List.filter (fun y => negb (String.eqb x y)) s)
  else Raise (KeyError x).

Section Program.
Variable env : oracle.

  (** [log]: the line is printed and appended to [log_file]; a failure to
      write the file is swallowed. *)
Definition log (message : string) (args : list log_arg) (log_file : string) : M unit :=
    emit (EvLog message args).

Definition ping_latency (ip : string) (count : Z) : M (option float) :=
    let cmd := ["ping"; "-c"; pretty count; "-W"; "1"; ip] in
    result <- subprocess_run env cmd ;;
    if negb (returncode result =? 0) then ret None
    else lift (first_avg (splitlines (stdout result))).

  (** The [while attempt <= max_retries] loop of [rsync_data]; [fuel]
      bounds the iterations. *)
Fixpoint rsync_attempts (fuel : nat) (ip hostname : string) (rsync_cmd : list string)
      (max_retries : Z) (backoff_factor : float) (log_file : string)
      (attempt delay : Z) : M bool :=
    if attempt <=? max_retries then
      match fuel with
      | O => fun w => (w, OutOfFuel)
      | S fuel' =>
          log "Attempt {}/{} to sync data from {} ({})"
              [AInt attempt; AInt max_retries; AStr hostname; AStr ip] log_file ;;
          result <- subprocess_run env rsync_cmd ;;
          if returncode result =? 0 then
            log "Successfully synced data from {}." [AStr hostname] log_file ;;
            ret true
          else
            log "Rsync failed for {} (code {}). stdout: {} stderr: {}"
                [AStr hostname; AInt (returncode result);
                 AStr (strip (stdout result)); AStr (strip (stderr result))] log_file ;;
            (* Check if node is reachable at all *)
            latency <- ping_latency ip 3 ;;
            match latency with
            | None => log "Node {} ({}) unreachable (ping failed)." [AStr hostname; AStr ip] log_file
            | Some l => log "Node {} ({}) reachable, avg latency {:.2f} ms."
                            [AStr hostname; AStr ip; AFloat l] log_file
            end ;;
            delay' <-
              (if attempt <? max_retries then
                 log "Retrying in {} seconds..." [AInt delay] log_file ;;
                 time_sleep delay ;;
                 lift (int_mul delay (Float backoff_factor))
               else ret delay) ;;
            rsync_attempts fuel' ip hostname rsync_cmd max_retries backoff_factor log_file
                           (attempt + 1) delay'
      end
    else
      log "Failed to sync data from {} after {} attempts." [AStr hostname; AInt max_retries] log_file ;;
      ret false.

  (** Sync remote data folder from node to supervisor, with retry logic. *)
Definition rsync_data (ip hostname supervisor_data_dir remote_data_path : string)
      (max_retries retry_delay : Z) (backoff_factor : float) (log_file : string) : M bool :=
    let dest_dir := path_join supervisor_data_dir hostname in
    os_makedirs dest_dir ;;
    let rsync_cmd :=
      ["rsync"; "-avz"; "--partial"; "--timeout=20";
       "pi@" +:+ ip +:+ ":" +:+ remote_data_path +:+ "/";  (* remote source *)
       dest_dir] in                                        (* local destination *)
    rsync_attempts (Z.to_nat max_retries) ip hostname rsync_cmd max_retries backoff_factor
                   log_file 1 retry_delay.

  (** True if there is a heartbeat file for this node that is newer than
      [max_age_sec]. *)
Definition has_fresh_heartbeat (node_name heartbeat_dir : string) (max_age_sec : Z)
      (log_file : string) : M bool :=
    let path := path_join heartbeat_dir (node_name +:+ ".alive") in
    present <- os_path_exists env path ;;
    if negb present then
      log "{}: no heartbeat file found in {}." [AStr node_name; AStr heartbeat_dir] log_file ;;
      ret false
    else
      now <- time_time env ;;
      mt <- os_path_getmtime env path ;;
      let age := PrimFloat.sub now mt in
      if float_gt_int age max_age_sec then
        secs <- lift (int_of_float age) ;;
        log "{}: heartbeat too old ({}s > {}s)." [AStr node_name; AInt secs; AInt max_age_sec] log_file ;;
        ret false
      else ret true.
  (** *** [main] *)

Section Main.
    (* the locals [main] binds from the configuration *)
Variable nodes_cfg : list (string * node_info).
Variables log_file supervisor_data_dir remote_data_path heartbeat_dir : string.
Variables heartbeat_max_age max_retries retry_delay max_cycles cycle_delay : Z.
Variable backoff_factor : float.

    (** [nodes_cfg[name]["ip"]]. *)
Definition node_ip (name : string) : res string :=
      rbind (dict_get nodes_cfg name) (fun node_info =>
      match info_ip node_info with
      | Some ip => Ret ip
      | None => Raise (KeyError "ip")
      end).

    (** Determine which remaining nodes are worth trying this cycle: the
        loop [for name in list(remaining)] filling [candidates]. *)
Fixpoint build_candidates (names : list string) (candidates : list (string * (Z * float)))
      : M (list (string * (Z * float))) :=
      match names with
      | [] => ret candidates
      | name :: rest =>
          node_info <- lift (dict_get nodes_cfg name) ;;
          ip <- lift (node_ip name) ;;
          let priority := default 999 (info_priority node_info) in
          (* 1) Check heartbeat freshness *)
          fresh <- has_fresh_heartbeat name heartbeat_dir heartbeat_max_age log_file ;;
          if negb fresh then
            log "{}: skipping this cycle (no fresh heartbeat)." [AStr name] log_file ;;
            build_candidates rest candidates
          else
            (* 2) Check ping and latency *)
            latency <- ping_latency ip 3 ;;
            match latency with
            | None =>
                log "{}: heartbeat present but ping failed. Skipping this cycle." [AStr name] log_file ;;
                build_candidates rest candidates
            | Some l => build_candidates rest (dict_set candidates name (priority, l))
            end
      end.

    (** The loop over [sorted_nodes]: one [rsync_data] per candidate. *)
Fixpoint transfer_all (sorted_nodes : list (string * (Z * float))) (remaining : list string)
      : M (list string) :=
      match sorted_nodes with
      | [] => ret remaining
      | (name, (priority, latency)) :: rest =>
          ip <- lift (node_ip name) ;;
          log "Requesting data from {} ({}), priority={}, latency={:.2f} ms"
              [AStr name; AStr ip; AInt priority; AFloat latency] log_file ;;
          success <- rsync_data ip name supervisor_data_dir remote_data_path
                                max_retries retry_delay backoff_factor log_file ;;
          remaining' <-
            (if success then lift (set_remove remaining name)
             else
               log "{}: still failed after retries, will try again in a later cycle."
                   [AStr name] log_file ;;
               ret remaining) ;;
          time_sleep 2 ;;  (* small delay between nodes *)
          transfer_all rest remaining'
      end.

    (** The body of [for cycle in range(1, max_cycles + 1)] below its
        [break] test. *)
Definition cycle_body (cycle : Z) (remaining : list string) : M (list string) :=
      log "--- Cycle {}/{} --- Remaining nodes: {}"
          [AInt cycle; AInt max_cycles; ASorted remaining] log_file ;;
      candidates <- build_candidates remaining [] ;;
      remaining' <-
        (match candidates with
         | [] => log "No candidates to sync in this cycle." [] log_file ;; ret remaining
         | _ => transfer_all (sorted candidates) remaining
         end) ;;
      (* Wait before next cycle, if there are still nodes left *)
      (if negb (bool_decide (remaining' = [])) && (cycle <? max_cycles) then
         log "End of cycle {}. Unsynced nodes: {}. Sleeping {} seconds before next cycle..."
             [AInt cycle; ASorted remaining'; AInt cycle_delay] log_file ;;
         time_sleep cycle_delay
       else ret tt) ;;
      ret remaining'.

    (** [for cycle in range(1, max_cycles + 1)], with its [break]. *)
Fixpoint cycles (cs : list Z) (remaining : list string) : M (list string) :=
      match cs with
      | [] => ret remaining
      | cycle :: cs' =>
          if bool_decide (remaining = []) then
            log "All nodes synced successfully. Stopping early." [] log_file ;;
            ret remaining
          else
            remaining' <- cycle_body cycle remaining ;;
            cycles cs' remaining'
      end.

    (** [main] from the point where the nodes are known to be there. *)
Definition run : M unit :=
      log "=== Starting data queue with multi-cycle retry ===" [] log_file ;;
      (* Track which nodes are still not successfully synced *)
      let remaining := set_iter env (map fst nodes_cfg) in
      remaining <- cycles (range 1 (max_cycles + 1)) remaining ;;
      (if negb (bool_decide (remaining = []))
       then log "FINAL: gave up on nodes: {}" [ASorted remaining] log_file
       else log "FINAL: all nodes synced in this run." [] log_file) ;;
      log "=== Data queue complete ===\n" [] log_file.
End Main.

Definition main (cfg : config) : M unit :=
    let log_file := default "/home/pi/queue_data_request.log" (log_file cfg) in
    let supervisor_data_dir := default "/home/pi/supervisor_data" (supervisor_data_dir cfg) in
    let remote_data_path := default "/home/pi/data" (remote_data_path cfg) in
    let heartbeat_dir := default "/home/pi/supervisor/heartbeats" (heartbeat_dir cfg) in
    let heartbeat_max_age := default 120 (heartbeat_max_age_sec cfg) in
    let max_retries := default 5 (max_retries cfg) in
    let retry_delay := default 5 (retry_delay cfg) in
    backoff_factor <- lift (float_of_num (default (Float 2%float) (backoff_factor cfg))) ;;
    let max_cycles := default 3 (max_cycles cfg) in
    let cycle_delay := default 60 (cycle_delay cfg) in
    let nodes_cfg := default [] (nodes cfg) in
    match nodes_cfg with
    | [] => log "No nodes defined in config. Exiting." [] log_file
    | _ =>
        run nodes_cfg log_file supervisor_data_dir remote_data_path heartbeat_dir
            heartbeat_max_age max_retries retry_delay max_cycles cycle_delay backoff_factor
    end.
End Program.

End TransferWithRetry.

(** ** src/queue_shipped_data.py: the always-running queue *)

Module QueueShippedData.
Import Py World.
Local Open Scope py_scope.

(* JSON file where we keep node state + IP + transfer_fail flag *)
Definition JSON_FILEPATH : string := "/home/pi/node_states.json".
(* Supervisor-side: where all shipped data accumulates *)
Definition SUPERVISOR_DATA_ROOT : string := "/home/pi/data".
(* Node-side shipping directory *)
Definition REMOTE_SHIP_DIR : string := "/home/pi/shipping".
(* How often to retry (in seconds) *)
Definition RETRY_INTERVAL : Z := 600.

(** The loop of [ping_latency] over the lines of the output: the first
    line holding "avg" decides. *)
Fixpoint first_avg (lines : list string) : res (option float) :=
  match lines with
  | [] => Ret None
  | line :: rest =>
      if contains "avg" line then
        (* Example: rtt min/avg/max/mdev = 0.242/0.256/0.262/0.010 ms *)
        rbind (index (split "/" line) 4) (fun avg_str =>
        rbind (float_of_string avg_str) (fun avg => Ret (Some avg)))
      else first_avg rest
  end.

Section Program.
Variable env : oracle.

  (** Append a timestamped message to the log file and print it. *)
Definition log (message : string) (args : list log_arg) : M unit :=
    emit (EvLog message args).

  (** Ping a host and return average latency in ms (None if unreachable). *)
Definition ping_latency (ip : string) (count : Z) : M (option float) :=
    try_except
      (output <- subprocess_check_output env ["ping"; "-c"; pretty count; "-W"; "1"; ip] ;;
       lift (first_avg (splitlines output)))
      (fun e => match e with
                | CalledProcessError _ => Some (ret None)
                | _ => None
                end).

  (** Pull everything from the node's shipping dir into the data root. *)
Definition rsync_shipped_data (ip hostname : string) : M bool :=
    let dest_dir := SUPERVISOR_DATA_ROOT in
    os_makedirs dest_dir ;;
    let rsync_cmd :=
      ["rsync"; "-avz"; "--partial";
       "--ignore-existing";                          (* do not overwrite files that already exist *)
       "pi@" +:+ ip +:+ ":" +:+ REMOTE_SHIP_DIR +:+ "/";
       dest_dir] in
    try_except
      (subprocess_check_output env rsync_cmd ;;
       log "Pulled shipped data from {} ({}) -> {}" [AStr hostname; AStr ip; AStr dest_dir] ;;
       ret true)
      (fun e => match e with
                | CalledProcessError _ =>
                    Some (log "Failed to rsync shipped data from {} ({})" [AStr hostname; AStr ip] ;;
                          ret false)
                | _ => None
                end).

  (** Write the current Node state back to JSON file. *)
Definition save_nodes (json_filepath : string) (nodes : list Node) : M unit :=
    json_dump json_filepath (SnapNodes nodes).

Definition set_state (node : Node) (s : string) : Node :=
    mkNode (name node) (ip node) (transfer_fail node) s.

Definition set_transfer_fail (node : Node) (b : bool) : Node :=
    mkNode (name node) (ip node) b (state node).

  (** [for node in nodes: ...] where the body may update the node. *)
Fixpoint for_nodes (body : Node -> M Node) (nodes : list Node) : M (list Node) :=
    match nodes with
    | [] => ret []
    | node :: rest =>
        node' <- body node ;;
        rest' <- for_nodes body rest ;;
        ret (node' :: rest')
    end.

  (** Ping all nodes once and set their state to 'alive' or 'dead'. *)
Definition ping_nodes (nodes : list Node) : M (list Node) :=
    for_nodes (fun node =>
      latency <- ping_latency (ip node) 3 ;;
      match latency with
      | Some l =>
          log "Node {} ({}) latency: {} ms" [AStr (name node); AStr (ip node); AFloat l] ;;
          ret (set_state node "alive")
      | None =>
          log "Node {} ({}) is unreachable. Marked as dead." [AStr (name node); AStr (ip node)] ;;
          ret (set_state node "dead")
      end) nodes.

  (** Check nodes that are NOT 'alive' (dead/unknown). If they respond,
      mark them alive. *)
Definition ping_dead_nodes (nodes : list Node) : M (list Node) :=
    for_nodes (fun node =>
      if negb (String.eqb (state node) "alive") then
        latency <- ping_latency (ip node) 3 ;;
        match latency with
        | Some l =>
            log "Node {} ({}) is back online with latency: {} ms"
                [AStr (name node); AStr (ip node); AFloat l] ;;
            ret (set_state node "alive")
        | None => ret node
        end
      else ret node) nodes.

  (** [main] up to its [while True]: classification and first attempt. *)
Definition initial_pass (nodes : list Node) : M (list Node) :=
    log "=== Starting shipped data queue ===" [] ;;
    (* Initial classification of nodes as alive/dead *)
    nodes <- ping_nodes nodes ;;
    save_nodes JSON_FILEPATH nodes ;;
    (* First attempt: request data from nodes that are alive and not failed yet *)
    log "=== Initial data transfer attempt ===" [] ;;
    nodes <- for_nodes (fun node =>
      log "Attempting data transfer from {} ({})" [AStr (name node); AStr (ip node)] ;;
      if String.eqb (state node) "alive" && negb (transfer_fail node) then
        success <- rsync_shipped_data (ip node) (name node) ;;
        log "Node {} transfer success: {}" [AStr (name node); ABool success] ;;
        if negb success then
          log "Node {}: transfer_fail flag set to True" [AStr (name node)] ;;
          ret (set_transfer_fail node true)
        else ret node
      else ret node) nodes ;;
    save_nodes JSON_FILEPATH nodes ;;
    ret nodes.

  (** One iteration of [while True]. *)
Definition retry_cycle (nodes : list Node) : M (list Node) :=
    log "=== Sleeping before next retry cycle ===" [] ;;
    time_sleep RETRY_INTERVAL ;;
    (* Re-ping non-alive nodes to see if they came back *)
    nodes <- ping_dead_nodes nodes ;;
    save_nodes JSON_FILEPATH nodes ;;
    (* Retry failed transfers ONLY for nodes that are alive *)
    log "=== Retrying failed data transfers ===" [] ;;
    nodes <- for_nodes (fun node =>
      log "Attempting data transfer from {} ({})" [AStr (name node); AStr (ip node)] ;;
      if String.eqb (state node) "alive" && transfer_fail node then
        success <- rsync_shipped_data (ip node) (name node) ;;
        log "Node {} transfer success: {}" [AStr (name node); ABool success] ;;
        if success then
          log "Node {}: transfer_fail flag cleared" [AStr (name node)] ;;
          ret (set_transfer_fail node false)
        else ret node
      else ret node) nodes ;;
    save_nodes JSON_FILEPATH nodes ;;
    ret nodes.

  (** The first [n] iterations of [while True] (the loop itself never
      ends: every finite prefix of the run is one of these). *)
Fixpoint retry_loop (n : nat) (nodes : list Node) : M (list Node) :=
    match n with
    | O => ret nodes
    | S n' =>
        nodes <- retry_cycle nodes ;;
        retry_loop n' nodes
    end.

  (** [main] on the nodes [load_nodes] returned, cut after [n] retry
      cycles. *)
Definition main (n : nat) (nodes : list Node) : M (list Node) :=
    nodes <- initial_pass nodes ;;
    retry_loop n nodes.
End Program.

End QueueShippedData.

(** ** src/beam/BEAM_supervisor_package: the daily run and the health check *)

Module Beam.
Import Py World.
Local Open Scope py_scope.

Definition STATE_PATH : string := "/home/pi/supervisor_state.json".

(** supervisor_config.json as both scripts index it; every key they read
    is there ([config["max_retries"]] and [config["retry_delay"]] hold
    ints). *)
Record config : Type := mkConfig {
  log_file : string;
  supervisor_data_dir : string;
  remote_data_path : string;
  max_retries : Z;
  retry_delay : Z;
  backoff_factor : num;
  nodes : list (string * node_info)
}.

(** [info["ip"]]. *)
Definition info_ip_get (info : node_info) : res string :=
  match info_ip info with
  | Some ip => Ret ip
  | None => Raise (KeyError "ip")
  end.

(** [state[name][field]] read, for the two flags. *)
Definition get_flag (field : string) (proj : node_state -> option bool)
    (state : gmap string node_state) (name : string) : res bool :=
  match state !! name with
  | None => Raise (KeyError name)
  | Some r => match proj r with
              | Some b => Ret b
              | None => Raise (KeyError field)
              end
  end.

(** [state[name][field] = v]: the node's dict must be there. *)
Definition update (f : node_state -> node_state)
    (state : gmap string node_state) (name : string) : res (gmap string node_state) :=
  match state !! name with
  | None => Raise (KeyError name)
  | Some r => Ret (<[name := f r]> state)
  end.

Definition set_node_alive (b : bool) (r : node_state) : node_state :=
  mkState (Some b) (fail_to_request_data r) (last_online_time r) (last_offline_time r) (last_fail_time r).
Definition set_fail_to_request_data (b : bool) (r : node_state) : node_state :=
  mkState (node_alive r) (Some b) (last_online_time r) (last_offline_time r) (last_fail_time r).
Definition set_last_online_time (t : string) (r : node_state) : node_state :=
  mkState (node_alive r) (fail_to_request_data r) (Some t) (last_offline_time r) (last_fail_time r).
Definition set_last_offline_time (t : string) (r : node_state) : node_state :=
  mkState (node_alive r) (fail_to_request_data r) (last_online_time r) (Some t) (last_fail_time r).
Definition set_last_fail_time (t : string) (r : node_state) : node_state :=
  mkState (node_alive r) (fail_to_request_data r) (last_online_time r) (last_offline_time r) (Some t).

Section Shared.
Variable env : oracle.

Definition log (msg : string) (args : list log_arg) (log_file : string) : M unit :=
    emit (EvLog msg args).

Definition ping (ip : string) : M bool :=
    result <- subprocess_run env ["ping"; "-c"; "1"; "-W"; "1"; ip] ;;
    ret (returncode result =? 0).

Definition save_json (path : string) (data : gmap string node_state) : M unit :=
    json_dump path (SnapState data).

Definition rsync_cmd (ip name : string) (config : config) : list string :=
    ["rsync"; "-avz"; "--partial"; "--timeout=20";
     "pi@" +:+ ip +:+ ":" +:+ remote_data_path config +:+ "/";
     path_join (supervisor_data_dir config) name].
End Shared.

(** *** transfer_with_retry.py *)

Module TransferWithRetry.
Section Program.
Variable env : oracle.

  (** [for attempt in range(1, config["max_retries"] + 1)]. *)
Fixpoint rsync_attempts (attempts : list Z) (name : string) (cmd : list string)
      (config : config) (log_file : string) (delay : Z) : M bool :=
    match attempts with
    | [] => ret false
    | attempt :: rest =>
        log "{}: Attempt {} to rsync data" [AStr name; AInt attempt] log_file ;;
        result <- subprocess_run env cmd ;;
        if returncode result =? 0 then
          log "{}: rsync SUCCESS" [AStr name] log_file ;;
          ret true
        else
          log "{}: rsync FAILED (code {})" [AStr name; AInt (returncode result)] log_file ;;
          time_sleep delay ;;
          delay <- lift (int_mul delay (backoff_factor config)) ;;
          rsync_attempts rest name cmd config log_file delay
    end.

Definition rsync_data (ip name : string) (config : config) (log_file : string) : M bool :=
    os_makedirs (path_join (supervisor_data_dir config) name) ;;
    rsync_attempts (range 1 (max_retries config + 1)) name (rsync_cmd ip name config)
                   config log_file (retry_delay config).

  (** The body of [for name, info in config["nodes"].items()]. *)
Definition visit (config : config) (log_file : string) (name : string) (info : node_info)
      (state : gmap string node_state) : M (gmap string node_state) :=
    ip <- lift (info_ip_get info) ;;
    alive <- ping env ip ;;
    if negb alive then
      log "{}: Node offline, setting node_alive=false" [AStr name] log_file ;;
      state <- lift (update (set_node_alive false) state name) ;;
      now <- datetime_now_isoformat env ;;
      lift (update (set_last_offline_time now) state name)
    else
      success <- rsync_data ip name config log_file ;;
      if success then
        state <- lift (update (set_fail_to_request_data false) state name) ;;
        log "{}: Data pull succeeded." [AStr name] log_file ;;
        ret state
      else
        state <- lift (update (set_fail_to_request_data true) state name) ;;
        now <- datetime_now_isoformat env ;;
        state <- lift (update (set_last_fail_time now) state name) ;;
        log "{}: Data pull FAILED." [AStr name] log_file ;;
        ret state.

Fixpoint visit_all (config : config) (log_file : string) (items : list (string * node_info))
      (state : gmap string node_state) : M (gmap string node_state) :=
    match items with
    | [] => ret state
    | (name, info) :: rest =>
        state <- visit config log_file name info state ;;
        visit_all config log_file rest state
    end.

  (** [main] on the loaded configuration and state; the state it saved. *)
Definition main (config : config) (state : gmap string node_state)
    : M (gmap string node_state) :=
    let log_file := log_file config in
    log "=== DAILY DATA RUN START ===" [] log_file ;;
    state <- visit_all config log_file (nodes config) state ;;
    save_json STATE_PATH state ;;
    log "=== DAILY DATA RUN END ===" [] log_file ;;
    ret state.
End Program.
End TransferWithRetry.

(** *** supervisor_ping_check.py *)

Module SupervisorPingCheck.
Section Program.
Variable env : oracle.

Fixpoint rsync_attempts (attempts : list Z) (name : string) (cmd : list string)
      (config : config) (log_file : string) (delay : Z) : M bool :=
    match attempts with
    | [] => ret false
    | attempt :: rest =>
        log "{}: Attempt {} to rsync data (catch-up)" [AStr name; AInt attempt] log_file ;;
        result <- subprocess_run env cmd ;;
        if returncode result =? 0 then
          log "{}: CATCH-UP SUCCESS" [AStr name] log_file ;;
          ret true
        else
          time_sleep delay ;;
          delay <- lift (int_mul delay (backoff_factor config)) ;;
          rsync_attempts rest name cmd config log_file delay
    end.

Definition rsync_data (ip name : string) (config : config) (log_file : string) : M bool :=
    os_makedirs (path_join (supervisor_data_dir config) name) ;;
    rsync_attempts (range 1 (max_retries config + 1)) name (rsync_cmd ip name config)
                   config log_file (retry_delay config).

  (** The body of the first loop of [main]: the health check of a node. *)
Definition probe (log_file : string) (name : string) (info : node_info)
      (state : gmap string node_state) : M (gmap string node_state) :=
    ip <- lift (info_ip_get info) ;;
    is_alive <- ping env ip ;;
    came_online <-
      and_then is_alive
        (alive <- lift (get_flag "node_alive" node_alive state name) ;; ret (negb alive)) ;;
    state <-
      (if came_online then
         state <- lift (update (set_node_alive true) state name) ;;
         now <- datetime_now_isoformat env ;;
         state <- lift (update (set_last_online_time now) state name) ;;
         log "{}: came ONLINE" [AStr name] log_file ;;
         ret state
       else ret state) ;;
    went_offline <-
      and_then (negb is_alive) (lift (get_flag "node_alive" node_alive state name)) ;;
    if went_offline then
      state <- lift (update (set_node_alive false) state name) ;;
      now <- datetime_now_isoformat env ;;
      state <- lift (update (set_last_offline_time now) state name) ;;
      log "{}: went OFFLINE" [AStr name] log_file ;;
      ret state
    else ret state.

Fixpoint probe_all (log_file : string) (items : list (string * node_info))
      (state : gmap string node_state) : M (gmap string node_state) :=
    match items with
    | [] => ret state
    | (name, info) :: rest =>
        state <- probe log_file name info state ;;
        probe_all log_file rest state
    end.

  (** The body of the second loop of [main]: the catch-up of a node. *)
Definition catch_up (config : config) (log_file : string) (name : string) (info : node_info)
      (state : gmap string node_state) : M (gmap string node_state) :=
    failed <- lift (get_flag "fail_to_request_data" fail_to_request_data state name) ;;
    due <- and_then failed (lift (get_flag "node_alive" node_alive state name)) ;;
    if due then
      log "{}: Flags true, running CATCH-UP" [AStr name] log_file ;;
      ip <- lift (info_ip_get info) ;;
      success <- rsync_data ip name config log_file ;;
      if success then
        state <- lift (update (set_fail_to_request_data false) state name) ;;
        log "{}: Catch-up success, flag cleared." [AStr name] log_file ;;
        ret state
      else ret state
    else ret state.

Fixpoint catch_up_all (config : config) (log_file : string) (items : list (string * node_info))
      (state : gmap string node_state) : M (gmap string node_state) :=
    match items with
    | [] => ret state
    | (name, info) :: rest =>
        state <- catch_up config log_file name info state ;;
        catch_up_all config log_file rest state
    end.

Definition main (config : config) (state : gmap string node_state)
    : M (gmap string node_state) :=
    let log_file := log_file config in
    log "=== 10 MIN HEALTH CHECK ===" [] log_file ;;
    state <- probe_all log_file (nodes config) state ;;
    state <- catch_up_all config log_file (nodes config) state ;;
    save_json STATE_PATH state ;;
    log "=== HEALTH CHECK COMPLETE ===" [] log_file ;;
    ret state.
End Program.
End SupervisorPingCheck.

End Beam.

(** ** src/node_heartbeat.py: the heartbeat a node sends *)

Module NodeHeartbeat.
Import Py World.
Local Open Scope py_scope.

(** config.json of a node as [load_config] returns it, for the keys
    [main] reads: an absent key is [None] ([heartbeat_interval] and
    [ping_timeout] hold ints). *)
Record global_config : Type := mkGlobal {
  node_id : option string
}.

Record supervisor_config : Type := mkSupervisor {
  host : option string;
  user : option string;
  heartbeat_dir : option string;
  heartbeat_interval : option Z;
  ping_timeout : option Z
}.

Record config : Type := mkConfig {
  global : option global_config;
  supervisor : option supervisor_config
}.

(** [d[key]] for a key that may be absent. *)
Definition getitem {A} (key : string) (value : option A) : res A :=
  match value with
  | Some a => Ret a
  | None => Raise (KeyError key)
  end.

Section Program.
Variable env : oracle.

  (** [log]: the line is printed and appended to the log file; a failure
      to write the file is swallowed. *)
Definition log (msg : string) (args : list log_arg) : M unit :=
    emit (EvLog msg args).

  (** Return True if host responds to a single ping. *)
Definition ping_host (ip : string) (timeout : Z) : M bool :=
    let cmd := ["ping"; "-c"; "1"; "-W"; pretty timeout; ip] in
    result <- subprocess_run env cmd ;;
    ret (returncode result =? 0).

  (** Create/refresh a heartbeat file on the supervisor using SSH. File
      will be: <heartbeat_dir>/<node_id>.alive *)
Definition send_heartbeat (node_id user host heartbeat_dir : string) : M bool :=
    let remote_cmd :=
      "mkdir -p " +:+ heartbeat_dir +:+ " && touch " +:+ heartbeat_dir +:+ "/" +:+ node_id +:+ ".alive" in
    let ssh_cmd := ["ssh"; user +:+ "@" +:+ host; remote_cmd] in
    result <- subprocess_run env ssh_cmd ;;
    ret (returncode result =? 0).

  (** One iteration of [while True]. *)
Definition beat (node_id sup_user sup_host heartbeat_dir : string)
      (interval ping_timeout : Z) : M unit :=
    (* 1) Check if supervisor is reachable *)
    reachable <- ping_host sup_host ping_timeout ;;
    if negb reachable then
      log "Supervisor {} not reachable (ping failed)." [AStr sup_host] ;;
      time_sleep interval
    else
      (* 2) Try to update heartbeat file via SSH *)
      sent <- send_heartbeat node_id sup_user sup_host heartbeat_dir ;;
      (if sent then log "Heartbeat sent for {}." [AStr node_id]
       else log "FAILED to send heartbeat for {} (SSH error)." [AStr node_id]) ;;
      time_sleep interval.

  (** The first [n] iterations of [while True] (the loop itself never
      ends: every finite prefix of the run is one of these). *)
Fixpoint beats (n : nat) (node_id sup_user sup_host heartbeat_dir : string)
      (interval ping_timeout : Z) : M unit :=
    match n with
    | O => ret tt
    | S n' =>
        beat node_id sup_user sup_host heartbeat_dir interval ping_timeout ;;
        beats n' node_id sup_user sup_host heartbeat_dir interval ping_timeout
    end.

  (** [main] on the loaded configuration, cut after [n] iterations. *)
Definition main (n : nat) (cfg : config) : M unit :=
    g <- lift (getitem "global" (global cfg)) ;;
    node_id <- lift (getitem "node_id" (node_id g)) ;;
    sup_cfg <- lift (getitem "supervisor" (supervisor cfg)) ;;
    sup_host <- lift (getitem "host" (host sup_cfg)) ;;
    let sup_user := default "pi" (user sup_cfg) in
    heartbeat_dir <- lift (getitem "heartbeat_dir" (heartbeat_dir sup_cfg)) ;;
    let interval := default 60 (heartbeat_interval sup_cfg) in
    let ping_timeout := default 2 (ping_timeout sup_cfg) in
    log "Starting heartbeat for {} to {}@{}" [AStr node_id; AStr sup_user; AStr sup_host] ;;
    beats n node_id sup_user sup_host heartbeat_dir interval ping_timeout.
End Program.

End NodeHeartbeat.

(** ** src/queue_shipped_data.py: node_states.json saved and loaded *)

Module NodeStates.
Import Py World.

(** An entry of node_states.json as [load_nodes] reads it: the address
    is taken to be there; of the two other keys, one that is absent is
    [None]. *)
Record entry : Type := mkEntry {
  entry_ip : string;
  entry_transfer_fail : option bool;
  entry_state : option string
}.

(** Convert Node back to a plain dict for JSON saving. *)
Definition to_dict (node : Node) : entry :=
  mkEntry (ip node) (Some (transfer_fail node)) (Some (state node)).

(** The [data] that [save_nodes] writes:
    [{node.name: node.to_dict() for node in nodes}]. *)
Definition data_of (nodes : list Node) : list (string * entry) :=
  fold_left (fun data node => TransferWithRetry.dict_set data (name node) (to_dict node))
            nodes [].

(** [str(b)] for a [bool]. *)
Definition str_bool (b : bool) : string := if b then "True" else "False".

(** [load_nodes] on what the file holds ([None] when the file is not
    there): the lines it prints and the nodes it returns. *)
Definition load_nodes (json_filepath : string) (file : option (list (string * entry)))
    : list string * list Node :=
  match file with
  | Some data =>
      let loaded :=
        map (fun item : string * entry =>
               let (name, info) := item in
               let ip := entry_ip info in
               let transfer := default false (entry_transfer_fail info) in
               let state := default "unknown" (entry_state info) in
               ("Loaded node: " +:+ name +:+ ", IP: " +:+ ip +:+
                ", transfer_fail: " +:+ str_bool transfer +:+ ", state: " +:+ state,
                mkNode name ip transfer state)) data in
      (map fst loaded, map snd loaded)
  | None => (["Node state file not found: " +:+ json_filepath], [])
  end.

End NodeStates.

(** * Concrete environments and inputs *)

Module Examples.
Import Py World.

Definition newline : string := String "010"%char EmptyString.

(** The first word of a command line. *)
Definition program (argv : list string) : string :=
  match argv with
  | prog :: _ => prog
  | [] => EmptyString
  end.

(** What [ping] of iputils prints for a host that answers, with the
    given average. *)
Definition iputils_output (host avg : string) : string :=
  "PING " +:+ host +:+ " (" +:+ host +:+ ") 56(84) bytes of data." +:+ newline +:+
  "64 bytes from " +:+ host +:+ ": icmp_seq=1 ttl=64 time=" +:+ avg +:+ " ms" +:+ newline +:+
  newline +:+
  "--- " +:+ host +:+ " ping statistics ---" +:+ newline +:+
  "1 packets transmitted, 1 received, 0% packet loss, time 0ms" +:+ newline +:+
  "rtt min/avg/max/mdev = " +:+ avg +:+ "/" +:+ avg +:+ "/" +:+ avg +:+ "/0.000 ms" +:+ newline.

(** What [ping] of BusyBox prints for a host that answers. *)
Definition busybox_output (host : string) : string :=
  "PING " +:+ host +:+ " (" +:+ host +:+ "): 56 data bytes" +:+ newline +:+
  "64 bytes from " +:+ host +:+ ": seq=0 ttl=64 time=0.3 ms" +:+ newline +:+
  newline +:+
  "--- " +:+ host +:+ " ping statistics ---" +:+ newline +:+
  "1 packets transmitted, 1 packets received, 0% packet loss" +:+ newline +:+
  "round-trip min/avg/max = 0.2/0.3/0.4 ms" +:+ newline.

(** Every host answers pings (iputils, 0.256 ms); every copy fails with
    rsync's exit code 12; no heartbeat file exists. *)
Definition env_copy_fails : oracle :=
  mkOracle
    (fun _ argv =>
       if String.eqb (program argv) "ping"
       then (0, iputils_output (default EmptyString (last argv)) "0.256", EmptyString)
       else (12, EmptyString, "rsync: connection unexpectedly closed"))
    (fun _ => 1000%float)
    (fun _ _ => None)
    (fun _ => "2026-01-02T00:00:00")
    (fun keys => keys).

(** No host answers pings. *)
Definition env_all_down : oracle :=
  mkOracle
    (fun _ argv => (1, EmptyString, EmptyString))
    (fun _ => 1000%float)
    (fun _ _ => None)
    (fun _ => "2026-01-02T00:00:00")
    (fun keys => keys).

(** Every host answers pings, in BusyBox's format. *)
Definition env_busybox : oracle :=
  mkOracle
    (fun _ argv =>
       if String.eqb (program argv) "ping"
       then (0, busybox_output (default EmptyString (last argv)), EmptyString)
       else (0, EmptyString, EmptyString))
    (fun _ => 1000%float)
    (fun _ _ => None)
    (fun _ => "2026-01-02T00:00:00")
    (fun keys => keys).

(** The clock reads 1000 s; every heartbeat file was touched at 990 s;
    every host answers pings (iputils, 10.000 ms) and every copy succeeds. *)
Definition env_healthy : oracle :=
  mkOracle
    (fun _ argv =>
       if String.eqb (program argv) "ping"
       then (0, iputils_output (default EmptyString (last argv)) "10.000", EmptyString)
       else (0, EmptyString, EmptyString))
    (fun _ => 1000%float)
    (fun _ _ => Some 990%float)
    (fun _ => "2026-01-02T00:00:00")
    (fun keys => keys).

(** Heartbeats are fresh (clock 1000 s, files touched at 990 s) and every
    host answers pings, but every copy fails. *)
Definition env_fresh_copy_fails : oracle :=
  mkOracle (proc env_copy_fails) (fun _ => 1000%float) (fun _ _ => Some 990%float)
           (isotime env_copy_fails) (fun keys => keys).

(** One node and nothing else: every setting takes its default. *)
Definition config_defaults : TransferWithRetry.config :=
  TransferWithRetry.mkConfig None None None None None None None None None None
    (Some [("node1", mkInfo (Some "10.0.0.5") None)]).

(** The same with [max_cycles] set to 0. *)
Definition config_zero_cycles : TransferWithRetry.config :=
  TransferWithRetry.mkConfig None None None None None None None None (Some 0) None
    (Some [("node1", mkInfo (Some "10.0.0.5") None)]).


(** retry_delay = 5, backoff_factor = 2.0, max_retries = 4, one node. *)
Definition beam_config : Beam.config :=
  Beam.mkConfig "/home/pi/supervisor.log" "/home/pi/supervisor_data" "/home/pi/data"
                4 5 (Float 2%float)
                [("node1", mkInfo (Some "10.0.0.5") None)].

(** node1 is recorded offline since the first of January. *)
Definition state_offline : gmap string node_state :=
  {[ "node1" := mkState (Some false) (Some false) None (Some "2026-01-01T00:00:00") None ]}.



(** supervisor_state.json without any record. *)
Definition state_empty : gmap string node_state := ∅.

End Examples.

(** * Specifications of runs *)

Module Logic.
Import Py World.

(** [does c R]: from any world, [c] appends some events [l] to the trace
    and ends in an outcome [r] with [R l r]. *)
Definition does {A} (c : M A) (R : list event -> res A -> Prop) : Prop :=
  forall w, exists l, fst (c w) = w ++ l /\ R l (snd (c w)).

(** The events a run adds all satisfy [P], whatever its outcome. *)
Definition emits {A} (P : event -> Prop) (c : M A) : Prop :=
  does c (fun l _ => Forall P l).

(** [returns c Q]: when [c] ends normally with [a], having added the
    events [l], then [Q l a]. *)
Definition returns {A} (c : M A) (Q : list event -> A -> Prop) : Prop :=
  does c (fun l r => forall a, r = Ret a -> Q l a).

(** [hoare P Q c]: every event [c] adds satisfies [P], whatever the
    outcome, and a normal result satisfies [Q]. *)
Definition hoare {A} (P : event -> Prop) (Q : A -> Prop) (c : M A) : Prop :=
  does c (fun l r => Forall P l /\ forall a, r = Ret a -> Q a).

(** [completes c]: a run of [c] never stops for lack of fuel. *)
Definition completes {A} (c : M A) : Prop :=
  forall w, snd (c w) <> OutOfFuel.

(** An event that, when a log line, has one of the templates [ts]. *)
Definition logs_in (ts : list string) (e : event) : Prop :=
  match e with
  | EvLog t _ => In t ts
  | _ => True
  end.

(** An event that is no start of a process. *)
Definition no_run (e : event) : Prop :=
  match e with
  | EvRun _ _ => False
  | _ => True
  end.

End Logic.

(** * The trace of src/transfer_with_retry.py read back *)

Module Trace.
Import Py World.

(** The log lines of [rsync_data] and of [has_fresh_heartbeat]. *)
Definition engine_logs : list string :=
  ["Attempt {}/{} to sync data from {} ({})";
   "Successfully synced data from {}.";
   "Rsync failed for {} (code {}). stdout: {} stderr: {}";
   "Node {} ({}) unreachable (ping failed).";
   "Node {} ({}) reachable, avg latency {:.2f} ms.";
   "Retrying in {} seconds...";
   "Failed to sync data from {} after {} attempts."].

Definition gate_logs : list string :=
  ["{}: no heartbeat file found in {}.";
   "{}: heartbeat too old ({}s > {}s)."].

(** The log lines of the candidate loop of [main]. *)
Definition candidate_logs : list string :=
  gate_logs ++
  ["{}: skipping this cycle (no fresh heartbeat).";
   "{}: heartbeat present but ping failed. Skipping this cycle."].

(** The cycles begun: the number and the outstanding set each
    "--- Cycle" line reports. *)
Definition cycle_of (e : event) : option (Z * list string) :=
  match e with
  | EvLog t [AInt cycle; AInt _; ASorted remaining] =>
      if String.eqb t "--- Cycle {}/{} --- Remaining nodes: {}"
      then Some (cycle, remaining) else None
  | _ => None
  end.

Definition cycles_begun (w : world) : list (Z * list string) := omap cycle_of w.



(** The heartbeat of [name], read when [t] effects have been performed, is
    fresh: the marker is there and its age is not above [max_age]. *)
Definition fresh_at (env : oracle) (heartbeat_dir : string) (max_age : Z)
    (t : nat) (name : string) : bool :=
  match mtime env t (path_join heartbeat_dir (name +:+ ".alive")) with
  | Some mt => negb (float_gt_int (PrimFloat.sub (clock env t) mt) max_age)
  | None => false
  end.



(** The delays of a backoff: [n] of them, from [delay], each the
    product of the one before by [factor], truncated (the list ends early
    if a product is no number that [int] accepts). *)
Fixpoint backoff (n : nat) (delay : Z) (factor : float) : list Z :=
  match n with
  | O => []
  | S n' =>
      delay :: match int_mul delay (Float factor) with
               | Ret delay' => backoff n' delay' factor
               | _ => []
               end
  end.




End Trace.

(** * The run of src/queue_shipped_data.py read back *)

Module QueueSpec.
Import Py World.

(** [b] is the node [a] later in the run: the same name and address,
    and alive if [a] was. *)
Definition kept_alive (a b : Node) : Prop :=
  name b = name a /\ ip b = ip a /\ (state a = "alive" -> state b = "alive").

(** A snapshot written to node_states.json keeps alive the nodes that
    were alive in [nodes]. *)
Definition dump_ok (nodes : list Node) (e : event) : Prop :=
  match e with
  | EvDump _ (SnapNodes snap) => Forall2 kept_alive nodes snap
  | _ => True
  end.

(** The command line of the probe of [ip]. *)
Definition ping_argv (ip : string) : list string := ["ping"; "-c"; "3"; "-W"; "1"; ip].

(** A process started is the probe of a node of [nodes] that is not
    alive. *)
Definition probes_dead (nodes : list Node) (e : event) : Prop :=
  match e with
  | EvRun argv _ => exists node, In node nodes /\ state node <> "alive" /\ argv = ping_argv (ip node)
  | _ => True
  end.

(** The command line of the copy from [ip]. *)
Definition rsync_argv (ip : string) : list string :=
  ["rsync"; "-avz"; "--partial"; "--ignore-existing";
   "pi@" +:+ ip +:+ ":" +:+ QueueShippedData.REMOTE_SHIP_DIR +:+ "/";
   QueueShippedData.SUPERVISOR_DATA_ROOT].

(** [b] is the node [a] after the events [l]: its flag, if set, is still
    set unless [l] holds a copy from it that exited with 0. *)
Definition flag_kept (l : list event) (a b : Node) : Prop :=
  name b = name a /\ ip b = ip a /\
  (transfer_fail a = true -> transfer_fail b = true \/ In (EvRun (rsync_argv (ip a)) 0) l).

End QueueSpec.

(** * The runs of the BEAM supervisor package read back *)

Module BeamSpec.
Import Py World.

(** [state[name]["fail_to_request_data"]], when it is there. *)
Definition flag (state : gmap string node_state) (name : string) : option bool :=
  match state !! name with
  | Some r => fail_to_request_data r
  | None => None
  end.

(** The events [l] hold a copy from the node [name] that exited with 0. *)
Definition copied (config : Beam.config) (name : string) (l : list event) : Prop :=
  exists ip, In (EvRun (Beam.rsync_cmd ip name config) 0) l.

(** From [state] to [state'] through the events [l], a flag that was set
    is still set unless [l] holds a successful copy from its node. *)
Definition flags_kept (config : Beam.config) (state : gmap string node_state)
    (l : list event) (state' : gmap string node_state) : Prop :=
  forall name, flag state name = Some true ->
               flag state' name = Some true \/ copied config name l.

End BeamSpec.

(** * The calls of the transfer engines read back *)

Module EngineSpec.
Import Py World.

(** The exit codes of the runs of the command [cmd], in order. *)
Definition exits (cmd : list string) (w : world) : list Z :=
  omap (fun e => match e with
                 | EvRun argv rc => if bool_decide (argv = cmd) then Some rc else None
                 | _ => None
                 end) w.

(** An event that is neither a sleep nor a run of [cmd]. *)
Definition aside (cmd : list string) (e : event) : Prop :=
  match e with
  | EvSleep _ => False
  | EvRun argv _ => argv <> cmd
  | _ => True
  end.

(** What the loop of [rsync_data] of src/transfer_with_retry.py did from
    the attempt [attempt] on, with the delay [delay], when it returned
    [b]: the exit codes [codes] of its copies are those of failures,
    ended by a 0 exactly when [b] is [True]; a failure is followed by a
    sleep unless it is that of the last attempt. *)
Definition attempts_spec (max_retries : Z) (bf : float) (attempt delay : Z)
    (codes sl : list Z) (b : bool) : Prop :=
  exists fails,
    Forall (fun rc => rc <> 0) fails /\
    codes = fails ++ (if b then [0] else []) /\
    (if b then attempt + Z.of_nat (length fails) <= max_retries
     else length fails = Z.to_nat (max_retries + 1 - attempt)) /\
    sl = Trace.backoff (if b then length fails else pred (length fails)) delay bf.

(** The same after a failed attempt: the sleep taken, if any, and the
    attempts that follow. *)
Definition retry_spec (max_retries : Z) (bf : float) (attempt delay : Z)
    (codes sl : list Z) (b : bool) : Prop :=
  exists d n,
    attempts_spec max_retries bf (attempt + 1) d codes (skipn n sl) b /\
    (if attempt <? max_retries
     then n = 1%nat /\ firstn 1 sl = [delay] /\ int_mul delay (Float bf) = Ret d
     else n = O).

(** The delays of a backoff whose factor is a JSON number: [n] of them,
    from [delay], each the product of the one before by [factor],
    truncated. *)
Fixpoint backoff (n : nat) (delay : Z) (factor : num) : list Z :=
  match n with
  | O => []
  | S n' =>
      delay :: match int_mul delay factor with
               | Ret delay' => backoff n' delay' factor
               | _ => []
               end
  end.

(** What a call of a transfer engine of the BEAM package that makes at
    most [n] attempts did, when it returned [b]: the exit codes [codes]
    of its copies are those of failures, ended by a 0 exactly when [b] is
    [True]; every failure is followed by a sleep. *)
Definition beam_spec (n : nat) (factor : num) (delay : Z)
    (codes sl : list Z) (b : bool) : Prop :=
  exists fails,
    Forall (fun rc => rc <> 0) fails /\
    codes = fails ++ (if b then [0] else []) /\
    (if b then (length fails < n)%nat else length fails = n) /\
    sl = backoff (length fails) delay factor.

End EngineSpec.

(** * A whole run of src/transfer_with_retry.py read back *)

Module RunSpec.
Import Py World.

(** The command line of the copy from [hostname] at [ip]. *)
Definition copy_cmd (ip hostname supervisor_data_dir remote_data_path : string) : list string :=
  ["rsync"; "-avz"; "--partial"; "--timeout=20";
   "pi@" +:+ ip +:+ ":" +:+ remote_data_path +:+ "/";
   path_join supervisor_data_dir hostname].

(** The events [l] hold a copy from the node [name] that exited with 0. *)
Definition synced (nodes_cfg : list (string * node_info))
    (supervisor_data_dir remote_data_path : string) (name : string) (l : list event) : Prop :=
  exists ip, TransferWithRetry.node_ip nodes_cfg name = Ret ip /\
             In (EvRun (copy_cmd ip name supervisor_data_dir remote_data_path) 0) l.

(** The events [l] hold the final report of a run that gave up on [name]. *)
Definition given_up (name : string) (l : list event) : Prop :=
  exists remaining, In name remaining /\
                    In (EvLog "FINAL: gave up on nodes: {}" [ASorted remaining]) l.

(** The nodes of [remaining] are still in [remaining'], or were synced
    by the events [l]. *)
Definition accounted (nodes_cfg : list (string * node_info))
    (supervisor_data_dir remote_data_path : string)
    (remaining : list string) (l : list event) (remaining' : list string) : Prop :=
  forall n, In n remaining ->
            In n remaining' \/ synced nodes_cfg supervisor_data_dir remote_data_path n l.

(** A process started is a ping of, or a copy from, a node of
    [remaining] whose heartbeat was fresh at a time it was read. *)
Definition targets_fresh (env : oracle) (nodes_cfg : list (string * node_info))
    (supervisor_data_dir remote_data_path heartbeat_dir : string) (heartbeat_max_age : Z)
    (remaining : list string) (e : event) : Prop :=
  match e with
  | EvRun argv _ =>
      exists name ip t,
        In name remaining /\
        TransferWithRetry.node_ip nodes_cfg name = Ret ip /\
        Trace.fresh_at env heartbeat_dir heartbeat_max_age t name = true /\
        (argv = ["ping"; "-c"; "3"; "-W"; "1"; ip] \/
         argv = copy_cmd ip name supervisor_data_dir remote_data_path)
  | _ => True
  end.

End RunSpec.

(** * The passes of src/queue_shipped_data.py read back *)

Module PassSpec.
Import Py World QueueSpec.

(** [b] is the node [a] after the classification that added the events
    [l]: the same node, now alive or dead, and alive only if [l] holds a
    ping of its address that exited with 0. *)
Definition classified (l : list event) (a b : Node) : Prop :=
  name b = name a /\ ip b = ip a /\ transfer_fail b = transfer_fail a /\
  (state b = "alive" /\ In (EvRun (ping_argv (ip a)) 0) l \/ state b = "dead").

(** A process started is a ping of a node of [nodes], or a copy from a
    node of [nodes] whose flag [transfer_fail] is [flagged]. *)
Definition copies_only (flagged : bool) (nodes : list Node) (e : event) : Prop :=
  match e with
  | EvRun argv _ =>
      exists node, In node nodes /\
                   (argv = ping_argv (ip node) \/
                    transfer_fail node = flagged /\ argv = rsync_argv (ip node))
  | _ => True
  end.

(** [b] is the node [a] later in the run, and its flag is [flagged] if
    that of [a] was. *)
Definition flag_stays (flagged : bool) (a b : Node) : Prop :=
  name b = name a /\ ip b = ip a /\
  (transfer_fail a = flagged -> transfer_fail b = flagged).

(** [b] is the node [a] later in the run, with the flag of [a]. *)
Definition same_flag (a b : Node) : Prop := flag_stays true a b /\ flag_stays false a b.

End PassSpec.

(** * The records of supervisor_state.json through a run *)

Module RecordSpec.
Import Py World.

(** Every record of [s'] is that of [s] for the same node, changed
    within [R]; no node is added or dropped. *)
Definition related (R : node_state -> node_state -> Prop)
    (s s' : gmap string node_state) : Prop :=
  forall name, option_Forall2 R (s !! name) (s' !! name).

(** What the daily run may do to a record: [last_online_time] is kept,
    and [node_alive] is kept or becomes [False]. *)
Definition daily_keeps (r r' : node_state) : Prop :=
  last_online_time r' = last_online_time r /\
  (node_alive r' = node_alive r \/ node_alive r' = Some false).

(** What the health check may do to a record: [last_fail_time] is kept,
    and [fail_to_request_data] is kept or becomes [False]. *)
Definition check_keeps (r r' : node_state) : Prop :=
  last_fail_time r' = last_fail_time r /\
  (fail_to_request_data r' = fail_to_request_data r \/ fail_to_request_data r' = Some false).

(** What the daily run records for the node [name], whose record was
    [r], after the events [l] of its transfer: the flag is cleared when
    [l] holds a run of [cmd] that exited with 0; when every run of [cmd]
    in [l] failed the flag is set and [last_fail_time] is stamped. Every
    other record of [state] is as it was. *)
Definition recorded (env : oracle) (cmd : list string) (name : string) (r : node_state)
    (state : gmap string node_state) (l : list event) (state' : gmap string node_state) : Prop :=
  (In 0 (EngineSpec.exits cmd l) /\
   state' = <[name := Beam.set_fail_to_request_data false r]> state) \/
  (Forall (fun rc => rc <> 0) (EngineSpec.exits cmd l) /\
   exists t, state' = <[name := Beam.set_last_fail_time (isotime env t)
                                  (Beam.set_fail_to_request_data true r)]> state).

(** A run that ends normally with a result in [Q], or by an exception
    in [E]. *)
Definition ends {A} (E : exn -> Prop) (Q : A -> Prop) (c : M A) : Prop :=
  Logic.does c (fun _ r => match r with
                           | Ret a => Q a
                           | Raise e => E e
                           | OutOfFuel => False
                           end).

(** The exceptions of a sleep and of a backoff step: the delay is
    negative, too large, or no number. *)
Definition bad_delay (e : exn) : Prop := e = ValueError \/ e = OverflowError.

(** An event that writes no file. *)
Definition no_dump (e : event) : Prop :=
  match e with
  | EvDump _ _ => False
  | _ => True
  end.

(** An event of a health check that has nothing to catch up: a ping, a
    log line or the state file written; no copy, no directory made and no
    sleep. *)
Definition idle (e : event) : Prop :=
  match e with
  | EvRun argv _ => exists ip, argv = ["ping"; "-c"; "1"; "-W"; "1"; ip]
  | EvSleep _ | EvMakedirs _ => False
  | _ => True
  end.

(** A run that ends by an exception and has written no file. *)
Definition aborts {A} (c : M A) : Prop :=
  Logic.does c (fun l r => (exists e, r = Raise e) /\ Forall no_dump l).

(** A run that writes no file (and is not cut by the loop bound of the
    model). *)
Definition writes_nothing {A} (c : M A) : Prop :=
  Logic.does c (fun l r => Forall no_dump l /\ r <> OutOfFuel).

End RecordSpec.

(** * The run of src/node_heartbeat.py read back *)

Module HeartbeatSpec.
Import Py World.

(** The command line of the ping of the supervisor. *)
Definition ping_cmd (host : string) (timeout : Z) : list string :=
  ["ping"; "-c"; "1"; "-W"; pretty timeout; host].

(** The command line that touches the marker [path] of a node on the
    supervisor, after making sure of [heartbeat_dir]. *)
Definition touch_cmd (user host heartbeat_dir path : string) : list string :=
  ["ssh"; user +:+ "@" +:+ host; "mkdir -p " +:+ heartbeat_dir +:+ " && touch " +:+ path].

(** The last character of a string, if it has one. *)
Fixpoint last_char (s : string) : option ascii :=
  match s with
  | EmptyString => None
  | String c EmptyString => Some c
  | String _ s' => last_char s'
  end.

(** The processes of one iteration: a ping that fails, alone; or a ping
    that exits with 0 and then the ssh [touch]. *)
Definition beat_runs (ping touch : list string) (it : list (list string * Z)) : Prop :=
  (exists rc, rc <> 0 /\ it = [(ping, rc)]) \/ (exists rc, it = [(ping, 0); (touch, rc)]).

End HeartbeatSpec.

(** * Properties *)

(** ** Rules for runs *)

Module Rules.
Import Py World Logic.
Local Open Scope py_scope.

Lemma does_mono {A} (c : M A) (R R' : list event -> res A -> Prop) :
  does c R -> (forall l r, R l r -> R' l r) -> does c R'.
Proof.
  intros Hc Hi w. destruct (Hc w) as (l & Hl & HR). exists l. auto.
Qed.

Lemma does_ret {A} (a : A) (R : list event -> res A -> Prop) :
  R [] (Ret a) -> does (ret a) R.
Proof. intros H w. exists []. simpl. rewrite app_nil_r. auto. Qed.

Lemma does_raise {A} (e : exn) (R : list event -> res A -> Prop) :
  R [] (Raise e) -> does (raise e) R.
Proof. intros H w. exists []. simpl. rewrite app_nil_r. auto. Qed.

Lemma does_lift {A} (r : res A) (R : list event -> res A -> Prop) :
  R [] r -> does (lift r) R.
Proof. intros H w. exists []. simpl. rewrite app_nil_r. auto. Qed.

Lemma does_emit (e : event) (R : list event -> res unit -> Prop) :
  R [e] (Ret tt) -> does (emit e) R.
Proof. intros H w. exists [e]. simpl. auto. Qed.

Lemma does_bind {A B} (c : M A) (k : A -> M B)
    (R1 : list event -> res A -> Prop) (R : list event -> res B -> Prop) :
  does c R1 ->
  (forall l1 a, R1 l1 (Ret a) -> does (k a) (fun l2 r => R (l1 ++ l2) r)) ->
  (forall l1 e, R1 l1 (Raise e) -> R l1 (Raise e)) ->
  (forall l1, R1 l1 OutOfFuel -> R l1 OutOfFuel) ->
  does (bind c k) R.
Proof.
  intros Hc Hk He Hf w. unfold bind.
  destruct (Hc w) as (l1 & Hl1 & HR1).
  destruct (c w) as [w1 [a | e |]]; simpl in *; subst w1.
  - destruct (Hk l1 a HR1 (w ++ l1)) as (l2 & Hl2 & HR2).
    exists (l1 ++ l2). rewrite Hl2, app_assoc. auto.
  - exists l1. auto.
  - exists l1. auto.
Qed.

Lemma does_try_except {A} (c : M A) (handler : exn -> option (M A))
    (R1 R : list event -> res A -> Prop) :
  does c R1 ->
  (forall l1 a, R1 l1 (Ret a) -> R l1 (Ret a)) ->
  (forall l1, R1 l1 OutOfFuel -> R l1 OutOfFuel) ->
  (forall l1 e, R1 l1 (Raise e) ->
     match handler e with
     | Some h => does h (fun l2 r => R (l1 ++ l2) r)
     | None => R l1 (Raise e)
     end) ->
  does (try_except c handler) R.
Proof.
  intros Hc Hr Hf He w. unfold try_except.
  destruct (Hc w) as (l1 & Hl1 & HR1).
  destruct (c w) as [w1 [a | e |]]; simpl in *; subst w1.
  - exists l1. auto.
  - specialize (He l1 e HR1). destruct (handler e) as [h |].
    + destruct (He (w ++ l1)) as (l2 & Hl2 & HR2).
      exists (l1 ++ l2). rewrite Hl2, app_assoc. auto.
    + exists l1. auto.
  - exists l1. auto.
Qed.

(** The outcome of a run, with the events it added. *)
Lemma does_run {A} (c : M A) (R : list event -> res A -> Prop) (w w' : world) (r : res A) :
  does c R -> c w = (w', r) -> exists l, w' = w ++ l /\ R l r.
Proof.
  intros Hc Hrun. destruct (Hc w) as (l & Hl & HR).
  rewrite Hrun in *. simpl in *. eauto.
Qed.

Section Primitives.
Variable env : oracle.

Lemma does_subprocess_run (argv : list string) (R : list event -> res completed -> Prop) :
    (forall t, let '(rc, out, err) := proc env t argv in
               R [EvRun argv rc] (Ret (mkCompleted rc out err))) ->
    does (subprocess_run env argv) R.
  Proof.
    intros H w. unfold subprocess_run. specialize (H (length w)).
    destruct (proc env (length w) argv) as [[rc out] err].
    exists [EvRun argv rc]. simpl. auto.
  Qed.

Lemma does_time_sleep (secs : Z) (R : list event -> res unit -> Prop) :
    (0 <= secs <= sleep_max -> R [EvSleep secs] (Ret tt)) ->
    (secs < 0 -> R [] (Raise ValueError)) ->
    (sleep_max < secs -> R [] (Raise OverflowError)) ->
    does (time_sleep secs) R.
  Proof.
    intros Hok Hneg Hbig. unfold time_sleep.
    destruct (Z.ltb_spec secs 0); [apply does_raise; auto |].
    destruct (Z.ltb_spec sleep_max secs); [apply does_raise; auto |].
    apply does_emit. apply Hok. lia.
  Qed.

Lemma does_datetime_now (R : list event -> res string -> Prop) :
    (forall t, R [] (Ret (isotime env t))) -> does (datetime_now_isoformat env) R.
  Proof. intros H w. exists []. simpl. rewrite app_nil_r. auto. Qed.
End Primitives.

Lemma emits_ret {A} P (a : A) : emits P (ret a).
Proof. apply does_ret. constructor. Qed.

Lemma emits_raise {A} P (e : exn) : emits (A := A) P (raise e).
Proof. apply does_raise. constructor. Qed.

Lemma emits_lift {A} P (r : res A) : emits P (lift r).
Proof. apply does_lift. constructor. Qed.

Lemma emits_emit P (e : event) : P e -> emits P (emit e).
Proof. intros. apply does_emit. repeat constructor. auto. Qed.

Lemma emits_bind {A B} P (c : M A) (k : A -> M B) :
  emits P c -> (forall a, emits P (k a)) -> emits P (bind c k).
Proof.
  intros Hc Hk. eapply does_bind; [exact Hc | | auto | auto].
  intros l1 a Hl1. eapply does_mono; [apply Hk |].
  simpl. intros. apply Forall_app. auto.
Qed.

Lemma emits_try_except {A} P (c : M A) (handler : exn -> option (M A)) :
  emits P c -> (forall e h, handler e = Some h -> emits P h) ->
  emits P (try_except c handler).
Proof.
  intros Hc Hh. eapply does_try_except; [exact Hc | auto | auto |].
  intros l1 e Hl1. destruct (handler e) as [h |] eqn:E; [| auto].
  eapply does_mono; [eapply Hh; eauto |]. simpl. intros. apply Forall_app. auto.
Qed.

Lemma emits_and_then P (a : bool) (b : M bool) : emits P b -> emits P (and_then a b).
Proof. intros. destruct a; simpl; [auto | apply emits_ret]. Qed.

Lemma emits_subprocess_run env P (argv : list string) :
  (forall rc, P (EvRun argv rc)) -> emits P (subprocess_run env argv).
Proof.
  intros H. apply does_subprocess_run. intros t.
  destruct (proc env t argv) as [[rc out] err]. repeat constructor. auto.
Qed.

Lemma emits_check_output env P (argv : list string) :
  (forall rc, P (EvRun argv rc)) -> emits P (subprocess_check_output env argv).
Proof.
  intros H. unfold subprocess_check_output. apply emits_bind.
  - apply emits_subprocess_run. auto.
  - intros r. destruct (returncode r =? 0); [apply emits_ret | apply emits_raise].
Qed.

Lemma emits_time_sleep P (secs : Z) : P (EvSleep secs) -> emits P (time_sleep secs).
Proof. intros H. apply does_time_sleep; intros; repeat constructor; auto. Qed.

Lemma emits_weaken {A} (P P' : event -> Prop) (c : M A) :
  emits P c -> (forall e, P e -> P' e) -> emits P' c.
Proof.
  intros Hc Hi. eapply does_mono; [exact Hc |]. simpl. intros l _ Hl.
  eapply Forall_impl; eauto.
Qed.

Lemma emits_pure {A} P (c : M A) : (forall w, fst (c w) = w) -> emits P c.
Proof. intros H w. exists []. rewrite H, app_nil_r. split; [reflexivity | constructor]. Qed.

Lemma emits_time_time env P : emits P (time_time env).
Proof. apply emits_pure. reflexivity. Qed.

Lemma emits_os_path_exists env P path : emits P (os_path_exists env path).
Proof. apply emits_pure. reflexivity. Qed.

Lemma emits_os_path_getmtime env P path : emits P (os_path_getmtime env path).
Proof.
  apply emits_pure. intros w. unfold os_path_getmtime.
  destruct (mtime env (length w) path); reflexivity.
Qed.

Lemma emits_datetime_now env P : emits P (datetime_now_isoformat env).
Proof. apply emits_pure. reflexivity. Qed.

(** *** Rules for [returns] *)

Lemma returns_mono {A} (c : M A) (Q Q' : list event -> A -> Prop) :
  returns c Q -> (forall l a, Q l a -> Q' l a) -> returns c Q'.
Proof. intros Hc Hi. eapply does_mono; [exact Hc |]. simpl. auto. Qed.

Lemma returns_ret {A} (a : A) (Q : list event -> A -> Prop) :
  Q [] a -> returns (ret a) Q.
Proof. intros H. apply does_ret. intros a' [= <-]. exact H. Qed.

Lemma returns_raise {A} (e : exn) (Q : list event -> A -> Prop) : returns (raise e) Q.
Proof. apply does_raise. discriminate. Qed.

Lemma returns_lift {A} (r : res A) (Q : list event -> A -> Prop) :
  (forall a, r = Ret a -> Q [] a) -> returns (lift r) Q.
Proof. intros H. apply does_lift. exact H. Qed.

Lemma returns_emit (e : event) (Q : list event -> unit -> Prop) :
  Q [e] tt -> returns (emit e) Q.
Proof. intros H. apply does_emit. intros [] _. exact H. Qed.

Lemma returns_bind {A B} (c : M A) (k : A -> M B)
    (Q1 : list event -> A -> Prop) (Q : list event -> B -> Prop) :
  returns c Q1 ->
  (forall l1 a, Q1 l1 a -> returns (k a) (fun l2 b => Q (l1 ++ l2) b)) ->
  returns (bind c k) Q.
Proof.
  intros Hc Hk. eapply does_bind; [exact Hc | | discriminate | discriminate].
  intros l1 a H. apply Hk. apply H. reflexivity.
Qed.

Lemma returns_run {A} (c : M A) (Q : list event -> A -> Prop) (w w' : world) (a : A) :
  returns c Q -> c w = (w', Ret a) -> exists l, w' = w ++ l /\ Q l a.
Proof.
  intros Hc Hrun. destruct (does_run c _ w w' (Ret a) Hc Hrun) as (l & Hl & HQ). eauto.
Qed.

(** *** Rules for [hoare] *)

Lemma hoare_weaken {A} (P P' : event -> Prop) (Q Q' : A -> Prop) (c : M A) :
  hoare P Q c -> (forall e, P e -> P' e) -> (forall a, Q a -> Q' a) -> hoare P' Q' c.
Proof.
  intros Hc HP HQ. eapply does_mono; [exact Hc |]. simpl. intros l r [Hl Hr].
  split; [eapply Forall_impl; eauto | auto].
Qed.

Lemma hoare_ret {A} (P : event -> Prop) (Q : A -> Prop) (a : A) : Q a -> hoare P Q (ret a).
Proof. intros H. apply does_ret. split; [constructor | intros a' [= <-]; exact H]. Qed.

Lemma hoare_raise {A} (P : event -> Prop) (Q : A -> Prop) (e : exn) : hoare P Q (raise e).
Proof. apply does_raise. split; [constructor | discriminate]. Qed.

Lemma hoare_lift {A} (P : event -> Prop) (Q : A -> Prop) (r : res A) :
  (forall a, r = Ret a -> Q a) -> hoare P Q (lift r).
Proof. intros H. apply does_lift. split; [constructor | exact H]. Qed.

Lemma hoare_emit (P : event -> Prop) (Q : unit -> Prop) (e : event) :
  P e -> Q tt -> hoare P Q (emit e).
Proof. intros HP HQ. apply does_emit. split; [repeat constructor; exact HP | intros [] _; exact HQ]. Qed.

Lemma hoare_bind {A B} (P : event -> Prop) (Q1 : A -> Prop) (Q : B -> Prop)
    (c : M A) (k : A -> M B) :
  hoare P Q1 c -> (forall a, Q1 a -> hoare P Q (k a)) -> hoare P Q (bind c k).
Proof.
  intros Hc Hk. eapply does_bind; [exact Hc | | |].
  - intros l1 a [Hl1 Ha]. eapply does_mono; [apply Hk; auto |].
    simpl. intros l2 r [Hl2 Hr]. split; [apply Forall_app; auto | exact Hr].
  - intros l1 e [Hl1 _]. split; [exact Hl1 | discriminate].
  - intros l1 [Hl1 _]. split; [exact Hl1 | discriminate].
Qed.

Lemma hoare_emits {A} (P : event -> Prop) (c : M A) : emits P c -> hoare P (fun _ => True) c.
Proof. intros Hc. eapply does_mono; [exact Hc |]. simpl. auto. Qed.

Lemma hoare_try_except {A} (P : event -> Prop) (Q : A -> Prop) (c : M A)
    (handler : exn -> option (M A)) :
  hoare P Q c -> (forall e h, handler e = Some h -> hoare P Q h) ->
  hoare P Q (try_except c handler).
Proof.
  intros Hc Hh. eapply does_try_except; [exact Hc | | |].
  - intros l1 a H. exact H.
  - intros l1 [Hl1 _]. split; [exact Hl1 | discriminate].
  - intros l1 e [Hl1 _]. destruct (handler e) as [h |] eqn:E.
    + eapply does_mono; [eapply Hh; eauto |]. simpl. intros l2 r [Hl2 Hr].
      split; [apply Forall_app; auto | exact Hr].
    + split; [exact Hl1 | discriminate].
Qed.

Lemma returns_of_emits {A} (P : event -> Prop) (c : M A) :
  emits P c -> returns c (fun l _ => Forall P l).
Proof. intros H. eapply does_mono; [exact H |]. simpl. auto. Qed.

(** A step whose events and result do not matter. *)
Lemma returns_skip {A B} (c : M A) (k : A -> M B) (Q : list event -> B -> Prop) :
  emits (fun _ => True) c ->
  (forall a, returns (k a) (fun l2 b => forall l1, Q (l1 ++ l2) b)) ->
  returns (bind c k) Q.
Proof.
  intros Hc Hk. eapply returns_bind; [apply returns_of_emits; exact Hc |].
  intros l1 a _. eapply returns_mono; [apply Hk |]. simpl. auto.
Qed.


Lemma returns_try_except {A} (c : M A) (handler : exn -> option (M A))
    (Q : list event -> A -> Prop) :
  returns c Q ->
  (forall e h, handler e = Some h -> returns h (fun l2 a => forall l1, Q (l1 ++ l2) a)) ->
  returns (try_except c handler) Q.
Proof.
  intros Hc Hh. eapply does_try_except; [exact Hc | auto | discriminate |].
  intros l1 e _. destruct (handler e) as [h |] eqn:E; [| discriminate].
  eapply does_mono; [eapply Hh; eauto |]. simpl. auto.
Qed.

Lemma returns_check_output env (argv : list string) :
  returns (subprocess_check_output env argv) (fun l _ => l = [EvRun argv 0]).
Proof.
  unfold subprocess_check_output.
  eapply returns_bind with (Q1 := fun l r => l = [EvRun argv (returncode r)]).
  - apply does_subprocess_run. intros t. destruct (proc env t argv) as [[rc out] err].
    intros a [= <-]. reflexivity.
  - intros l1 r ->. destruct (Z.eqb_spec (returncode r) 0) as [E | E].
    + apply returns_ret. rewrite E. reflexivity.
    + apply returns_raise.
Qed.

(** Membership in a concatenation, from the hypotheses. *)
Ltac in_app :=
  repeat match goal with
         | H : ?b = true -> _, Hb : ?b = true |- _ => specialize (H Hb)
         end;
  rewrite ?in_app_iff; simpl; tauto.


(** *** Rules for [completes] *)

Lemma completes_ret {A} (a : A) : completes (ret a).
Proof. intros w. discriminate. Qed.

Lemma completes_raise {A} (e : exn) : completes (A := A) (raise e).
Proof. intros w. discriminate. Qed.

Lemma completes_lift {A} (r : res A) : r <> OutOfFuel -> completes (lift r).
Proof. intros H w. exact H. Qed.

Lemma completes_emit (e : event) : completes (emit e).
Proof. intros w. discriminate. Qed.

Lemma completes_bind {A B} (c : M A) (k : A -> M B) :
  completes c -> (forall a, completes (k a)) -> completes (bind c k).
Proof.
  intros Hc Hk w. unfold bind. specialize (Hc w).
  destruct (c w) as [w1 [a | e |]]; simpl in *; [apply Hk | discriminate | contradiction].
Qed.

Lemma completes_subprocess_run env (argv : list string) : completes (subprocess_run env argv).
Proof. intros w. unfold subprocess_run. destruct (proc env (length w) argv) as [[? ?] ?]. discriminate. Qed.

Lemma completes_time_sleep (secs : Z) : completes (time_sleep secs).
Proof.
  unfold time_sleep. destruct (secs <? 0); [apply completes_raise |].
  destruct (sleep_max <? secs); [apply completes_raise | apply completes_emit].
Qed.

Lemma completes_os_path_getmtime env (path : string) : completes (os_path_getmtime env path).
Proof. intros w. unfold os_path_getmtime. destruct (mtime env (length w) path); discriminate. Qed.

(** One syntax-directed step of a proof of [completes]. *)
Ltac completes_step :=
  lazymatch goal with
  | |- completes (bind _ _) => apply completes_bind; [| intros ?]
  | |- completes (ret _) => apply completes_ret
  | |- completes (raise _) => apply completes_raise
  | |- completes (emit _) => apply completes_emit
  | |- completes (os_makedirs _) => apply completes_emit
  | |- completes (json_dump _ _) => apply completes_emit
  | |- completes (time_sleep _) => apply completes_time_sleep
  | |- completes (subprocess_run _ _) => apply completes_subprocess_run
  | |- completes (time_time _) => intros ?; discriminate
  | |- completes (os_path_exists _ _) => intros ?; discriminate
  | |- completes (os_path_getmtime _ _) => apply completes_os_path_getmtime
  | |- completes (if ?b then _ else _) => destruct b
  | |- completes (match ?x with _ => _ end) => destruct x
  end.

(** One syntax-directed step of a proof of [emits]. *)
Ltac emits_step :=
  lazymatch goal with
  | |- emits _ (bind _ _) => apply emits_bind; [| intros ?]
  | |- emits _ (ret _) => apply emits_ret
  | |- emits _ (raise _) => apply emits_raise
  | |- emits _ (lift _) => apply emits_lift
  | |- emits _ (emit _) => apply emits_emit
  | |- emits _ (os_makedirs _) => apply emits_emit
  | |- emits _ (json_dump _ _) => apply emits_emit
  | |- emits _ (and_then _ _) => apply emits_and_then
  | |- emits _ (time_sleep _) => apply emits_time_sleep
  | |- emits _ (subprocess_run _ _) => apply emits_subprocess_run; intros ?
  | |- emits _ (subprocess_check_output _ _) => apply emits_check_output; intros ?
  | |- emits _ (time_time _) => apply emits_time_time
  | |- emits _ (os_path_exists _ _) => apply emits_os_path_exists
  | |- emits _ (os_path_getmtime _ _) => apply emits_os_path_getmtime
  | |- emits _ (datetime_now_isoformat _) => apply emits_datetime_now
  | |- emits _ (if ?b then _ else _) => destruct b
  | |- emits _ (match ?x with _ => _ end) => destruct x
  end.

(** The side conditions left: membership of a template, or nothing. *)
Ltac emits_side := simpl; try tauto; auto 10.

End Rules.


(** ** The order of floats *)

Module FloatOrder.
Import Py.

Lemma SFcompare_swap (x y : spec_float) :
  SFcompare y x = option_map CompOpp (SFcompare x y).
Proof.
  destruct x as [sx | sx | | sx mx ex], y as [sy | sy | | sy my ey]; simpl;
    try reflexivity; try (destruct sx; reflexivity); try (destruct sy; reflexivity);
    try (destruct sx, sy; reflexivity).
  change (Pos.compare_cont Eq my mx) with (Pos.compare my mx).
  change (Pos.compare_cont Eq mx my) with (Pos.compare mx my).
  rewrite (Z.compare_antisym ex ey), (Pos.compare_antisym mx my).
  destruct sx, sy; simpl; try reflexivity;
    destruct (ex ?= ey); simpl; try reflexivity; destruct (mx ?= my)%positive; reflexivity.
Qed.







Lemma eqb_sym (x y : float) : PrimFloat.eqb x y = PrimFloat.eqb y x.
Proof.
  rewrite !FloatAxioms.eqb_spec. unfold SFeqb. rewrite (SFcompare_swap (Prim2SF x) (Prim2SF y)).
  destruct (SFcompare (Prim2SF x) (Prim2SF y)) as [[] |]; reflexivity.
Qed.

(** [x == y] lets [y] stand for [x] on either side of [<]. *)
Lemma SFeqb_ltb_l (x y z : spec_float) :
  SFeqb x y = true -> SFltb x z = SFltb y z.
Proof.
  unfold SFeqb, SFltb.
  destruct x as [sx | sx | | sx mx ex], y as [sy | sy | | sy my ey], z as [sz | sz | | sz mz ez];
    simpl; try discriminate; try reflexivity;
    try (destruct sx; simpl; try discriminate; try reflexivity);
    try (destruct sy; simpl; try discriminate; try reflexivity);
    try (destruct sz; simpl; try discriminate; try reflexivity).
  all: change (Pos.compare_cont Eq) with Pos.compare.
  all: destruct (Z.compare_spec ex ey); try discriminate; subst;
       destruct (Pos.compare_spec mx my); try discriminate; subst; reflexivity.
Qed.

Lemma eqb_ltb_l (x y z : float) :
  PrimFloat.eqb x y = true -> PrimFloat.ltb x z = PrimFloat.ltb y z.
Proof. rewrite FloatAxioms.eqb_spec, !FloatAxioms.ltb_spec. apply SFeqb_ltb_l. Qed.

Lemma SFeqb_ltb_r (x y z : spec_float) :
  SFeqb x y = true -> SFltb z x = SFltb z y.
Proof.
  unfold SFeqb, SFltb.
  destruct x as [sx | sx | | sx mx ex], y as [sy | sy | | sy my ey], z as [sz | sz | | sz mz ez];
    simpl; try discriminate; try reflexivity;
    try (destruct sx; simpl; try discriminate; try reflexivity);
    try (destruct sy; simpl; try discriminate; try reflexivity);
    try (destruct sz; simpl; try discriminate; try reflexivity).
  all: change (Pos.compare_cont Eq) with Pos.compare.
  all: destruct (Z.compare_spec ex ey); try discriminate; subst;
       destruct (Pos.compare_spec mx my); try discriminate; subst; reflexivity.
Qed.

Lemma eqb_ltb_r (x y z : float) :
  PrimFloat.eqb x y = true -> PrimFloat.ltb z x = PrimFloat.ltb z y.
Proof. rewrite FloatAxioms.eqb_spec, !FloatAxioms.ltb_spec. apply SFeqb_ltb_r. Qed.


End FloatOrder.

(** ** Python builtins *)

Module PyFacts.
Import Py.

(** [l[i]] raises nothing but [IndexError]. *)
Lemma index_outcome {A} (l : list A) (i : Z) :
  match index l i with
  | Ret _ => True
  | Raise e => e = IndexError
  | OutOfFuel => False
  end.
Proof.
  unfold index.
  cbv zeta. destruct (_ || _); [reflexivity |].
  destruct (nth_error l _); [exact I | reflexivity].
Qed.

(** [float(s)] raises nothing but [ValueError]. *)
Lemma float_of_string_outcome (s : string) :
  match float_of_string s with
  | Ret _ => True
  | Raise e => e = ValueError
  | OutOfFuel => False
  end.
Proof.
  unfold float_of_string.
  repeat match goal with
         | |- match (match ?x with _ => _ end) with _ => _ end => destruct x
         | |- match (if ?b then _ else _) with _ => _ end => destruct b
         end; auto.
Qed.

Lemma split_nonempty (sep : ascii) (s : string) : split sep s <> [].
Proof.
  destruct s as [| c s']; simpl; [discriminate |].
  destruct (Ascii.eqb c sep); [discriminate |]. destruct (split sep s'); discriminate.
Qed.

(** [l[-1]] of a list that is not empty. *)
Lemma index_last {A} (l : list A) : l <> [] -> exists a, index l (-1) = Ret a.
Proof.
  intros Hl. unfold index. simpl.
  assert (Hlen : (0 < length l)%nat) by (destruct l; [contradiction | simpl; lia]).
  destruct (Z.ltb_spec (-1 + Z.of_nat (length l)) 0); [lia |].
  destruct (Z.leb_spec (Z.of_nat (length l)) (-1 + Z.of_nat (length l))); [lia |]. simpl.
  destruct (nth_error l (Z.to_nat (-1 + Z.of_nat (length l)))) eqn:E; [eauto |].
  apply nth_error_None in E. lia.
Qed.

(** [int(i * k)] raises, or returns. *)
Lemma int_mul_outcome (i : Z) (k : num) : int_mul i k <> OutOfFuel.
Proof.
  unfold int_mul, mul_int_float, float_of_int, int_of_float, rbind.
  destruct k as [j | f]; [discriminate |].
  destruct (PrimFloat.is_infinity (float_of_Z i)); [discriminate |].
  destruct (Prim2SF _); simpl; discriminate.
Qed.

End PyFacts.

(** ** src/transfer_with_retry.py *)

Module TransferWithRetryProps.
Import Py World Logic Rules PyFacts TransferWithRetry.
Local Open Scope py_scope.

(** *** The probe *)

(** One summary line is read without an exception. *)
Lemma parse_avg_returns (line : string) : exists o, parse_avg line = Ret o.
Proof.
  unfold parse_avg.
  destruct (index_last (split "=" line) (split_nonempty _ _)) as [last Hlast].
  rewrite Hlast. unfold rbind.
  pose proof (index_outcome (split "/" (strip last)) 1) as H2.
  destruct (index (split "/" (strip last)) 1) as [p | e |]; [| | contradiction].
  - pose proof (float_of_string_outcome p) as H3.
    destruct (float_of_string p) as [x | e |]; [eauto | subst e; eauto | contradiction].
  - subst e. eauto.
Qed.

Lemma first_avg_returns (lines : list string) :
  exists o, first_avg lines = Ret o.
Proof.
  induction lines as [| line rest IH]; simpl; [eauto |].
  destruct (contains "min/avg/max" line); [apply parse_avg_returns | exact IH].
Qed.

Lemma first_avg_no_summary (lines : list string) :
  Forall (fun line => contains "min/avg/max" line = false) lines ->
  first_avg lines = Ret None.
Proof.
  induction 1 as [| line rest Hline _ IH]; simpl; [reflexivity |].
  rewrite Hline. exact IH.
Qed.

(** X1: [ping_latency] of src/transfer_with_retry.py starts one process,
    the ping, and always returns: no exception leaves it. It returns
    [None] when the ping exits with another code than 0, and when no line
    of its output holds "min/avg/max". *)
Theorem ping_latency_total (env : oracle) (ip : string) (count : Z) (w : world) :
  let cmd := ["ping"; "-c"; pretty count; "-W"; "1"; ip] in
  let rc := fst (fst (proc env (length w) cmd)) in
  let out := snd (fst (proc env (length w) cmd)) in
  exists o,
    ping_latency env ip count w = (w ++ [EvRun cmd rc], Ret o) /\
    (rc <> 0 -> o = None) /\
    (Forall (fun line => contains "min/avg/max" line = false) (splitlines out) -> o = None).
Proof.
  intros cmd rc out. subst rc out.
  unfold ping_latency, bind, subprocess_run, lift, ret. fold cmd.
  destruct (proc env (length w) cmd) as [[rc out] err].
  cbn [fst snd returncode stdout]. destruct (Z.eqb_spec rc 0) as [E | E]; cbn [negb].
  - destruct (first_avg_returns (splitlines out)) as [o Ho]. rewrite Ho.
    exists o. split; [reflexivity |]. split; [intros H; contradiction |].
    intros H. rewrite (first_avg_no_summary _ H) in Ho. congruence.
  - exists None. auto.
Qed.


(** *** What each function writes to the trace *)

Lemma ping_latency_emits env (ts : list string) (ip : string) (count : Z) :
  emits (logs_in ts) (ping_latency env ip count).
Proof. unfold ping_latency. repeat emits_step; emits_side. Qed.

Lemma rsync_attempts_emits env (fuel : nat) (ip hostname : string) (cmd : list string)
    (max_retries : Z) (bf : float) (lf : string) (attempt delay : Z) :
  emits (logs_in Trace.engine_logs)
        (rsync_attempts env fuel ip hostname cmd max_retries bf lf attempt delay).
Proof.
  revert attempt delay. induction fuel as [| fuel IH]; intros attempt delay; simpl.
  - destruct (attempt <=? max_retries).
    + apply emits_pure. reflexivity.
    + unfold log. repeat emits_step; emits_side.
  - destruct (attempt <=? max_retries).
    + unfold log.
      repeat first [apply IH | apply ping_latency_emits | emits_step]; emits_side.
    + unfold log. repeat emits_step; emits_side.
Qed.

Lemma rsync_data_emits env (ip hostname sdd rdp : string) (max_retries retry_delay : Z)
    (bf : float) (lf : string) :
  emits (logs_in Trace.engine_logs)
        (rsync_data env ip hostname sdd rdp max_retries retry_delay bf lf).
Proof.
  unfold rsync_data. cbv zeta.
  repeat first [apply rsync_attempts_emits | emits_step]; emits_side.
Qed.

Lemma has_fresh_heartbeat_emits env (node_name heartbeat_dir : string) (max_age : Z) (lf : string) :
  emits (fun e => logs_in Trace.gate_logs e /\ no_run e)
        (has_fresh_heartbeat env node_name heartbeat_dir max_age lf).
Proof. unfold has_fresh_heartbeat, log. repeat emits_step; emits_side. Qed.

Section MainFootprint.
Variable env : oracle.
Variable nodes_cfg : list (string * node_info).
Variables log_file supervisor_data_dir remote_data_path heartbeat_dir : string.
Variables heartbeat_max_age max_retries retry_delay max_cycles cycle_delay : Z.
Variable backoff_factor : float.

Lemma build_candidates_emits (names : list string) (candidates : list (string * (Z * float))) :
  emits (logs_in Trace.candidate_logs)
        (build_candidates env nodes_cfg log_file heartbeat_dir heartbeat_max_age names candidates).
Proof.
  revert candidates. induction names as [| name rest IH]; intros candidates; simpl.
  - apply emits_ret.
  - unfold log.
    repeat first
      [ apply IH
      | apply ping_latency_emits
      | eapply emits_weaken;
        [apply has_fresh_heartbeat_emits | intros [] [H _]; simpl in *; tauto]
      | emits_step ]; emits_side.
Qed.

Lemma transfer_all_emits (sorted_nodes : list (string * (Z * float))) (remaining : list string) :
  emits (logs_in (Trace.engine_logs ++
                  ["Requesting data from {} ({}), priority={}, latency={:.2f} ms";
                   "{}: still failed after retries, will try again in a later cycle."]))
        (transfer_all env nodes_cfg log_file supervisor_data_dir remote_data_path
                      max_retries retry_delay backoff_factor sorted_nodes remaining).
Proof.
  revert remaining. induction sorted_nodes as [| [name [priority latency]] rest IH];
    intros remaining; simpl.
  - apply emits_ret.
  - unfold log.
    repeat first
      [ apply IH
      | eapply emits_weaken;
        [apply rsync_data_emits | intros [] H; simpl in *; tauto]
      | emits_step ]; emits_side.
Qed.
End MainFootprint.

Lemma sleeps_app (w l : world) : sleeps (w ++ l) = sleeps w ++ sleeps l.
Proof. apply omap_app. Qed.

Lemma runs_app (w l : world) : runs (w ++ l) = runs w ++ runs l.
Proof. apply omap_app. Qed.

(** C10: with [max_retries <= 0], [rsync_data] returns [False] at once:
    besides creating the destination directory it only logs the final
    failure line; no process is started (neither the copy nor a ping) and
    no sleep is taken. *)
Theorem rsync_data_no_attempt (env : oracle) (ip hostname supervisor_data_dir remote_data_path : string)
    (max_retries retry_delay : Z) (backoff_factor : float) (log_file : string) (w : world) :
  max_retries <= 0 ->
  let out := rsync_data env ip hostname supervisor_data_dir remote_data_path
                        max_retries retry_delay backoff_factor log_file w in
  out = (w ++ [EvMakedirs (path_join supervisor_data_dir hostname);
               EvLog "Failed to sync data from {} after {} attempts."
                     [AStr hostname; AInt max_retries]],
         Ret false)
  /\ runs (fst out) = runs w
  /\ sleeps (fst out) = sleeps w.
Proof.
  intros Hle out.
  assert (Hout : out = (w ++ [EvMakedirs (path_join supervisor_data_dir hostname);
               EvLog "Failed to sync data from {} after {} attempts."
                     [AStr hostname; AInt max_retries]], Ret false)).
  { subst out. unfold rsync_data, bind, os_makedirs, emit.
    replace (Z.to_nat max_retries) with 0%nat by lia.
    simpl. destruct (Z.leb_spec 1 max_retries) as [H | H]; [lia |].
    unfold bind, log, emit, ret. simpl. rewrite <- app_assoc. reflexivity. }
  split; [exact Hout |]. rewrite Hout. simpl.
  rewrite runs_app, sleeps_app. simpl. rewrite !app_nil_r. auto.
Qed.

(** *** The cycles of [main] *)

Lemma cycles_begun_app (w l : world) :
  Trace.cycles_begun (w ++ l) = Trace.cycles_begun w ++ Trace.cycles_begun l.
Proof. apply omap_app. Qed.

Lemma logs_in_quiet (ts : list string) (e : event) :
  ~ In "--- Cycle {}/{} --- Remaining nodes: {}" ts ->
  logs_in ts e -> Trace.cycle_of e = None.
Proof.
  intros Hn He. destruct e as [t args | | | |]; try reflexivity. simpl in *.
  destruct (String.eqb_spec t "--- Cycle {}/{} --- Remaining nodes: {}") as [-> | Hne].
  - contradiction.
  - repeat (match goal with |- match ?x with _ => _ end = _ => destruct x end;
            try reflexivity).
Qed.

Lemma quiet_cycles_begun (l : list event) :
  Forall (fun e => Trace.cycle_of e = None) l -> Trace.cycles_begun l = [].
Proof.
  induction 1 as [| e l He _ IH]; [reflexivity |].
  unfold Trace.cycles_begun in *. simpl. rewrite He. exact IH.
Qed.

(** A run whose log lines are among [ts] begins no cycle. *)
Lemma emits_quiet {A} (ts : list string) (c : M A) :
  ~ In "--- Cycle {}/{} --- Remaining nodes: {}" ts ->
  emits (logs_in ts) c -> does c (fun l _ => Trace.cycles_begun l = []).
Proof.
  intros Hn Hc. eapply does_mono; [exact Hc |]. simpl. intros l _ Hl.
  apply quiet_cycles_begun. eapply Forall_impl; [exact Hl |].
  intros e. apply logs_in_quiet. exact Hn.
Qed.

Ltac not_in_list := simpl; intros Hin; repeat destruct Hin as [Hin | Hin]; discriminate || contradiction.

Section Cycles.
Variable env : oracle.
Variable nodes_cfg : list (string * node_info).
Variables log_file supervisor_data_dir remote_data_path heartbeat_dir : string.
Variables heartbeat_max_age max_retries retry_delay max_cycles cycle_delay : Z.
Variable backoff_factor : float.

Let cycle_body' := cycle_body env nodes_cfg log_file supervisor_data_dir remote_data_path
                              heartbeat_dir heartbeat_max_age max_retries retry_delay
                              max_cycles cycle_delay backoff_factor.
Let cycles' := cycles env nodes_cfg log_file supervisor_data_dir remote_data_path
                      heartbeat_dir heartbeat_max_age max_retries retry_delay
                      max_cycles cycle_delay backoff_factor.

(** One pass of the loop body begins exactly one cycle. *)
Lemma cycle_body_begins_one (cycle : Z) (remaining : list string) :
  does (cycle_body' cycle remaining)
       (fun l _ => Trace.cycles_begun l = [(cycle, remaining)]).
Proof.
  unfold cycle_body', cycle_body.
  eapply does_bind with (R1 := fun l r => l = [EvLog "--- Cycle {}/{} --- Remaining nodes: {}"
                                                 [AInt cycle; AInt max_cycles; ASorted remaining]]).
  - apply does_emit. reflexivity.
  - intros l1 [] ->.
    eapply does_mono.
    + eapply (emits_quiet (Trace.candidate_logs ++ Trace.engine_logs ++
                ["Requesting data from {} ({}), priority={}, latency={:.2f} ms";
                 "{}: still failed after retries, will try again in a later cycle.";
                 "No candidates to sync in this cycle.";
                 "End of cycle {}. Unsynced nodes: {}. Sleeping {} seconds before next cycle..."]));
        [not_in_list |].
      unfold log.
      repeat first
        [ eapply emits_weaken;
          [apply build_candidates_emits | intros [] H; simpl in *; tauto]
        | eapply emits_weaken;
          [apply transfer_all_emits | intros [] H; simpl in *; tauto]
        | emits_step ]; emits_side.
    + cbv beta. intros l _ Hl. rewrite cycles_begun_app, Hl. reflexivity.
  - intros l1 e ->. reflexivity.
  - intros l1 ->. reflexivity.
Qed.

(** The loop begins cycles in the order of its range, as long as a node
    is outstanding. *)
Lemma cycles_begin_prefix (cs : list Z) (remaining : list string) :
  does (cycles' cs remaining)
       (fun l _ => map fst (Trace.cycles_begun l) `prefix_of` cs /\
                   Forall (fun c => snd c <> []) (Trace.cycles_begun l)).
Proof.
  revert remaining. induction cs as [| cycle cs IH]; intros remaining; simpl.
  - apply does_ret. split; [reflexivity | constructor].
  - case_bool_decide as Hrem.
    + eapply does_mono.
      * eapply (emits_quiet ["All nodes synced successfully. Stopping early."]);
          [not_in_list |].
        unfold log. repeat emits_step; emits_side.
      * simpl. intros l _ ->. split; [apply prefix_nil | constructor].
    + eapply does_bind; [apply cycle_body_begins_one | | |].
      * intros l1 rem' Hl1. eapply does_mono; [apply IH |].
        simpl. intros l2 _ [Hp Hf]. rewrite cycles_begun_app, Hl1. simpl.
        split; [apply prefix_cons; exact Hp | constructor; [exact Hrem | exact Hf]].
      * simpl. intros l1 e ->. simpl.
        split; [apply prefix_cons, prefix_nil | repeat constructor; exact Hrem].
      * simpl. intros l1 ->. simpl.
        split; [apply prefix_cons, prefix_nil | repeat constructor; exact Hrem].
Qed.

Lemma run_begins_prefix :
  does (run env nodes_cfg log_file supervisor_data_dir remote_data_path
            heartbeat_dir heartbeat_max_age max_retries retry_delay
            max_cycles cycle_delay backoff_factor)
       (fun l _ => map fst (Trace.cycles_begun l) `prefix_of` range 1 (max_cycles + 1) /\
                   Forall (fun c => snd c <> []) (Trace.cycles_begun l)).
Proof.
  unfold run.
  eapply does_bind with (R1 := fun l _ => Trace.cycles_begun l = []).
  - unfold log. apply does_emit. reflexivity.
  - intros l1 [] Hl1. cbv zeta.
    eapply does_bind; [apply cycles_begin_prefix | | |].
    + intros l2 rem [Hp Hf].
      eapply does_mono.
      * eapply (emits_quiet ["FINAL: gave up on nodes: {}";
                             "FINAL: all nodes synced in this run.";
                             "=== Data queue complete ===\n"]); [not_in_list |].
        unfold log. repeat emits_step; emits_side.
      * simpl. intros l3 _ Hl3. rewrite !cycles_begun_app, Hl1, Hl3, app_nil_r. auto.
    + simpl. intros l2 e [Hp Hf]. rewrite cycles_begun_app, Hl1. auto.
    + simpl. intros l2 [Hp Hf]. rewrite cycles_begun_app, Hl1. auto.
  - simpl. intros l1 e ->. split; [apply prefix_nil | constructor].
  - simpl. intros l1 ->. split; [apply prefix_nil | constructor].
Qed.
End Cycles.

Lemma length_range (a b : Z) : length (range a b) = Z.to_nat (b - a).
Proof. unfold range. rewrite length_map, length_seq. reflexivity. Qed.

(** C4, as the code has it: [main] begins the cycles 1, 2, ... in order
    and at most [max_cycles] of them, 3 when the configuration does not
    set [max_cycles] and none at all when it is 0 or negative; a cycle is
    begun only while some node is still outstanding. *)
Theorem main_cycles_bounded (env : oracle) (cfg : config) (w : world) :
  exists new : list (Z * list string),
    Trace.cycles_begun (fst (main env cfg w)) = Trace.cycles_begun w ++ new /\
    map fst new `prefix_of` range 1 (default 3 (max_cycles cfg) + 1) /\
    (length new <= Z.to_nat (default 3%Z (max_cycles cfg)))%nat /\
    Forall (fun c => snd c <> []) new.
Proof.
  assert (Hmain : does (main env cfg)
            (fun l _ => map fst (Trace.cycles_begun l)
                          `prefix_of` range 1 (default 3 (max_cycles cfg) + 1) /\
                        Forall (fun c => snd c <> []) (Trace.cycles_begun l))).
  { unfold main. cbv zeta.
    eapply does_bind with (R1 := fun l _ => l = []).
    - apply does_lift. reflexivity.
    - intros l1 bf ->. simpl.
      destruct (default [] (nodes cfg)) as [| n ns] eqn:Hnodes.
      + unfold log. apply does_emit. simpl. split; [apply prefix_nil | constructor].
      + apply run_begins_prefix.
    - intros l1 e ->. split; [apply prefix_nil | constructor].
    - intros l1 ->. split; [apply prefix_nil | constructor]. }
  destruct (Hmain w) as (l & Hl & Hp & Hf).
  exists (Trace.cycles_begun l). rewrite Hl, cycles_begun_app.
  split; [reflexivity |]. split; [exact Hp |]. split; [| exact Hf].
  apply prefix_length in Hp. rewrite length_map, length_range in Hp. lia.
Qed.

(** C4 against the claim: with [max_cycles] 0 the run ends at once,
    having begun no cycle and started no process; with [max_cycles]
    absent and every copy failing it ends after the cycles 1, 2, 3. *)
Lemma main_zero_or_absent_max_cycles_ends :
  (snd (main Examples.env_healthy Examples.config_zero_cycles []) = Ret tt /\
   Trace.cycles_begun (fst (main Examples.env_healthy Examples.config_zero_cycles [])) = [] /\
   runs (fst (main Examples.env_healthy Examples.config_zero_cycles [])) = []) /\
  (snd (main Examples.env_fresh_copy_fails Examples.config_defaults []) = Ret tt /\
   map fst (Trace.cycles_begun (fst (main Examples.env_fresh_copy_fails Examples.config_defaults [])))
     = [1; 2; 3]).
Proof. vm_compute. repeat split. Qed.

(** *** The order of the transfers *)












Section Requests.
Variable env : oracle.
Variable nodes_cfg : list (string * node_info).
Variables log_file supervisor_data_dir remote_data_path : string.
Variables max_retries retry_delay : Z.
Variable backoff_factor : float.

End Requests.


Section CycleRequests.
Variable env : oracle.
Variable nodes_cfg : list (string * node_info).
Variables log_file supervisor_data_dir remote_data_path heartbeat_dir : string.
Variables heartbeat_max_age max_retries retry_delay max_cycles cycle_delay : Z.
Variable backoff_factor : float.

End CycleRequests.


(** With [max_retries] 0 nothing is attempted, whatever the environment. *)
Lemma rsync_data_no_attempt_witness :
  0 <= 0 /\
  let out := rsync_data Examples.env_healthy "10.0.0.5" "node1" "/home/pi/supervisor_data"
                        "/home/pi/data" 0 5 2%float "/home/pi/supervisor.log" [] in
  out = ([] ++ [EvMakedirs (path_join "/home/pi/supervisor_data" "node1");
                EvLog "Failed to sync data from {} after {} attempts."
                      [AStr "node1"; AInt 0]],
         Ret false)
  /\ runs (fst out) = runs []
  /\ sleeps (fst out) = sleeps [].
Proof.
  split; [lia |].
  apply (rsync_data_no_attempt Examples.env_healthy "10.0.0.5" "node1" "/home/pi/supervisor_data"
                               "/home/pi/data" 0 5 2%float "/home/pi/supervisor.log" []).
  lia.
Defined.

Lemma int_of_float_finite (x : float) :
  isfinite x = true -> exists z, int_of_float x = Ret z.
Proof.
  unfold isfinite, int_of_float. destruct (Prim2SF x); try discriminate; simpl; eauto.
Qed.

Lemma float_le_int_finite (x : float) (i : Z) :
  isfinite x = true -> float_le_int x i = negb (float_gt_int x i).
Proof.
  unfold isfinite, float_le_int. destruct (Prim2SF x); try discriminate; reflexivity.
Qed.

(** C6: [has_fresh_heartbeat] returns a boolean, which is [True] exactly
    when the marker file exists and its age, now - mtime, is at most
    [max_age_sec]; a marker that is missing, or whose entry cannot be
    read, gives [False] and no exception. The age is taken to be a finite
    number, as the difference of two clock readings is. *)
Theorem has_fresh_heartbeat_iff (env : oracle) (node_name heartbeat_dir : string)
    (max_age_sec : Z) (log_file : string) (w : world) :
  let path := path_join heartbeat_dir (node_name +:+ ".alive") in
  let now := clock env (length w) in
  (forall mt, mtime env (length w) path = Some mt -> isfinite (PrimFloat.sub now mt) = true) ->
  exists fresh : bool,
    snd (has_fresh_heartbeat env node_name heartbeat_dir max_age_sec log_file w) = Ret fresh /\
    (fresh = true <->
     exists mt, mtime env (length w) path = Some mt /\
                float_le_int (PrimFloat.sub now mt) max_age_sec = true).
Proof.
  intros path now Hfin.
  unfold has_fresh_heartbeat, bind, os_path_exists, time_time, os_path_getmtime.
  fold path. destruct (mtime env (length w) path) as [mt |] eqn:Hmt; simpl.
  - rewrite Hmt. fold now. specialize (Hfin mt eq_refl).
    pose proof (float_le_int_finite _ max_age_sec Hfin) as Hle.
    destruct (float_gt_int (PrimFloat.sub now mt) max_age_sec) eqn:Hgt; simpl in *.
    + destruct (int_of_float_finite _ Hfin) as [z Hz].
      unfold lift. rewrite Hz. simpl. exists false. split; [reflexivity |].
      split; [discriminate |]. intros (mt' & E & Hle'). congruence.
    + exists true. split; [reflexivity |]. split; [| reflexivity].
      intros _. exists mt. auto.
  - exists false. split; [reflexivity |].
    split; [discriminate |]. intros (mt' & E & _). discriminate.
Qed.

(** A heartbeat touched ten seconds ago is fresh for a limit of 120 s. *)
Lemma has_fresh_heartbeat_iff_witness :
  exists fresh : bool,
    snd (has_fresh_heartbeat Examples.env_healthy "node1" "/home/pi/supervisor/heartbeats"
                             120 "/home/pi/supervisor.log" []) = Ret fresh /\
    (fresh = true <->
     exists mt, mtime Examples.env_healthy 0 "/home/pi/supervisor/heartbeats/node1.alive" = Some mt /\
                float_le_int (PrimFloat.sub (clock Examples.env_healthy 0) mt) 120 = true).
Proof.
  apply (has_fresh_heartbeat_iff Examples.env_healthy "node1" "/home/pi/supervisor/heartbeats"
                                 120 "/home/pi/supervisor.log" []).
  intros mt H. vm_compute in H. inversion H. vm_compute. reflexivity.
Defined.

(** *** The heartbeat gate in the candidate loop *)




Lemma set_remove_keeps (s s' : list string) (x n : string) :
  set_remove s x = Ret s' -> In n s -> n <> x -> In n s'.
Proof.
  unfold set_remove. destruct (existsb (String.eqb x) s); [| discriminate].
  intros [= <-] Hin Hne. apply filter_In. split; [exact Hin |].
  destruct (String.eqb_spec x n); [congruence | reflexivity].
Qed.


Section Gate.
Variable env : oracle.
Variable nodes_cfg : list (string * node_info).
Variables log_file heartbeat_dir : string.
Variable heartbeat_max_age : Z.

Let fresh := Trace.fresh_at env heartbeat_dir heartbeat_max_age.






End Gate.

Section GatedCycle.
Variable env : oracle.
Variable nodes_cfg : list (string * node_info).
Variables log_file supervisor_data_dir remote_data_path heartbeat_dir : string.
Variables heartbeat_max_age max_retries retry_delay max_cycles cycle_delay : Z.
Variable backoff_factor : float.

Let fresh := Trace.fresh_at env heartbeat_dir heartbeat_max_age.
Let transfer := transfer_all env nodes_cfg log_file supervisor_data_dir remote_data_path
                             max_retries retry_delay backoff_factor.


End GatedCycle.

(** *** The retry loop: fuel and backoff *)

Lemma ping_latency_completes env (ip : string) (count : Z) : completes (ping_latency env ip count).
Proof.
  unfold ping_latency. repeat completes_step.
  apply completes_lift. destruct (first_avg_returns (splitlines (stdout a))) as [o Ho].
  rewrite Ho. discriminate.
Qed.

Lemma log_completes (t : string) (args : list log_arg) (lf : string) : completes (log t args lf).
Proof. unfold log. apply completes_emit. Qed.

(** The loop has fuel for every attempt that is left. *)
Lemma rsync_attempts_fuel env (fuel : nat) (ip hostname : string) (cmd : list string)
    (max_retries : Z) (bf : float) (lf : string) (attempt delay : Z) :
  (Z.to_nat (max_retries + 1 - attempt) <= fuel)%nat ->
  completes (rsync_attempts env fuel ip hostname cmd max_retries bf lf attempt delay).
Proof.
  revert attempt delay. induction fuel as [| fuel IH]; intros attempt delay Hfuel; simpl.
  - destruct (Z.leb_spec attempt max_retries); [lia |].
    repeat first [apply log_completes | completes_step].
  - destruct (Z.leb_spec attempt max_retries).
    + repeat first
        [ apply IH; lia
        | apply log_completes
        | apply ping_latency_completes
        | apply completes_lift; exact (int_mul_outcome _ (Float _))
        | completes_step ].
    + repeat first [apply log_completes | completes_step].
Qed.

(** [rsync_data] never stops for lack of fuel. *)
Lemma rsync_data_fuel env (ip hostname sdd rdp : string) (max_retries retry_delay : Z)
    (bf : float) (lf : string) :
  completes (rsync_data env ip hostname sdd rdp max_retries retry_delay bf lf).
Proof.
  unfold rsync_data. cbv zeta. completes_step; [completes_step |].
  apply rsync_attempts_fuel. lia.
Qed.

Lemma no_sleep_sleeps (l : list event) :
  Forall (fun e => match e with EvSleep _ => False | _ => True end) l -> sleeps l = [].
Proof.
  induction 1 as [| e l He _ IH]; [reflexivity |].
  unfold sleeps in *. destruct e; simpl; auto. contradiction.
Qed.

(** A step that takes no sleep. *)
Lemma returns_no_sleep {A B} (c : M A) (k : A -> M B) (Q : list Z -> B -> Prop) :
  emits (fun e => match e with EvSleep _ => False | _ => True end) c ->
  (forall a, returns (k a) (fun l b => Q (sleeps l) b)) ->
  returns (bind c k) (fun l b => Q (sleeps l) b).
Proof.
  intros Hc Hk. eapply returns_bind; [apply returns_of_emits; exact Hc |].
  intros l1 a H1. eapply returns_mono; [apply Hk |]. cbv beta. intros l2 b H2.
  rewrite sleeps_app, (no_sleep_sleeps l1 H1). exact H2.
Qed.

Ltac no_sleep := unfold log; repeat emits_step; exact I.

(** When every copy fails, [rsync_data] returns [False], having slept the
    delays of the backoff between the attempts, and not after the last. *)
Lemma rsync_attempts_backoff env (fuel : nat) (ip hostname : string) (cmd : list string)
    (max_retries : Z) (bf : float) (lf : string) (attempt delay : Z) :
  (forall t, fst (fst (proc env t cmd)) <> 0) ->
  returns (rsync_attempts env fuel ip hostname cmd max_retries bf lf attempt delay)
          (fun l b => b = false /\
                      sleeps l = Trace.backoff (Z.to_nat (max_retries - attempt)) delay bf).
Proof.
  intros Hfail. revert attempt delay.
  induction fuel as [| fuel IH]; intros attempt delay; simpl.
  - destruct (Z.leb_spec attempt max_retries).
    + intros w. exists []. rewrite app_nil_r. split; [reflexivity | discriminate].
    + apply (returns_no_sleep _ _ (fun sl b => b = false /\ sl = _)); [no_sleep | intros _].
      apply returns_ret. replace (Z.to_nat (max_retries - attempt)) with O by lia. auto.
  - destruct (Z.leb_spec attempt max_retries).
    2: { apply (returns_no_sleep _ _ (fun sl b => b = false /\ sl = _)); [no_sleep | intros _].
         apply returns_ret. replace (Z.to_nat (max_retries - attempt)) with O by lia. auto. }
    apply (returns_no_sleep _ _ (fun sl b => b = false /\ sl = _)); [no_sleep | intros _].
    eapply returns_bind with (Q1 := fun l r => sleeps l = [] /\ returncode r <> 0).
    { apply does_subprocess_run. intros t. specialize (Hfail t).
      destruct (proc env t cmd) as [[rc out] err]. intros a [= <-]. auto. }
    intros l1 result [Hl1 Hrc]. destruct (Z.eqb_spec (returncode result) 0); [contradiction |].
    cut (returns
           (log "Rsync failed for {} (code {}). stdout: {} stderr: {}"
                [AStr hostname; AInt (returncode result); AStr (strip (stdout result));
                 AStr (strip (stderr result))] lf ;;
            latency <- ping_latency env ip 3 ;;
            match latency with
            | Some l0 => log "Node {} ({}) reachable, avg latency {:.2f} ms."
                             [AStr hostname; AStr ip; AFloat l0] lf
            | None => log "Node {} ({}) unreachable (ping failed)."
                          [AStr hostname; AStr ip] lf
            end ;;
            delay' <-
              (if attempt <? max_retries
               then log "Retrying in {} seconds..." [AInt delay] lf ;;
                    time_sleep delay ;; lift (int_mul delay (Float bf))
               else ret delay) ;;
            rsync_attempts env fuel ip hostname cmd max_retries bf lf (attempt + 1) delay')%py
           (fun l b => b = false /\
                       sleeps l = Trace.backoff (Z.to_nat (max_retries - attempt)) delay bf)).
    { intros Hcut. eapply returns_mono; [exact Hcut |]. cbv beta. intros l b [Hb Hs].
      rewrite sleeps_app, Hl1. auto. }
    apply (returns_no_sleep _ _ (fun sl b => b = false /\ sl = _)); [no_sleep | intros _].
    apply (returns_no_sleep _ _ (fun sl b => b = false /\ sl = _)).
    { unfold ping_latency. no_sleep. }
    intros latency.
    apply (returns_no_sleep _ _ (fun sl b => b = false /\ sl = _));
      [destruct latency; no_sleep | intros _].
    destruct (Z.ltb_spec attempt max_retries).
    + replace (Z.to_nat (max_retries - attempt))
        with (S (Z.to_nat (max_retries - (attempt + 1)))) by lia.
      eapply returns_bind with
        (Q1 := fun l d => sleeps l = [delay] /\ int_mul delay (Float bf) = Ret d).
      { eapply returns_bind with (Q1 := fun l _ => sleeps l = []).
        - unfold log. apply returns_emit. reflexivity.
        - intros l2 _ Hl2.
          eapply returns_bind with (Q1 := fun l _ => l = [EvSleep delay]).
          + apply does_time_sleep;
              [intros _ u _; reflexivity | intros _ u Hu; discriminate | intros _ u Hu; discriminate].
          + intros l3 _ ->. apply returns_lift. intros d Hd.
            rewrite !sleeps_app, Hl2. auto. }
      intros l2 d [Hl2 Hd]. eapply returns_mono; [apply IH |]. cbv beta.
      intros l3 b [Hb Hl3]. split; [exact Hb |].
      rewrite sleeps_app, Hl2, Hl3. cbn [Trace.backoff app]. rewrite Hd. reflexivity.
    + replace (Z.to_nat (max_retries - attempt)) with O by lia.
      eapply returns_bind with (Q1 := fun l d => l = []); [apply returns_ret; reflexivity |].
      intros l2 d ->. eapply returns_mono; [apply IH |]. cbv beta.
      intros l3 b [Hb Hl3]. split; [exact Hb |].
      rewrite app_nil_l, Hl3.
      replace (Z.to_nat (max_retries - (attempt + 1))) with O by lia. reflexivity.
Qed.

Lemma rsync_data_backoff env (ip hostname sdd rdp : string) (max_retries retry_delay : Z)
    (bf : float) (lf : string) (w w' : world) (b : bool) :
  (forall t, fst (fst (proc env t
       ["rsync"; "-avz"; "--partial"; "--timeout=20";
        "pi@" +:+ ip +:+ ":" +:+ rdp +:+ "/"; path_join sdd hostname])) <> 0) ->
  rsync_data env ip hostname sdd rdp max_retries retry_delay bf lf w = (w', Ret b) ->
  b = false /\
  sleeps w' = sleeps w ++ Trace.backoff (Z.to_nat (max_retries - 1)) retry_delay bf.
Proof.
  intros Hfail Hrun.
  assert (H : returns (rsync_data env ip hostname sdd rdp max_retries retry_delay bf lf)
                (fun l b => b = false /\
                   sleeps l = Trace.backoff (Z.to_nat (max_retries - 1)) retry_delay bf)).
  { unfold rsync_data. cbv zeta.
    apply (returns_no_sleep _ _ (fun sl b => b = false /\ sl = _)); [no_sleep | intros _].
    apply rsync_attempts_backoff. exact Hfail. }
  destruct (returns_run _ _ _ _ _ H Hrun) as (l & -> & Hb & Hl).
  rewrite sleeps_app, Hl. auto.
Qed.

(** With the delay 5 and the factor 2.0 the backoff is 5, 10, 20. *)
Lemma rsync_data_backoff_witness :
  false = false /\
  sleeps (fst (rsync_data Examples.env_copy_fails "10.0.0.5" "node1" "/home/pi/supervisor_data"
                          "/home/pi/data" 4 5 2%float "/home/pi/supervisor.log" []))
    = sleeps [] ++ Trace.backoff (Z.to_nat (4 - 1)) 5 2%float.
Proof.
  apply (rsync_data_backoff Examples.env_copy_fails "10.0.0.5" "node1" "/home/pi/supervisor_data"
           "/home/pi/data" 4 5 2%float "/home/pi/supervisor.log" []).
  - intros t. vm_compute. discriminate.
  - vm_compute. reflexivity.
Defined.

End TransferWithRetryProps.


(** ** The backoff of the three transfer engines *)

Module BackoffProps.
Import Py World Examples.

(** C2: with retry_delay = 5, backoff_factor = 2.0, max_retries = 4 and
    every attempt failing, [rsync_data] of src/transfer_with_retry.py
    sleeps 5, 10, 20 and returns [False]; the two [rsync_data] of the BEAM
    package return [False] too but sleep 5, 10, 20, 40: they sleep once
    more, after the final attempt. *)
Theorem backoff_5_2_4_all_failing :
  let top := TransferWithRetry.rsync_data env_copy_fails "10.0.0.5" "node1"
               "/home/pi/supervisor_data" "/home/pi/data" 4 5 2%float
               "/home/pi/supervisor.log" [] in
  let daily := Beam.TransferWithRetry.rsync_data env_copy_fails "10.0.0.5" "node1"
                 beam_config "/home/pi/supervisor.log" [] in
  let check := Beam.SupervisorPingCheck.rsync_data env_copy_fails "10.0.0.5" "node1"
                 beam_config "/home/pi/supervisor.log" [] in
  (snd top = Ret false /\ sleeps (fst top) = [5; 10; 20]) /\
  (snd daily = Ret false /\ sleeps (fst daily) = [5; 10; 20; 40]) /\
  (snd check = Ret false /\ sleeps (fst check) = [5; 10; 20; 40]).
Proof. vm_compute. repeat split. Qed.

End BackoffProps.

(** ** The reachability probes *)

Module ProbeProps.
Import Py World Examples.

(** C7: [ping_latency] of src/queue_shipped_data.py raises when the ping
    succeeds and a line holding "avg" does not have the expected shape:
    [ValueError] on BusyBox's summary line, [IndexError] on the banner of a
    host whose name holds "avg". An unreachable host, and an output with
    no such line, give [None]. *)
Theorem queue_ping_latency_raises :
  snd (QueueShippedData.ping_latency env_busybox "10.0.0.7" 3 []) = Raise ValueError /\
  snd (QueueShippedData.ping_latency env_copy_fails "avg-node.local" 3 []) = Raise IndexError /\
  snd (QueueShippedData.ping_latency env_all_down "10.0.0.7" 3 []) = Ret None /\
  QueueShippedData.first_avg (splitlines "64 bytes from 10.0.0.7: icmp_seq=1") = Ret None.
Proof. vm_compute. repeat split. Qed.

End ProbeProps.

(** ** Health records *)

Module HealthProps.
Import Py World Examples.

(** C3: in the daily run a node recorded offline that is probed
    unreachable again has its [last_offline_time] stamped anew. *)
Theorem daily_run_restamps_offline :
  state_offline !! "node1"
    = Some (mkState (Some false) (Some false) None (Some "2026-01-01T00:00:00") None) /\
  exists st,
    snd (Beam.TransferWithRetry.main env_all_down beam_config state_offline []) = Ret st /\
    st !! "node1"
      = Some (mkState (Some false) (Some false) None (Some "2026-01-02T00:00:00") None).
Proof.
  split; [reflexivity |].
  eexists. split; [vm_compute; reflexivity |]. vm_compute. reflexivity.
Qed.

(** X14: the health check of a node in supervisor_ping_check.py, for a
    node that has an address and a record with [node_alive]: when the
    ping agrees with the recorded health the whole state is left as it
    is; when it does not, [node_alive] takes the new value and
    [last_online_time], or [last_offline_time], is stamped, in the record
    of that node only. *)
Lemma probe_stamps_on_change (env : oracle) (lf name : string) (info : node_info)
    (state : gmap string node_state) (w : world) (ip : string) (r : node_state) (was : bool) :
  info_ip info = Some ip -> state !! name = Some r -> node_alive r = Some was ->
  let is_alive := fst (fst (proc env (length w) ["ping"; "-c"; "1"; "-W"; "1"; ip])) =? 0 in
  let now := isotime env (S (length w)) in
  snd (Beam.SupervisorPingCheck.probe env lf name info state w) =
    Ret (if Bool.eqb is_alive was then state
         else if is_alive
              then <[name := Beam.set_last_online_time now (Beam.set_node_alive true r)]> state
              else <[name := Beam.set_last_offline_time now (Beam.set_node_alive false r)]> state).
Proof.
  intros Hip Hr Hwas is_alive now. subst is_alive now.
  unfold Beam.SupervisorPingCheck.probe, Beam.info_ip_get, Beam.ping, Beam.get_flag,
    Beam.update, Beam.log, subprocess_run, datetime_now_isoformat, and_then,
    bind, lift, emit, ret.
  rewrite Hip.
  destruct (proc env (length w) ["ping"; "-c"; "1"; "-W"; "1"; ip]) as [[rc out] err].
  cbn. rewrite Hr, Hwas. cbn.
  rewrite ?length_app, ?Nat.add_1_r. cbn.
  destruct (rc =? 0), was; cbn; rewrite ?Hr, ?Hwas; cbn;
    rewrite ?lookup_insert_eq; cbn; rewrite ?insert_insert_eq;
    rewrite ?length_app, ?Nat.add_1_r; reflexivity.
Qed.

(** node1, recorded offline, answers the ping: it comes online and
    [last_online_time] is stamped. *)
Lemma probe_stamps_on_change_witness :
  snd (Beam.SupervisorPingCheck.probe env_healthy "/home/pi/supervisor.log" "node1"
         (mkInfo (Some "10.0.0.5") None) state_offline [])
    = Ret (<["node1" := Beam.set_last_online_time "2026-01-02T00:00:00"
                          (Beam.set_node_alive true
                             (mkState (Some false) (Some false) None
                                      (Some "2026-01-01T00:00:00") None))]> state_offline).
Proof.
  apply (probe_stamps_on_change env_healthy "/home/pi/supervisor.log" "node1"
           (mkInfo (Some "10.0.0.5") None) state_offline [] "10.0.0.5"
           (mkState (Some false) (Some false) None (Some "2026-01-01T00:00:00") None) false);
    reflexivity.
Defined.

End HealthProps.


(** ** src/queue_shipped_data.py *)

Module QueueProps.
Import Py World Logic Rules QueueShippedData QueueSpec.
Local Open Scope py_scope.

Lemma kept_alive_refl (a : Node) : kept_alive a a.
Proof. unfold kept_alive. auto. Qed.

Lemma kept_alive_trans (a b c : Node) : kept_alive a b -> kept_alive b c -> kept_alive a c.
Proof. unfold kept_alive. intros (? & ? & ?) (? & ? & ?). repeat split; try congruence; auto. Qed.

Lemma kept_alive_all_trans (l1 l2 l3 : list Node) :
  Forall2 kept_alive l1 l2 -> Forall2 kept_alive l2 l3 -> Forall2 kept_alive l1 l3.
Proof.
  intros H12. revert l3. induction H12 as [| a b l1 l2 Hab _ IH]; intros l3 H23.
  - inversion H23. constructor.
  - inversion H23 as [| ? c ? l3' Hbc H23']; subst.
    constructor; [eapply kept_alive_trans; eauto | auto].
Qed.

Lemma dump_ok_trans (nodes nodes' : list Node) (e : event) :
  Forall2 kept_alive nodes nodes' -> dump_ok nodes' e -> dump_ok nodes e.
Proof.
  intros H. destruct e as [| | | | path [snap | st]]; simpl; auto.
  apply kept_alive_all_trans. exact H.
Qed.

Section Program.
Variable env : oracle.

(** The probe starts one process, the ping of [ip]. *)
Lemma queue_ping_latency_emits (P : event -> Prop) (ip : string) :
  (forall rc, P (EvRun (ping_argv ip) rc)) -> emits P (ping_latency env ip 3).
Proof.
  intros HP. unfold ping_latency. apply emits_try_except.
  - repeat emits_step. apply HP.
  - intros [] h [= <-]. apply emits_ret.
Qed.

Lemma rsync_shipped_data_emits (P : event -> Prop) (ip hostname : string) :
  (forall t a, P (EvLog t a)) -> (forall path, P (EvMakedirs path)) ->
  (forall rc, P (EvRun (rsync_argv ip) rc)) ->
  emits P (rsync_shipped_data env ip hostname).
Proof.
  intros Hlog Hmk Hrun. unfold rsync_shipped_data. cbv zeta.
  emits_step; [emits_step; apply Hmk |].
  apply emits_try_except.
  - unfold log. repeat emits_step; try apply Hrun; auto.
  - intros [] h [= <-]. unfold log. repeat emits_step; auto.
Qed.

(** [for node in nodes] with a body that keeps each node alive. *)
Lemma for_nodes_hoare (P : event -> Prop) (R : Node -> Node -> Prop)
    (body : Node -> M Node) (nodes : list Node) :
  (forall node, In node nodes -> hoare P (R node) (body node)) ->
  hoare P (Forall2 R nodes) (for_nodes body nodes).
Proof.
  induction nodes as [| node rest IH]; intros Hbody; simpl.
  - apply hoare_ret. constructor.
  - eapply hoare_bind; [apply Hbody; left; reflexivity |].
    intros node' Hnode. eapply hoare_bind; [apply IH; intros; apply Hbody; right; assumption |].
    intros rest' Hrest. apply hoare_ret. constructor; assumption.
Qed.

(** The body of the re-probe: only a node that is not alive is pinged,
    and a node is only ever marked alive. *)
Lemma ping_dead_nodes_hoare (P : event -> Prop) (nodes : list Node) :
  (forall t a, P (EvLog t a)) ->
  (forall node rc, In node nodes -> state node <> "alive" -> P (EvRun (ping_argv (ip node)) rc)) ->
  hoare P (Forall2 kept_alive nodes) (ping_dead_nodes env nodes).
Proof.
  intros Hlog Hrun. unfold ping_dead_nodes. apply for_nodes_hoare. intros node Hin.
  destruct (String.eqb_spec (state node) "alive") as [Halive | Hdead]; simpl.
  - apply hoare_ret. apply kept_alive_refl.
  - eapply hoare_bind.
    + apply hoare_emits. apply queue_ping_latency_emits. intros rc. apply Hrun; assumption.
    + intros [l |] _.
      * eapply hoare_bind; [apply hoare_emits; unfold log; apply emits_emit; apply Hlog |].
        intros _ _. apply hoare_ret. unfold kept_alive, set_state. simpl. auto.
      * apply hoare_ret. apply kept_alive_refl.
Qed.

(** The retries of a cycle change no state. *)
Lemma retry_transfers_hoare (P : event -> Prop) (nodes : list Node) :
  (forall t a, P (EvLog t a)) -> (forall path, P (EvMakedirs path)) ->
  (forall argv rc, P (EvRun argv rc)) ->
  hoare P (Forall2 kept_alive nodes)
    (for_nodes (fun node =>
      log "Attempting data transfer from {} ({})" [AStr (name node); AStr (ip node)] ;;
      if String.eqb (state node) "alive" && transfer_fail node then
        success <- rsync_shipped_data env (ip node) (name node) ;;
        log "Node {} transfer success: {}" [AStr (name node); ABool success] ;;
        if success then
          log "Node {}: transfer_fail flag cleared" [AStr (name node)] ;;
          ret (set_transfer_fail node false)
        else ret node
      else ret node) nodes).
Proof.
  intros Hlog Hmk Hrun. apply for_nodes_hoare. intros node _.
  eapply hoare_bind; [apply hoare_emits; unfold log; apply emits_emit; apply Hlog |].
  intros _ _. destruct (String.eqb (state node) "alive" && transfer_fail node).
  - eapply hoare_bind; [apply hoare_emits; apply rsync_shipped_data_emits; auto |].
    intros success _.
    eapply hoare_bind; [apply hoare_emits; unfold log; apply emits_emit; apply Hlog |].
    intros _ _. destruct success.
    + eapply hoare_bind; [apply hoare_emits; unfold log; apply emits_emit; apply Hlog |].
      intros _ _. apply hoare_ret. unfold kept_alive, set_transfer_fail. simpl. auto.
    + apply hoare_ret. apply kept_alive_refl.
  - apply hoare_ret. apply kept_alive_refl.
Qed.

Lemma retry_cycle_hoare (nodes : list Node) :
  hoare (dump_ok nodes) (Forall2 kept_alive nodes) (retry_cycle env nodes).
Proof.
  unfold retry_cycle.
  eapply hoare_bind; [apply hoare_emits; unfold log; apply emits_emit; exact I |].
  intros _ _.
  eapply hoare_bind; [apply hoare_emits; apply emits_time_sleep; exact I |].
  intros _ _.
  eapply hoare_bind; [apply ping_dead_nodes_hoare; simpl; auto |].
  intros nodes1 H1.
  eapply hoare_bind; [apply hoare_emits; apply emits_emit; exact H1 |].
  intros _ _.
  eapply hoare_bind; [apply hoare_emits; unfold log; apply emits_emit; exact I |].
  intros _ _.
  eapply hoare_bind.
  { eapply hoare_weaken with (P := fun e => match e with EvDump _ _ => False | _ => True end).
    - apply retry_transfers_hoare; simpl; auto.
    - intros [] H; simpl in *; tauto.
    - intros nodes2 H2. exact (kept_alive_all_trans _ _ _ H1 H2). }
  intros nodes2 H2.
  eapply hoare_bind; [apply hoare_emits; apply emits_emit; exact H2 |].
  intros _ _. apply hoare_ret. exact H2.
Qed.

Lemma kept_alive_all_refl (nodes : list Node) : Forall2 kept_alive nodes nodes.
Proof. induction nodes; constructor; auto using kept_alive_refl. Qed.

Lemma retry_loop_hoare (n : nat) (nodes : list Node) :
  hoare (dump_ok nodes) (Forall2 kept_alive nodes) (retry_loop env n nodes).
Proof.
  revert nodes. induction n as [| n IH]; intros nodes; simpl.
  - apply hoare_ret. apply kept_alive_all_refl.
  - eapply hoare_bind; [apply retry_cycle_hoare |].
    intros nodes1 H1. eapply hoare_weaken; [apply IH | |].
    + intros e. apply dump_ok_trans. exact H1.
    + intros nodes2. apply kept_alive_all_trans. exact H1.
Qed.
End Program.

(** C9: through any number of retry cycles, every node that is alive
    stays alive, in the list the loop holds and in every snapshot it
    writes to node_states.json (also when the loop is cut by an
    exception); and the re-probe of a cycle pings only nodes that are not
    alive. *)
Theorem alive_is_never_demoted (env : oracle) (n : nat) (nodes : list Node) (w : world) :
  (exists l,
     fst (retry_loop env n nodes w) = w ++ l /\
     Forall (dump_ok nodes) l /\
     forall nodes', snd (retry_loop env n nodes w) = Ret nodes' ->
                    Forall2 kept_alive nodes nodes') /\
  (exists l,
     fst (ping_dead_nodes env nodes w) = w ++ l /\
     Forall (probes_dead nodes) l).
Proof.
  split.
  - destruct (retry_loop_hoare env n nodes w) as (l & Hl & Hd & Hr). eauto.
  - destruct (ping_dead_nodes_hoare env (probes_dead nodes) nodes) with (w := w)
      as (l & Hl & Hd & _).
    + simpl. auto.
    + simpl. intros node rc Hin Hdead. eauto.
    + eauto.
Qed.

(** *** The flag [transfer_fail] *)

Lemma flag_kept_refl (l : list event) (a : Node) : flag_kept l a a.
Proof. unfold flag_kept. auto. Qed.

Lemma flag_kept_mono (l1 l l2 : list event) (a b : Node) :
  flag_kept l a b -> flag_kept (l1 ++ l ++ l2) a b.
Proof.
  unfold flag_kept. intros (Hn & Hi & Hf). repeat split; auto.
  intros Ha. destruct (Hf Ha); [auto | right; rewrite !in_app_iff; auto].
Qed.

Lemma flag_kept_trans (l1 l2 : list event) (a b c : Node) :
  flag_kept l1 a b -> flag_kept l2 b c -> flag_kept (l1 ++ l2) a c.
Proof.
  unfold flag_kept. intros (Hn1 & Hi1 & Hf1) (Hn2 & Hi2 & Hf2).
  repeat split; try congruence. intros Ha.
  destruct (Hf1 Ha) as [Hb | H]; [| right; rewrite in_app_iff; auto].
  destruct (Hf2 Hb) as [Hc | H]; [auto |].
  right. rewrite in_app_iff, <- Hi1. auto.
Qed.

Lemma flag_kept_all_mono (l1 l l2 : list event) (xs ys : list Node) :
  Forall2 (flag_kept l) xs ys -> Forall2 (flag_kept (l1 ++ l ++ l2)) xs ys.
Proof. intros H. eapply Forall2_impl; [exact H |]. intros a b. apply flag_kept_mono. Qed.

Lemma flag_kept_all_trans (l1 l2 : list event) (xs ys zs : list Node) :
  Forall2 (flag_kept l1) xs ys -> Forall2 (flag_kept l2) ys zs ->
  Forall2 (flag_kept (l1 ++ l2)) xs zs.
Proof.
  intros H12. revert zs. induction H12 as [| a b xs ys Hab _ IH]; intros zs H23.
  - inversion H23. constructor.
  - inversion H23 as [| ? c ? zs' Hbc H23']; subst.
    constructor; [eapply flag_kept_trans; eauto | auto].
Qed.

Lemma flag_kept_all_incl (l l' : list event) (xs ys : list Node) :
  Forall2 (flag_kept l) xs ys -> (forall e, In e l -> In e l') ->
  Forall2 (flag_kept l') xs ys.
Proof.
  intros H Hincl. eapply Forall2_impl; [exact H |].
  unfold flag_kept. intros a b (Hn & Hi & Hf). repeat split; auto.
  intros Ha. destruct (Hf Ha); auto.
Qed.

(** [Forall2 (flag_kept l')] from a hypothesis on a part of [l']. *)
Ltac kept_by H :=
  eapply flag_kept_all_incl; [exact H | intros ?; rewrite ?in_app_iff; simpl; tauto].

Lemma flag_kept_all_refl (l : list event) (xs : list Node) : Forall2 (flag_kept l) xs xs.
Proof. induction xs; constructor; auto using flag_kept_refl. Qed.

Section Flags.
Variable env : oracle.

Lemma queue_log_emits_any (message : string) (args : list log_arg) :
  emits (fun _ => True) (log message args).
Proof. unfold log. repeat emits_step. exact I. Qed.

Lemma queue_ping_emits_any (ip : string) : emits (fun _ => True) (ping_latency env ip 3).
Proof. apply queue_ping_latency_emits. auto. Qed.

(** The copy returns [True] only when rsync exited with 0. *)
Lemma rsync_shipped_data_returns (ip hostname : string) :
  returns (rsync_shipped_data env ip hostname)
          (fun l b => b = true -> In (EvRun (rsync_argv ip) 0) l).
Proof.
  unfold rsync_shipped_data. cbv zeta.
  apply returns_skip; [repeat emits_step; exact I | intros _].
  apply returns_try_except.
  - eapply returns_bind; [apply returns_check_output |]. intros l1 out ->.
    apply returns_skip; [apply queue_log_emits_any | intros _].
    apply returns_ret. intros. in_app.
  - intros [] h [= <-].
    apply returns_skip; [apply queue_log_emits_any | intros _].
    apply returns_ret. intros. discriminate.
Qed.

Lemma for_nodes_returns (body : Node -> M Node) (nodes : list Node) :
  (forall node, returns (body node) (fun l node' => flag_kept l node node')) ->
  returns (for_nodes body nodes) (fun l nodes' => Forall2 (flag_kept l) nodes nodes').
Proof.
  intros Hbody. induction nodes as [| node rest IH]; simpl.
  - apply returns_ret. constructor.
  - eapply returns_bind; [apply Hbody |]. intros l1 node' H1.
    eapply returns_bind; [apply IH |]. intros l2 rest' H2.
    apply returns_ret. constructor.
    + apply (flag_kept_mono [] l1 (l2 ++ [])). exact H1.
    + apply (flag_kept_all_mono l1 l2 []). exact H2.
Qed.

Lemma ping_nodes_returns (nodes : list Node) :
  returns (ping_nodes env nodes) (fun l nodes' => Forall2 (flag_kept l) nodes nodes').
Proof.
  unfold ping_nodes. apply for_nodes_returns. intros node.
  apply returns_skip; [apply queue_ping_emits_any | intros latency].
  destruct latency; (apply returns_skip; [apply queue_log_emits_any | intros _]);
    apply returns_ret; intros; unfold flag_kept, set_state; simpl; auto.
Qed.

Lemma ping_dead_nodes_returns (nodes : list Node) :
  returns (ping_dead_nodes env nodes) (fun l nodes' => Forall2 (flag_kept l) nodes nodes').
Proof.
  unfold ping_dead_nodes. apply for_nodes_returns. intros node.
  destruct (negb (String.eqb (state node) "alive")).
  - apply returns_skip; [apply queue_ping_emits_any | intros latency].
    destruct latency.
    + apply returns_skip; [apply queue_log_emits_any | intros _].
      apply returns_ret; intros; unfold flag_kept, set_state; simpl; auto.
    + apply returns_ret. intros. apply flag_kept_refl.
  - apply returns_ret. apply flag_kept_refl.
Qed.

Lemma initial_pass_returns (nodes : list Node) :
  returns (initial_pass env nodes) (fun l nodes' => Forall2 (flag_kept l) nodes nodes').
Proof.
  unfold initial_pass.
  apply returns_skip; [apply queue_log_emits_any | intros _].
  eapply returns_bind; [apply ping_nodes_returns |]. intros l1 nodes1 H1.
  apply returns_skip; [unfold save_nodes; repeat emits_step; exact I | intros _].
  apply returns_skip; [apply queue_log_emits_any | intros _].
  eapply returns_bind.
  { apply for_nodes_returns. intros node.
    apply returns_skip; [apply queue_log_emits_any | intros _].
    destruct (String.eqb (state node) "alive" && negb (transfer_fail node)).
    - apply returns_skip; [eapply does_mono; [apply rsync_shipped_data_returns |];
                           simpl; intros; apply Forall_forall; auto | intros success].
      apply returns_skip; [apply queue_log_emits_any | intros _].
      destruct success; simpl.
      + apply returns_ret. intros. apply flag_kept_refl.
      + apply returns_skip; [apply queue_log_emits_any | intros _].
        apply returns_ret. intros. unfold flag_kept, set_transfer_fail. simpl. auto.
    - apply returns_ret. intros. apply flag_kept_refl. }
  intros l2 nodes2 H2.
  apply returns_skip; [unfold save_nodes; repeat emits_step; exact I | intros _].
  apply returns_ret. intros.
  pose proof (flag_kept_all_trans _ _ _ _ _ H1 H2) as H. kept_by H.
Qed.

Lemma retry_cycle_returns (nodes : list Node) :
  returns (retry_cycle env nodes) (fun l nodes' => Forall2 (flag_kept l) nodes nodes').
Proof.
  unfold retry_cycle.
  apply returns_skip; [apply queue_log_emits_any | intros _].
  apply returns_skip; [repeat emits_step; exact I | intros _].
  eapply returns_bind; [apply ping_dead_nodes_returns |]. intros l1 nodes1 H1.
  apply returns_skip; [unfold save_nodes; repeat emits_step; exact I | intros _].
  apply returns_skip; [apply queue_log_emits_any | intros _].
  eapply returns_bind.
  { apply for_nodes_returns. intros node.
    apply returns_skip; [apply queue_log_emits_any | intros _].
    destruct (String.eqb (state node) "alive" && transfer_fail node).
    - eapply returns_bind; [apply rsync_shipped_data_returns |]. intros l2 success Hs.
      apply returns_skip; [apply queue_log_emits_any | intros _].
      destruct success.
      + specialize (Hs eq_refl).
        apply returns_skip; [apply queue_log_emits_any | intros _].
        apply returns_ret. intros. unfold flag_kept, set_transfer_fail. simpl.
        repeat split. intros _. right. rewrite ?in_app_iff. tauto.
      + apply returns_ret. intros. apply flag_kept_refl.
    - apply returns_ret. intros. apply flag_kept_refl. }
  intros l2 nodes2 H2.
  apply returns_skip; [unfold save_nodes; repeat emits_step; exact I | intros _].
  apply returns_ret. intros.
  pose proof (flag_kept_all_trans _ _ _ _ _ H1 H2) as H. kept_by H.
Qed.

Lemma retry_loop_returns (n : nat) (nodes : list Node) :
  returns (retry_loop env n nodes) (fun l nodes' => Forall2 (flag_kept l) nodes nodes').
Proof.
  revert nodes. induction n as [| n IH]; intros nodes; simpl.
  - apply returns_ret. apply flag_kept_all_refl.
  - eapply returns_bind; [apply retry_cycle_returns |]. intros l1 nodes1 H1.
    eapply returns_mono; [apply IH |]. cbv beta. intros l2 nodes2 H2.
    apply (flag_kept_all_trans _ _ _ _ _ H1 H2).
Qed.

Lemma main_returns (n : nat) (nodes : list Node) :
  returns (main env n nodes) (fun l nodes' => Forall2 (flag_kept l) nodes nodes').
Proof.
  unfold main.
  eapply returns_bind; [apply initial_pass_returns |]. intros l1 nodes1 H1.
  eapply returns_mono; [apply retry_loop_returns |]. cbv beta. intros l2 nodes2 H2.
  apply (flag_kept_all_trans _ _ _ _ _ H1 H2).
Qed.
End Flags.

End QueueProps.


(** ** The BEAM supervisor package *)

Module BeamProps.
Import Py World Logic Rules Beam BeamSpec.
Local Open Scope py_scope.

Lemma flags_kept_refl (config : config) (state : gmap string node_state) (l : list event) :
  flags_kept config state l state.
Proof. intros name H. auto. Qed.

Lemma copied_app_l (config : config) (name : string) (l1 l2 : list event) :
  copied config name l1 -> copied config name (l1 ++ l2).
Proof. intros [ip H]. exists ip. apply in_or_app. auto. Qed.

Lemma copied_app_r (config : config) (name : string) (l1 l2 : list event) :
  copied config name l2 -> copied config name (l1 ++ l2).
Proof. intros [ip H]. exists ip. apply in_or_app. auto. Qed.

Lemma flags_kept_trans (config : config) (s0 s1 s2 : gmap string node_state)
    (l1 l2 : list event) :
  flags_kept config s0 l1 s1 -> flags_kept config s1 l2 s2 ->
  flags_kept config s0 (l1 ++ l2) s2.
Proof.
  intros H1 H2 name H0. destruct (H1 name H0) as [H | H].
  - destruct (H2 name H) as [H' | H']; [auto | right; apply copied_app_r; exact H'].
  - right. apply copied_app_l. exact H.
Qed.

Lemma flags_kept_app_l (config : config) (s0 s1 : gmap string node_state) (l1 l2 : list event) :
  flags_kept config s0 l2 s1 -> flags_kept config s0 (l1 ++ l2) s1.
Proof.
  intros H name H0. destruct (H name H0); [auto | right; apply copied_app_r; assumption].
Qed.

(** An update of another field leaves every flag as it is. *)
Lemma update_flag_same (f : node_state -> node_state) (state state' : gmap string node_state)
    (name n : string) :
  update f state name = Ret state' ->
  (forall r, fail_to_request_data (f r) = fail_to_request_data r) ->
  flag state' n = flag state n.
Proof.
  unfold update, flag. destruct (state !! name) as [r |] eqn:E; [| discriminate].
  intros [= <-] Hf. destruct (decide (name = n)) as [-> | Hne].
  - rewrite lookup_insert_eq, E. apply Hf.
  - rewrite lookup_insert_ne by exact Hne. reflexivity.
Qed.

(** Setting the flag of [name] leaves the flags of the other nodes. *)
Lemma update_flag_set (b : bool) (state state' : gmap string node_state) (name n : string) :
  update (set_fail_to_request_data b) state name = Ret state' ->
  flag state' n = if decide (name = n) then Some b else flag state n.
Proof.
  unfold update, flag. destruct (state !! name) as [r |] eqn:E; [| discriminate].
  intros [= <-]. destruct (decide (name = n)) as [-> | Hne].
  - rewrite lookup_insert_eq. reflexivity.
  - rewrite lookup_insert_ne by exact Hne. reflexivity.
Qed.

Ltac emits_any := unfold save_json, log, ping; repeat emits_step; try exact I; auto.

Section Program.
Variable env : oracle.

Lemma log_emits_any (msg : string) (args : list log_arg) (lf : string) :
  emits (fun _ => True) (log msg args lf).
Proof. unfold log. emits_any. Qed.

Lemma ping_emits_any (ip : string) : emits (fun _ => True) (ping env ip).
Proof. unfold ping. emits_any. Qed.

(** [rsync_data] returns [True] only after a copy that exited with 0. *)
Lemma daily_rsync_attempts_returns (attempts : list Z) (name : string) (cmd : list string)
    (config : config) (lf : string) (delay : Z) :
  returns (TransferWithRetry.rsync_attempts env attempts name cmd config lf delay)
          (fun l b => b = true -> In (EvRun cmd 0) l).
Proof.
  revert delay. induction attempts as [| attempt rest IH]; intros delay; simpl.
  - apply returns_ret. discriminate.
  - apply returns_skip; [apply log_emits_any | intros _].
    eapply returns_bind with (Q1 := fun l r => l = [EvRun cmd (returncode r)]).
    { apply does_subprocess_run. intros t. destruct (proc env t cmd) as [[rc out] err].
      intros a [= <-]. reflexivity. }
    intros l1 result ->. destruct (Z.eqb_spec (returncode result) 0) as [E | E].
    + apply returns_skip; [apply log_emits_any | intros _].
      apply returns_ret. intros. rewrite E. in_app.
    + apply returns_skip; [apply log_emits_any | intros _].
      apply returns_skip; [emits_any | intros _].
      apply returns_skip; [emits_any | intros delay'].
      eapply returns_mono; [apply IH |]. cbv beta. intros. in_app.
Qed.

Lemma daily_rsync_data_returns (ip name : string) (config : config) (lf : string) :
  returns (TransferWithRetry.rsync_data env ip name config lf)
          (fun l b => b = true -> In (EvRun (rsync_cmd ip name config) 0) l).
Proof.
  unfold TransferWithRetry.rsync_data.
  apply returns_skip; [emits_any | intros _].
  eapply returns_mono; [apply daily_rsync_attempts_returns |].
  cbv beta. intros. in_app.
Qed.

Lemma check_rsync_attempts_returns (attempts : list Z) (name : string) (cmd : list string)
    (config : config) (lf : string) (delay : Z) :
  returns (SupervisorPingCheck.rsync_attempts env attempts name cmd config lf delay)
          (fun l b => b = true -> In (EvRun cmd 0) l).
Proof.
  revert delay. induction attempts as [| attempt rest IH]; intros delay; simpl.
  - apply returns_ret. discriminate.
  - apply returns_skip; [apply log_emits_any | intros _].
    eapply returns_bind with (Q1 := fun l r => l = [EvRun cmd (returncode r)]).
    { apply does_subprocess_run. intros t. destruct (proc env t cmd) as [[rc out] err].
      intros a [= <-]. reflexivity. }
    intros l1 result ->. destruct (Z.eqb_spec (returncode result) 0) as [E | E].
    + apply returns_skip; [apply log_emits_any | intros _].
      apply returns_ret. intros. rewrite E. in_app.
    + apply returns_skip; [emits_any | intros _].
      apply returns_skip; [emits_any | intros delay'].
      eapply returns_mono; [apply IH |]. cbv beta. intros. in_app.
Qed.

Lemma check_rsync_data_returns (ip name : string) (config : config) (lf : string) :
  returns (SupervisorPingCheck.rsync_data env ip name config lf)
          (fun l b => b = true -> In (EvRun (rsync_cmd ip name config) 0) l).
Proof.
  unfold SupervisorPingCheck.rsync_data.
  apply returns_skip; [emits_any | intros _].
  eapply returns_mono; [apply check_rsync_attempts_returns |].
  cbv beta. intros. in_app.
Qed.
End Program.

Section Mains.
Variable env : oracle.

Lemma returns_update (f : node_state -> node_state) (state : gmap string node_state)
    (name : string) :
  returns (lift (update f state name))
          (fun l state' => l = [] /\ update f state name = Ret state').
Proof. apply returns_lift. auto. Qed.

(** The catch-up of a node clears its flag only after a successful copy. *)
Lemma catch_up_returns (config : config) (lf name : string) (info : node_info)
    (state : gmap string node_state) :
  returns (SupervisorPingCheck.catch_up env config lf name info state)
          (flags_kept config state).
Proof.
  unfold SupervisorPingCheck.catch_up.
  apply returns_skip; [emits_any | intros failed].
  apply returns_skip; [emits_any | intros due].
  destruct due.
  - apply returns_skip; [apply log_emits_any | intros _].
    apply returns_skip; [emits_any | intros ip].
    eapply returns_bind; [apply check_rsync_data_returns |].
    intros l1 success Hs. destruct success.
    + specialize (Hs eq_refl).
      eapply returns_bind; [apply returns_update |].
      intros l2 state' [-> Hup].
      apply returns_skip; [apply log_emits_any | intros _].
      apply returns_ret. intros. intros n Hn.
      rewrite (update_flag_set _ _ _ _ n Hup). case_decide.
      * right. subst n. exists ip. in_app.
      * left. exact Hn.
    + apply returns_ret. intros. apply flags_kept_refl.
  - apply returns_ret. intros. apply flags_kept_refl.
Qed.

Lemma catch_up_all_returns (config : config) (lf : string) (items : list (string * node_info))
    (state : gmap string node_state) :
  returns (SupervisorPingCheck.catch_up_all env config lf items state)
          (flags_kept config state).
Proof.
  revert state. induction items as [| [name info] rest IH]; intros state; simpl.
  - apply returns_ret. apply flags_kept_refl.
  - eapply returns_bind; [apply catch_up_returns |].
    intros l1 state1 H1. eapply returns_mono; [apply IH |].
    cbv beta. intros l2 state2 H2. eapply flags_kept_trans; eauto.
Qed.

(** The health check of a node touches no flag. *)
Lemma probe_returns (lf name : string) (info : node_info) (state : gmap string node_state) :
  returns (SupervisorPingCheck.probe env lf name info state)
          (fun _ state' => forall n, flag state' n = flag state n).
Proof.
  unfold SupervisorPingCheck.probe.
  apply returns_skip; [emits_any | intros ip].
  apply returns_skip; [apply ping_emits_any | intros is_alive].
  apply returns_skip; [emits_any | intros came_online].
  eapply returns_bind with (Q1 := fun _ state1 => forall n, flag state1 n = flag state n).
  { destruct came_online.
    - eapply returns_bind; [apply returns_update |]. intros l1 s1 [-> H1].
      apply returns_skip; [emits_any | intros now].
      eapply returns_bind; [apply returns_update |]. intros l2 s2 [-> H2].
      apply returns_skip; [apply log_emits_any | intros _].
      apply returns_ret. intros. 
      rewrite (update_flag_same _ _ _ _ n H2 (fun r => eq_refl)).
      apply (update_flag_same _ _ _ _ n H1 (fun r => eq_refl)).
    - apply returns_ret. auto. }
  intros l1 state1 Hs1.
  apply returns_skip; [emits_any | intros went_offline].
  destruct went_offline.
  - eapply returns_bind; [apply returns_update |]. intros l2 s2 [-> H2].
    apply returns_skip; [emits_any | intros now].
    eapply returns_bind; [apply returns_update |]. intros l3 s3 [-> H3].
    apply returns_skip; [apply log_emits_any | intros _].
    apply returns_ret. intros.
    rewrite (update_flag_same _ _ _ _ n H3 (fun r => eq_refl)).
    rewrite (update_flag_same _ _ _ _ n H2 (fun r => eq_refl)). apply Hs1.
  - apply returns_ret. intros. apply Hs1.
Qed.

Lemma probe_all_returns (lf : string) (items : list (string * node_info))
    (state : gmap string node_state) :
  returns (SupervisorPingCheck.probe_all env lf items state)
          (fun _ state' => forall n, flag state' n = flag state n).
Proof.
  revert state. induction items as [| [name info] rest IH]; intros state; simpl.
  - apply returns_ret. auto.
  - eapply returns_bind; [apply probe_returns |].
    intros l1 state1 H1. eapply returns_mono; [apply IH |].
    cbv beta. intros l2 state2 H2 n. rewrite H2. apply H1.
Qed.

Lemma check_main_returns (config : config) (state : gmap string node_state) :
  returns (SupervisorPingCheck.main env config state) (flags_kept config state).
Proof.
  unfold SupervisorPingCheck.main. cbv zeta.
  apply returns_skip; [apply log_emits_any | intros _].
  eapply returns_bind; [apply probe_all_returns |]. intros l1 state1 H1.
  eapply returns_bind; [apply catch_up_all_returns |]. intros l2 state2 H2.
  apply returns_skip; [emits_any | intros _].
  apply returns_skip; [apply log_emits_any | intros _].
  apply returns_ret. intros. intros n Hn.
  rewrite <- H1 in Hn. destruct (H2 n Hn) as [H | [ip H]]; [auto |].
  right. exists ip. in_app.
Qed.

(** The daily visit of a node clears its flag only after a successful
    copy. *)
Lemma visit_returns (config : config) (lf name : string) (info : node_info)
    (state : gmap string node_state) :
  returns (TransferWithRetry.visit env config lf name info state)
          (flags_kept config state).
Proof.
  unfold TransferWithRetry.visit.
  apply returns_skip; [emits_any | intros ip].
  apply returns_skip; [apply ping_emits_any | intros alive].
  destruct alive; simpl.
  - eapply returns_bind; [apply daily_rsync_data_returns |].
    intros l1 success Hs. destruct success.
    + specialize (Hs eq_refl).
      eapply returns_bind; [apply returns_update |]. intros l2 s2 [-> H2].
      apply returns_skip; [apply log_emits_any | intros _].
      apply returns_ret. intros. intros n Hn.
      rewrite (update_flag_set _ _ _ _ n H2). case_decide.
      * right. subst n. exists ip. in_app.
      * left. exact Hn.
    + eapply returns_bind; [apply returns_update |]. intros l2 s2 [-> H2].
      apply returns_skip; [emits_any | intros now].
      eapply returns_bind; [apply returns_update |]. intros l3 s3 [-> H3].
      apply returns_skip; [apply log_emits_any | intros _].
      apply returns_ret. intros. intros n Hn. left.
      rewrite (update_flag_same _ _ _ _ n H3 (fun r => eq_refl)).
      rewrite (update_flag_set _ _ _ _ n H2). case_decide; [reflexivity | exact Hn].
  - apply returns_skip; [apply log_emits_any | intros _].
    eapply returns_bind; [apply returns_update |]. intros l2 s2 [-> H2].
    apply returns_skip; [emits_any | intros now].
    eapply returns_mono; [apply returns_update |].
    cbv beta. intros l3 s3 [-> H3]. intros. intros n Hn. left.
    rewrite (update_flag_same _ _ _ _ n H3 (fun r => eq_refl)).
    rewrite (update_flag_same _ _ _ _ n H2 (fun r => eq_refl)). exact Hn.
Qed.

Lemma visit_all_returns (config : config) (lf : string) (items : list (string * node_info))
    (state : gmap string node_state) :
  returns (TransferWithRetry.visit_all env config lf items state)
          (flags_kept config state).
Proof.
  revert state. induction items as [| [name info] rest IH]; intros state; simpl.
  - apply returns_ret. apply flags_kept_refl.
  - eapply returns_bind; [apply visit_returns |].
    intros l1 state1 H1. eapply returns_mono; [apply IH |].
    cbv beta. intros l2 state2 H2. eapply flags_kept_trans; eauto.
Qed.

Lemma daily_main_returns (config : config) (state : gmap string node_state) :
  returns (TransferWithRetry.main env config state) (flags_kept config state).
Proof.
  unfold TransferWithRetry.main. cbv zeta.
  apply returns_skip; [apply log_emits_any | intros _].
  eapply returns_bind; [apply visit_all_returns |]. intros l1 state1 H1.
  apply returns_skip; [emits_any | intros _].
  apply returns_skip; [apply log_emits_any | intros _].
  apply returns_ret. intros. intros n Hn.
  destruct (H1 n Hn) as [H | [ip H]]; [auto |].
  right. exists ip. in_app.
Qed.
End Mains.

End BeamProps.


(** ** The flag of a failed transfer, across the components *)

Module FlagProps.
Import Py World Logic Rules.

(** C5: in every run of the health check, of the daily run and of the
    always-running queue (its first pass and any number of retry cycles),
    a node whose transfer-failed flag is set at the start still has it set
    at the end, unless the run holds a copy from that node that exited
    with 0: no probe, no change of health and no failed copy clears it. *)
Theorem flag_cleared_only_by_successful_copy :
  (forall env config state w, exists l,
     fst (Beam.SupervisorPingCheck.main env config state w) = w ++ l /\
     forall state', snd (Beam.SupervisorPingCheck.main env config state w) = Ret state' ->
                    BeamSpec.flags_kept config state l state') /\
  (forall env config state w, exists l,
     fst (Beam.TransferWithRetry.main env config state w) = w ++ l /\
     forall state', snd (Beam.TransferWithRetry.main env config state w) = Ret state' ->
                    BeamSpec.flags_kept config state l state') /\
  (forall env n nodes w, exists l,
     fst (QueueShippedData.main env n nodes w) = w ++ l /\
     forall nodes', snd (QueueShippedData.main env n nodes w) = Ret nodes' ->
                    Forall2 (QueueSpec.flag_kept l) nodes nodes').
Proof.
  split; [| split].
  - intros env config state w. apply BeamProps.check_main_returns.
  - intros env config state w. apply BeamProps.daily_main_returns.
  - intros env n nodes w. apply QueueProps.main_returns.
Qed.

End FlagProps.


(** ** The heartbeat gate, across the components *)

Module GateProps.
Import Py World Logic Rules Examples.






End GateProps.


(** ** What the probes read in the output of ping *)

Module ProbeParsing.
Import Py World Logic Rules PyFacts TransferWithRetry.




















End ProbeParsing.


(** ** What a call of a transfer engine did *)

Module EngineProps.
Import Py World Logic Rules PyFacts EngineSpec.
Local Open Scope py_scope.

Lemma exits_app (cmd : list string) (w l : world) :
  exits cmd (w ++ l) = exits cmd w ++ exits cmd l.
Proof. apply omap_app. Qed.

Lemma aside_exits (cmd : list string) (l : list event) :
  Forall (aside cmd) l -> exits cmd l = [] /\ sleeps l = [].
Proof.
  induction 1 as [| e l He _ [IH1 IH2]]; [split; reflexivity |].
  unfold exits, sleeps in *. destruct e; simpl in *; auto; try contradiction.
  rewrite bool_decide_false by exact He. auto.
Qed.

(** A step that neither sleeps nor runs [cmd]. *)
Lemma returns_aside {A B} (cmd : list string) (c : M A) (k : A -> M B)
    (Q : list Z -> list Z -> B -> Prop) :
  emits (aside cmd) c ->
  (forall a, returns (k a) (fun l b => Q (exits cmd l) (sleeps l) b)) ->
  returns (bind c k) (fun l b => Q (exits cmd l) (sleeps l) b).
Proof.
  intros Hc Hk. eapply returns_bind; [apply returns_of_emits; exact Hc |].
  intros l1 a H1. eapply returns_mono; [apply Hk |]. cbv beta. intros l2 b H2.
  destruct (aside_exits cmd l1 H1) as [E S].
  rewrite exits_app, TransferWithRetryProps.sleeps_app, E, S. exact H2.
Qed.

Import TransferWithRetry.

Ltac aside := unfold log, ping_latency; repeat emits_step; simpl; auto; try discriminate.

Lemma rsync_attempts_outcome env (fuel : nat) (ip hostname : string) (cmd : list string)
    (max_retries : Z) (bf : float) (lf : string) (attempt delay : Z) :
  cmd <> ["ping"; "-c"; "3"; "-W"; "1"; ip] ->
  returns (rsync_attempts env fuel ip hostname cmd max_retries bf lf attempt delay)
          (fun l b => attempts_spec max_retries bf attempt delay (exits cmd l) (sleeps l) b).
Proof.
  intros Hcmd. revert attempt delay.
  assert (Hend : forall attempt delay, max_retries < attempt ->
            returns (log "Failed to sync data from {} after {} attempts."
                         [AStr hostname; AInt max_retries] lf ;; ret false)%py
                    (fun l b => attempts_spec max_retries bf attempt delay
                                              (exits cmd l) (sleeps l) b)).
  { intros attempt delay H.
    apply (returns_aside cmd _ _ (attempts_spec max_retries bf attempt delay)); [aside | intros _].
    apply returns_ret. exists []. simpl.
    replace (Z.to_nat (max_retries + 1 - attempt)) with O by lia. auto. }
  induction fuel as [| fuel IH]; intros attempt delay; simpl.
  - destruct (Z.leb_spec attempt max_retries); [| apply Hend; assumption].
    intros w. exists []. rewrite app_nil_r. split; [reflexivity | discriminate].
  - destruct (Z.leb_spec attempt max_retries); [| apply Hend; assumption].
    apply (returns_aside cmd _ _ (attempts_spec max_retries bf attempt delay)); [aside | intros _].
    eapply returns_bind with
      (Q1 := fun l r => exits cmd l = [returncode r] /\ sleeps l = []).
    { apply does_subprocess_run. intros t.
      destruct (proc env t cmd) as [[rc out] err]. intros a [= <-].
      unfold exits. simpl. rewrite bool_decide_true by reflexivity. auto. }
    intros l1 result [Hc1 Hs1].
    destruct (Z.eqb_spec (returncode result) 0) as [Hrc | Hrc].
    + eapply returns_mono.
      * apply (returns_aside cmd _ _ (fun c s b => c = [] /\ s = [] /\ b = true)); [aside | intros _].
        apply returns_ret. auto.
      * cbv beta. intros l2 b (Hc2 & Hs2 & ->).
        rewrite exits_app, TransferWithRetryProps.sleeps_app, Hc1, Hs1, Hc2, Hs2, Hrc.
        exists []. simpl. split; [constructor |]. split; [reflexivity |]. split; [lia | reflexivity].
    + cut (returns
           (log "Rsync failed for {} (code {}). stdout: {} stderr: {}"
                [AStr hostname; AInt (returncode result); AStr (strip (stdout result));
                 AStr (strip (stderr result))] lf ;;
            latency <- ping_latency env ip 3 ;;
            match latency with
            | Some l0 => log "Node {} ({}) reachable, avg latency {:.2f} ms."
                             [AStr hostname; AStr ip; AFloat l0] lf
            | None => log "Node {} ({}) unreachable (ping failed)."
                          [AStr hostname; AStr ip] lf
            end ;;
            delay' <-
              (if attempt <? max_retries
               then log "Retrying in {} seconds..." [AInt delay] lf ;;
                    time_sleep delay ;; lift (int_mul delay (Float bf))
               else ret delay) ;;
            rsync_attempts env fuel ip hostname cmd max_retries bf lf (attempt + 1) delay')%py
           (fun l b => retry_spec max_retries bf attempt delay (exits cmd l) (sleeps l) b)).
      { intros Hcut. eapply returns_mono; [exact Hcut |]. cbv beta.
        intros l2 b (d & n & (fails & Hf & Hc & Hn & Hs) & Hd).
        rewrite exits_app, TransferWithRetryProps.sleeps_app, Hc1, Hs1, Hc. cbn [app].
        exists (returncode result :: fails). split; [constructor; assumption |].
        split; [reflexivity |].
        destruct (Z.ltb_spec attempt max_retries) as [Hlt | Hge].
        - destruct Hd as (-> & Hfirst & Hd).
          rewrite <- (firstn_skipn 1 (sleeps l2)), Hfirst, Hs. cbn [length app].
          destruct b.
          + split; [lia |]. cbn [Trace.backoff]. rewrite Hd. reflexivity.
          + split; [lia |]. cbn [pred].
            destruct (length fails) as [| k] eqn:Hk; [lia |].
            cbn [pred Trace.backoff]. rewrite Hd. reflexivity.
        - subst n. rewrite drop_0 in Hs. rewrite Hs. cbn [length].
          destruct b; [lia |]. split; [lia |].
          replace (length fails) with O by lia. reflexivity. }
      apply (returns_aside cmd _ _ (retry_spec max_retries bf attempt delay));
        [aside | intros _].
      apply (returns_aside cmd _ _ (retry_spec max_retries bf attempt delay));
        [aside | intros latency].
      apply (returns_aside cmd _ _ (retry_spec max_retries bf attempt delay));
        [destruct latency; aside | intros _].
      unfold retry_spec.
      destruct (Z.ltb_spec attempt max_retries) as [Hlt | Hge].
      * eapply returns_bind with
          (Q1 := fun l d => exits cmd l = [] /\ sleeps l = [delay]
                            /\ int_mul delay (Float bf) = Ret d).
        { apply (returns_aside cmd _ _ (fun c s d => c = [] /\ s = [delay] /\ _));
            [aside | intros _].
          eapply returns_bind with (Q1 := fun l _ => l = [EvSleep delay]).
          - apply does_time_sleep;
              [intros _ u _; reflexivity | intros _ u Hu; discriminate
              | intros _ u Hu; discriminate].
          - intros l3 _ ->. apply returns_lift. intros d Hd. auto. }
        intros l2 d (Hc2 & Hs2 & Hd). eapply returns_mono; [apply IH |]. cbv beta.
        intros l3 b Hspec. exists d, 1%nat.
        rewrite exits_app, TransferWithRetryProps.sleeps_app, Hc2, Hs2. cbn [app skipn firstn].
        auto.
      * eapply returns_bind with (Q1 := fun l d => l = [] /\ d = delay);
          [apply returns_ret; auto |].
        intros l2 d [-> ->]. eapply returns_mono; [apply IH |]. cbv beta.
        intros l3 b Hspec. exists delay, O. cbn [app skipn]. auto.
Qed.

(** What a whole call of [rsync_data] did, when it returned. *)
Lemma rsync_data_spec (env : oracle) (ip hostname sdd rdp : string)
    (max_retries retry_delay : Z) (bf : float) (lf : string) :
  returns (rsync_data env ip hostname sdd rdp max_retries retry_delay bf lf)
          (fun l b => attempts_spec max_retries bf 1 retry_delay
                                    (exits (RunSpec.copy_cmd ip hostname sdd rdp) l)
                                    (sleeps l) b).
Proof.
  unfold rsync_data. cbv zeta.
  apply (returns_aside (RunSpec.copy_cmd ip hostname sdd rdp) _ _
                       (attempts_spec max_retries bf 1 retry_delay));
    [aside | intros _].
  apply rsync_attempts_outcome. discriminate.
Qed.

(** X4: a call of [rsync_data] of src/transfer_with_retry.py never stops
    for lack of fuel, and when it returns [b] the copies it ran are
    failures (exit codes other than 0) ended by one success exactly when
    [b] is [True]: it stops at the first copy that exits with 0, after
    fewer than [max_retries] failures, and gives up after [max_retries]
    failures. It sleeps after each failure that is followed by another
    attempt, for the delays of the backoff, and takes no other sleep. *)
Theorem rsync_data_outcome (env : oracle) (ip hostname sdd rdp : string)
    (max_retries retry_delay : Z) (bf : float) (lf : string) (w : world) :
  let cmd := RunSpec.copy_cmd ip hostname sdd rdp in
  let out := rsync_data env ip hostname sdd rdp max_retries retry_delay bf lf w in
  snd out <> OutOfFuel /\
  exists l,
    fst out = w ++ l /\
    forall b, snd out = Ret b ->
      exists fails,
        Forall (fun rc => rc <> 0) fails /\
        exits cmd l = fails ++ (if b then [0] else []) /\
        (if b then Z.of_nat (length fails) < max_retries
         else length fails = Z.to_nat max_retries) /\
        sleeps l = Trace.backoff (if b then length fails else pred (length fails))
                                 retry_delay bf.
Proof.
  intros cmd out. split; [apply TransferWithRetryProps.rsync_data_fuel |].
  destruct (rsync_data_spec env ip hostname sdd rdp max_retries retry_delay bf lf w)
    as (l & Hl & Hspec).
  exists l. split; [exact Hl |].
  intros b Hb. destruct (Hspec b Hb) as (fails & Hf & Hc & Hn & Hs).
  exists fails. repeat split; try assumption.
  destruct b; [lia |]. rewrite Hn. f_equal. lia.
Qed.

(** *** The engines of the BEAM package *)

Lemma beam_backoff_step (n : nat) (delay d : Z) (factor : num) :
  int_mul delay factor = Ret d ->
  backoff (S n) delay factor = delay :: backoff n d factor.
Proof. intros H. simpl. rewrite H. reflexivity. Qed.

Ltac beam_aside := unfold Beam.log; repeat emits_step; simpl; auto; try discriminate.

Section Beam.
Variable env : oracle.

Lemma daily_rsync_attempts_outcome (attempts : list Z) (name : string) (cmd : list string)
    (config : Beam.config) (lf : string) (delay : Z) :
  returns (Beam.TransferWithRetry.rsync_attempts env attempts name cmd config lf delay)
          (fun l b => beam_spec (length attempts) (Beam.backoff_factor config) delay
                                (exits cmd l) (sleeps l) b).
Proof.
  revert delay. induction attempts as [| attempt rest IH]; intros delay; simpl.
  - apply returns_ret. exists []. simpl. auto.
  - apply (returns_aside cmd _ _ (beam_spec _ _ _)); [beam_aside | intros _].
    eapply returns_bind with
      (Q1 := fun l r => exits cmd l = [returncode r] /\ sleeps l = []).
    { apply does_subprocess_run. intros t.
      destruct (proc env t cmd) as [[rc out] err]. intros a [= <-].
      unfold exits. simpl. rewrite bool_decide_true by reflexivity. auto. }
    intros l1 result [Hc1 Hs1].
    destruct (Z.eqb_spec (returncode result) 0) as [Hrc | Hrc].
    + eapply returns_mono.
      * apply (returns_aside cmd _ _ (fun c s b => c = [] /\ s = [] /\ b = true));
          [beam_aside | intros _].
        apply returns_ret. auto.
      * cbv beta. intros l2 b (Hc2 & Hs2 & ->).
        rewrite exits_app, TransferWithRetryProps.sleeps_app, Hc1, Hs1, Hc2, Hs2, Hrc.
        exists []. simpl. split; [constructor |]. split; [reflexivity |]. split; [lia | reflexivity].
    + eapply returns_mono.
      * apply (returns_aside cmd _ _
                 (fun c s b => exists d, int_mul delay (Beam.backoff_factor config) = Ret d /\
                                         firstn 1 s = [delay] /\
                                         beam_spec (length rest) (Beam.backoff_factor config) d
                                                   c (skipn 1 s) b));
          [beam_aside | intros _].
        eapply returns_bind with (Q1 := fun l _ => l = [EvSleep delay]).
        { apply does_time_sleep;
            [intros _ u _; reflexivity | intros _ u Hu; discriminate
            | intros _ u Hu; discriminate]. }
        intros l2 _ ->.
        eapply returns_bind with
          (Q1 := fun l d => l = [] /\ int_mul delay (Beam.backoff_factor config) = Ret d).
        { apply returns_lift. auto. }
        intros l3 d [-> Hd]. eapply returns_mono; [apply IH |]. cbv beta.
        intros l4 b Hspec. exists d. cbn [app]. auto.
      * cbv beta. intros l2 b (d & Hd & Hfirst & fails & Hf & Hc & Hn & Hs).
        rewrite exits_app, TransferWithRetryProps.sleeps_app, Hc1, Hs1, Hc. cbn [app].
        exists (returncode result :: fails). split; [constructor; assumption |].
        split; [reflexivity |].
        split; [destruct b; cbn [length]; lia |].
        rewrite <- (firstn_skipn 1 (sleeps l2)), Hfirst, Hs. cbn [length app].
        rewrite (beam_backoff_step _ _ _ _ Hd). reflexivity.
Qed.

Lemma check_rsync_attempts_outcome (attempts : list Z) (name : string) (cmd : list string)
    (config : Beam.config) (lf : string) (delay : Z) :
  returns (Beam.SupervisorPingCheck.rsync_attempts env attempts name cmd config lf delay)
          (fun l b => beam_spec (length attempts) (Beam.backoff_factor config) delay
                                (exits cmd l) (sleeps l) b).
Proof.
  revert delay. induction attempts as [| attempt rest IH]; intros delay; simpl.
  - apply returns_ret. exists []. simpl. auto.
  - apply (returns_aside cmd _ _ (beam_spec _ _ _)); [beam_aside | intros _].
    eapply returns_bind with
      (Q1 := fun l r => exits cmd l = [returncode r] /\ sleeps l = []).
    { apply does_subprocess_run. intros t.
      destruct (proc env t cmd) as [[rc out] err]. intros a [= <-].
      unfold exits. simpl. rewrite bool_decide_true by reflexivity. auto. }
    intros l1 result [Hc1 Hs1].
    destruct (Z.eqb_spec (returncode result) 0) as [Hrc | Hrc].
    + eapply returns_mono.
      * apply (returns_aside cmd _ _ (fun c s b => c = [] /\ s = [] /\ b = true));
          [beam_aside | intros _].
        apply returns_ret. auto.
      * cbv beta. intros l2 b (Hc2 & Hs2 & ->).
        rewrite exits_app, TransferWithRetryProps.sleeps_app, Hc1, Hs1, Hc2, Hs2, Hrc.
        exists []. simpl. split; [constructor |]. split; [reflexivity |]. split; [lia | reflexivity].
    + cut (returns
             (time_sleep delay ;;
              delay' <- lift (int_mul delay (Beam.backoff_factor config)) ;;
              Beam.SupervisorPingCheck.rsync_attempts env rest name cmd config lf delay')%py
             (fun l b => exists d, int_mul delay (Beam.backoff_factor config) = Ret d /\
                                   firstn 1 (sleeps l) = [delay] /\
                                   beam_spec (length rest) (Beam.backoff_factor config) d
                                             (exits cmd l) (skipn 1 (sleeps l)) b)).
      { intros Hcut. eapply returns_mono; [exact Hcut |].
        cbv beta. intros l2 b (d & Hd & Hfirst & fails & Hf & Hc & Hn & Hs).
        rewrite exits_app, TransferWithRetryProps.sleeps_app, Hc1, Hs1, Hc. cbn [app].
        exists (returncode result :: fails). split; [constructor; assumption |].
        split; [reflexivity |].
        split; [destruct b; cbn [length]; lia |].
        rewrite <- (firstn_skipn 1 (sleeps l2)), Hfirst, Hs. cbn [length app].
        rewrite (beam_backoff_step _ _ _ _ Hd). reflexivity. }
      eapply returns_bind with (Q1 := fun l _ => l = [EvSleep delay]).
      { apply does_time_sleep;
          [intros _ u _; reflexivity | intros _ u Hu; discriminate
          | intros _ u Hu; discriminate]. }
      intros l2 _ ->.
      eapply returns_bind with
        (Q1 := fun l d => l = [] /\ int_mul delay (Beam.backoff_factor config) = Ret d).
      { apply returns_lift. auto. }
      intros l3 d [-> Hd]. eapply returns_mono; [apply IH |]. cbv beta.
      intros l4 b Hspec. exists d. cbn [app]. auto.
Qed.
End Beam.


Lemma beam_attempts_length (config : Beam.config) :
  length (range 1 (Beam.max_retries config + 1)) = Z.to_nat (Beam.max_retries config).
Proof. rewrite TransferWithRetryProps.length_range. f_equal. lia. Qed.

(** What a whole call of the [rsync_data] of the daily run did, when it
    returned. *)
Lemma daily_rsync_data_spec (env : oracle) (ip name : string) (config : Beam.config)
    (lf : string) :
  returns (Beam.TransferWithRetry.rsync_data env ip name config lf)
          (fun l b => beam_spec (Z.to_nat (Beam.max_retries config))
                                (Beam.backoff_factor config) (Beam.retry_delay config)
                                (exits (Beam.rsync_cmd ip name config) l) (sleeps l) b).
Proof.
  unfold Beam.TransferWithRetry.rsync_data.
  apply (returns_aside (Beam.rsync_cmd ip name config) _ _ (beam_spec _ _ _));
    [beam_aside | intros _].
  rewrite <- beam_attempts_length. apply daily_rsync_attempts_outcome.
Qed.

(** The same for the [rsync_data] of the health check. *)
Lemma check_rsync_data_spec (env : oracle) (ip name : string) (config : Beam.config)
    (lf : string) :
  returns (Beam.SupervisorPingCheck.rsync_data env ip name config lf)
          (fun l b => beam_spec (Z.to_nat (Beam.max_retries config))
                                (Beam.backoff_factor config) (Beam.retry_delay config)
                                (exits (Beam.rsync_cmd ip name config) l) (sleeps l) b).
Proof.
  unfold Beam.SupervisorPingCheck.rsync_data.
  apply (returns_aside (Beam.rsync_cmd ip name config) _ _ (beam_spec _ _ _));
    [beam_aside | intros _].
  rewrite <- beam_attempts_length. apply check_rsync_attempts_outcome.
Qed.

(** X5: when a call of [rsync_data] of the BEAM package (that of the
    daily run and that of the health check) returns [b], the copies it ran
    are failures ended by one success exactly when [b] is [True]: it
    stops at the first copy that exits with 0 and gives up after
    [max_retries] failures; it sleeps after every failure, also the last
    one, for the delays of the backoff, and takes no other sleep. *)
Theorem beam_engines_outcome (env : oracle) (ip name : string) (config : Beam.config)
    (lf : string) (w : world) :
  let cmd := Beam.rsync_cmd ip name config in
  let spec := beam_spec (Z.to_nat (Beam.max_retries config)) (Beam.backoff_factor config)
                        (Beam.retry_delay config) in
  (exists l,
     fst (Beam.TransferWithRetry.rsync_data env ip name config lf w) = w ++ l /\
     forall b, snd (Beam.TransferWithRetry.rsync_data env ip name config lf w) = Ret b ->
               spec (exits cmd l) (sleeps l) b) /\
  (exists l,
     fst (Beam.SupervisorPingCheck.rsync_data env ip name config lf w) = w ++ l /\
     forall b, snd (Beam.SupervisorPingCheck.rsync_data env ip name config lf w) = Ret b ->
               spec (exits cmd l) (sleeps l) b).
Proof.
  intros cmd spec. split.
  - apply daily_rsync_data_spec.
  - apply check_rsync_data_spec.
Qed.

End EngineProps.


(** ** A whole run of src/transfer_with_retry.py *)

Module RunProps.
Import Py World Logic Rules PyFacts EngineSpec TransferWithRetry RunSpec.
Local Open Scope py_scope.

Lemma exits_In (cmd : list string) (rc : Z) (l : list event) :
  In rc (exits cmd l) -> In (EvRun cmd rc) l.
Proof.
  induction l as [| e l IH]; [contradiction |].
  unfold exits in *. destruct e as [| | argv rc' | |]; simpl; auto.
  case_bool_decide as E; simpl; [| auto].
  intros [<- | H]; [subst argv; auto | auto].
Qed.

Lemma rsync_data_success env (ip hostname sdd rdp : string) (max_retries retry_delay : Z)
    (bf : float) (lf : string) :
  returns (rsync_data env ip hostname sdd rdp max_retries retry_delay bf lf)
          (fun l b => b = true -> In (EvRun (copy_cmd ip hostname sdd rdp) 0) l).
Proof.
  eapply returns_mono; [apply EngineProps.rsync_data_spec |]. cbv beta.
  intros l b (fails & _ & Hc & _) ->.
  apply exits_In. rewrite Hc. apply in_or_app. simpl. auto.
Qed.

Lemma synced_app_l cfg sdd rdp name (l1 l2 : list event) :
  synced cfg sdd rdp name l1 -> synced cfg sdd rdp name (l1 ++ l2).
Proof. intros (ip & H & Hin). exists ip. split; [exact H | apply in_or_app; auto]. Qed.

Lemma synced_app_r cfg sdd rdp name (l1 l2 : list event) :
  synced cfg sdd rdp name l2 -> synced cfg sdd rdp name (l1 ++ l2).
Proof. intros (ip & H & Hin). exists ip. split; [exact H | apply in_or_app; auto]. Qed.

Lemma accounted_refl cfg sdd rdp remaining l : accounted cfg sdd rdp remaining l remaining.
Proof. intros n H. auto. Qed.

Lemma accounted_trans cfg sdd rdp r0 r1 r2 (l1 l2 : list event) :
  accounted cfg sdd rdp r0 l1 r1 -> accounted cfg sdd rdp r1 l2 r2 ->
  accounted cfg sdd rdp r0 (l1 ++ l2) r2.
Proof.
  intros H1 H2 n Hn. destruct (H1 n Hn) as [H | H].
  - destruct (H2 n H) as [H' | H']; [auto | right; apply synced_app_r; exact H'].
  - right. apply synced_app_l. exact H.
Qed.

Lemma accounted_app_l cfg sdd rdp r0 r1 (l1 l2 : list event) :
  accounted cfg sdd rdp r0 l2 r1 -> accounted cfg sdd rdp r0 (l1 ++ l2) r1.
Proof. intros H n Hn. destruct (H n Hn); [auto | right; apply synced_app_r; assumption]. Qed.

Lemma accounted_app_r cfg sdd rdp r0 r1 (l1 l2 : list event) :
  accounted cfg sdd rdp r0 l1 r1 -> accounted cfg sdd rdp r0 (l1 ++ l2) r1.
Proof. intros H n Hn. destruct (H n Hn); [auto | right; apply synced_app_l; assumption]. Qed.

Ltac any := unfold log; repeat emits_step; try exact I; auto.

(** From [H], which accounts for the nodes through a part of the events. *)
Ltac accounted_by H :=
  let n := fresh "n" in
  let Hn := fresh "Hn" in
  let ip := fresh "ip" in
  let Hip := fresh "Hip" in
  let Hin := fresh "Hin" in
  intros; intros n Hn; destruct (H n Hn) as [Hin | (ip & Hip & Hin)];
  [left; exact Hin
  | right; exists ip; split; [exact Hip | rewrite ?in_app_iff; tauto]].

Section Run.
Variable env : oracle.
Variable nodes_cfg : list (string * node_info).
Variables log_file supervisor_data_dir remote_data_path heartbeat_dir : string.
Variables heartbeat_max_age max_retries retry_delay max_cycles cycle_delay : Z.
Variable backoff_factor : float.

Let acc := accounted nodes_cfg supervisor_data_dir remote_data_path.

Lemma transfer_all_accounts (sorted_nodes : list (string * (Z * float))) (remaining : list string) :
  returns (transfer_all env nodes_cfg log_file supervisor_data_dir remote_data_path
                        max_retries retry_delay backoff_factor sorted_nodes remaining)
          (fun l remaining' => acc remaining l remaining').
Proof.
  revert remaining.
  induction sorted_nodes as [| [name [priority latency]] rest IH]; intros remaining; simpl.
  - apply returns_ret. apply accounted_refl.
  - eapply returns_bind with (Q1 := fun l ip => l = [] /\ node_ip nodes_cfg name = Ret ip).
    { apply returns_lift. auto. }
    intros l0 ip [-> Hip]. cbn [app].
    cut (returns
           (success <- rsync_data env ip name supervisor_data_dir remote_data_path
                                  max_retries retry_delay backoff_factor log_file ;;
            remaining' <-
              (if success then lift (set_remove remaining name)
               else log "{}: still failed after retries, will try again in a later cycle."
                        [AStr name] log_file ;; ret remaining) ;;
            time_sleep 2 ;;
            transfer_all env nodes_cfg log_file supervisor_data_dir remote_data_path
                         max_retries retry_delay backoff_factor rest remaining')%py
           (fun l remaining' => acc remaining l remaining')).
    { intros Hcut. apply returns_skip; [any | intros _].
      eapply returns_mono; [exact Hcut |]. cbv beta. intros l r H l1.
      apply accounted_app_l. exact H. }
    eapply returns_bind; [apply rsync_data_success |]. intros l1 success H1.
    eapply returns_bind with (Q1 := fun l remaining' => acc remaining (l1 ++ l) remaining').
    { destruct success.
      - apply returns_lift. intros remaining' Hrem n Hn.
        destruct (String.eqb_spec n name) as [-> | Hne].
        + right. exists ip. split; [exact Hip |]. rewrite app_nil_r. apply H1. reflexivity.
        + left. eapply TransferWithRetryProps.set_remove_keeps; eauto.
      - apply returns_skip; [any | intros _]. apply returns_ret. intros l.
        apply accounted_refl. }
    intros l2 remaining' H2.
    apply returns_skip; [any | intros _].
    eapply returns_mono; [apply IH |]. cbv beta. intros l3 r H3 l4.
    rewrite !app_assoc. eapply accounted_trans; [apply accounted_app_r; exact H2 | exact H3].
Qed.

Lemma cycle_body_accounts (cycle : Z) (remaining : list string) :
  returns (cycle_body env nodes_cfg log_file supervisor_data_dir remote_data_path
                      heartbeat_dir heartbeat_max_age max_retries retry_delay
                      max_cycles cycle_delay backoff_factor cycle remaining)
          (fun l remaining' => acc remaining l remaining').
Proof.
  unfold cycle_body.
  apply returns_skip; [any | intros _].
  apply returns_skip.
  { eapply emits_weaken; [apply TransferWithRetryProps.build_candidates_emits | auto]. }
  intros candidates.
  eapply returns_bind with (Q1 := fun l remaining' => acc remaining l remaining').
  { destruct candidates.
    - apply returns_skip; [any | intros _]. apply returns_ret. intros l. apply accounted_refl.
    - apply transfer_all_accounts. }
  intros l1 remaining' H1.
  apply returns_skip; [any | intros _].
  apply returns_ret. accounted_by H1.
Qed.

Lemma cycles_accounts (cs : list Z) (remaining : list string) :
  returns (cycles env nodes_cfg log_file supervisor_data_dir remote_data_path
                  heartbeat_dir heartbeat_max_age max_retries retry_delay
                  max_cycles cycle_delay backoff_factor cs remaining)
          (fun l remaining' => acc remaining l remaining').
Proof.
  revert remaining. induction cs as [| cycle cs IH]; intros remaining; simpl.
  - apply returns_ret. apply accounted_refl.
  - destruct (bool_decide (remaining = [])).
    + apply returns_skip; [any | intros _]. apply returns_ret. intros l. apply accounted_refl.
    + eapply returns_bind; [apply cycle_body_accounts |]. intros l1 remaining1 H1.
      eapply returns_mono; [apply IH |]. cbv beta. intros l2 remaining2 H2.
      eapply accounted_trans; eassumption.
Qed.

(** Every node of the set [main] starts from is synced or given up. *)
Lemma run_accounts :
  returns (run env nodes_cfg log_file supervisor_data_dir remote_data_path
               heartbeat_dir heartbeat_max_age max_retries retry_delay
               max_cycles cycle_delay backoff_factor)
          (fun l _ => forall n, In n (set_iter env (map fst nodes_cfg)) ->
                                synced nodes_cfg supervisor_data_dir remote_data_path n l \/
                                given_up n l).
Proof.
  unfold run. cbv zeta.
  apply returns_skip; [any | intros _].
  eapply returns_bind; [apply cycles_accounts |]. intros l1 remaining H1.
  eapply returns_bind with
    (Q1 := fun l _ => remaining = [] \/
                      l = [EvLog "FINAL: gave up on nodes: {}" [ASorted remaining]]).
  { case_bool_decide as Hrem; simpl; unfold log; apply returns_emit; auto. }
  intros l2 _ H2. unfold log. apply returns_emit. intros l0 n Hn.
  destruct (H1 n Hn) as [H | (ip & Hip & Hin)].
  - destruct H2 as [-> | ->]; [destruct H |].
    right. exists remaining. split; [exact H |]. rewrite !in_app_iff. simpl. auto.
  - left. exists ip. split; [exact Hip |]. rewrite !in_app_iff. auto.
Qed.
End Run.

(** *** [main] never stops for lack of fuel *)

Lemma completes_lift_dict_get {V} (d : list (string * V)) (k : string) :
  completes (lift (dict_get d k)).
Proof.
  apply completes_lift. induction d as [| [k' v] d IH]; simpl; [discriminate |].
  destruct (String.eqb k' k); [discriminate | exact IH].
Qed.

Lemma completes_lift_node_ip (nodes_cfg : list (string * node_info)) (name : string) :
  completes (lift (node_ip nodes_cfg name)).
Proof.
  apply completes_lift. unfold node_ip.
  pose proof (completes_lift_dict_get nodes_cfg name []) as H. simpl in H.
  destruct (dict_get nodes_cfg name) as [i | e |]; simpl; [| discriminate | contradiction].
  destruct (info_ip i); discriminate.
Qed.

Lemma has_fresh_heartbeat_completes env (name dir : string) (max_age : Z) (lf : string) :
  completes (has_fresh_heartbeat env name dir max_age lf).
Proof.
  unfold has_fresh_heartbeat, log. cbv zeta.
  repeat first
    [ apply completes_lift; unfold int_of_float;
      match goal with |- context [Prim2SF ?x] => destruct (Prim2SF x) end; simpl;
      try discriminate;
      match goal with |- context [if ?b then _ else _] => destruct b end; discriminate
    | completes_step ].
Qed.

Section Fuel.
Variable env : oracle.
Variable nodes_cfg : list (string * node_info).
Variables log_file supervisor_data_dir remote_data_path heartbeat_dir : string.
Variables heartbeat_max_age max_retries retry_delay max_cycles cycle_delay : Z.
Variable backoff_factor : float.

Lemma build_candidates_completes (names : list string) (candidates : list (string * (Z * float))) :
  completes (build_candidates env nodes_cfg log_file heartbeat_dir heartbeat_max_age
                              names candidates).
Proof.
  revert candidates. induction names as [| name rest IH]; intros candidates; simpl.
  - apply completes_ret.
  - unfold log.
    repeat first
      [ apply IH | apply completes_lift_dict_get | apply completes_lift_node_ip
      | apply has_fresh_heartbeat_completes
      | apply TransferWithRetryProps.ping_latency_completes
      | completes_step ].
Qed.

Lemma transfer_all_completes (sorted_nodes : list (string * (Z * float)))
    (remaining : list string) :
  completes (transfer_all env nodes_cfg log_file supervisor_data_dir remote_data_path
                          max_retries retry_delay backoff_factor sorted_nodes remaining).
Proof.
  revert remaining.
  induction sorted_nodes as [| [name [priority latency]] rest IH]; intros remaining; simpl.
  - apply completes_ret.
  - unfold log.
    repeat first
      [ apply IH | apply completes_lift_node_ip
      | apply TransferWithRetryProps.rsync_data_fuel
      | apply completes_lift; unfold set_remove;
        match goal with |- context [if ?b then _ else _] => destruct b end; discriminate
      | completes_step ].
Qed.

Lemma cycles_completes (cs : list Z) (remaining : list string) :
  completes (cycles env nodes_cfg log_file supervisor_data_dir remote_data_path
                    heartbeat_dir heartbeat_max_age max_retries retry_delay
                    max_cycles cycle_delay backoff_factor cs remaining).
Proof.
  revert remaining. induction cs as [| cycle cs IH]; intros remaining; simpl.
  - apply completes_ret.
  - unfold cycle_body, log.
    repeat first
      [ apply IH | apply build_candidates_completes | apply transfer_all_completes
      | completes_step ].
Qed.

Lemma run_completes :
  completes (run env nodes_cfg log_file supervisor_data_dir remote_data_path
                 heartbeat_dir heartbeat_max_age max_retries retry_delay
                 max_cycles cycle_delay backoff_factor).
Proof.
  unfold run, log. cbv zeta.
  repeat first [apply cycles_completes | completes_step].
Qed.
End Fuel.

Lemma main_completes env (cfg : config) : completes (main env cfg).
Proof.
  unfold main. cbv zeta.
  apply completes_bind.
  - apply completes_lift. unfold float_of_num, float_of_int.
    destruct (default (Float 2) (backoff_factor cfg)); [| discriminate].
    destruct (PrimFloat.is_infinity _); discriminate.
  - intros bf. destruct (default [] (nodes cfg)).
    + unfold log. apply completes_emit.
    + apply run_completes.
Qed.

(** X6: [main] of src/transfer_with_retry.py never stops for lack of
    fuel, and a run that ends normally has accounted for every
    configured node: the trace holds a copy from the node that exited
    with 0, or the final report lists the node among those the run gave
    up on. The set of the outstanding nodes is taken to hold every key
    of [nodes]. *)
Theorem main_accounts_for_every_node (env : oracle) (cfg : config) (w : world) :
  (forall keys n, In n keys -> In n (set_iter env keys)) ->
  let nodes_cfg := default [] (nodes cfg) in
  let sdd := default "/home/pi/supervisor_data" (supervisor_data_dir cfg) in
  let rdp := default "/home/pi/data" (remote_data_path cfg) in
  snd (main env cfg w) <> OutOfFuel /\
  exists l,
    fst (main env cfg w) = w ++ l /\
    (snd (main env cfg w) = Ret tt ->
     forall n, In n (map fst nodes_cfg) -> synced nodes_cfg sdd rdp n l \/ given_up n l).
Proof.
  intros Hset nodes_cfg sdd rdp. split; [apply main_completes |].
  assert (H : returns (main env cfg)
                (fun l _ => forall n, In n (map fst nodes_cfg) ->
                                      synced nodes_cfg sdd rdp n l \/ given_up n l)).
  { unfold main. cbv zeta. fold nodes_cfg sdd rdp.
    apply returns_skip; [repeat emits_step; exact I | intros bf].
    destruct nodes_cfg as [| item items] eqn:E.
    - unfold log. apply returns_emit. intros l1 n [].
    - rewrite <- E. eapply returns_mono; [apply run_accounts |]. cbv beta.
      intros l [] H l1 n Hn. destruct (H n (Hset _ _ Hn)) as [(ip & Hip & Hin) | (rem & Hr & Hin)].
      + left. exists ip. split; [exact Hip | apply in_or_app; auto].
      + right. exists rem. split; [exact Hr | apply in_or_app; auto]. }
  destruct (H w) as (l & Hl & Hspec). exists l. split; [exact Hl |].
  intros Hret. apply (Hspec tt Hret).
Qed.

(** With the defaults, node1 answering and its copy succeeding, node1 is
    synced. *)
Lemma main_accounts_for_every_node_witness :
  snd (main Examples.env_healthy Examples.config_defaults []) <> OutOfFuel /\
  exists l,
    fst (main Examples.env_healthy Examples.config_defaults []) = [] ++ l /\
    (snd (main Examples.env_healthy Examples.config_defaults []) = Ret tt ->
     forall n, In n (map fst [("node1", mkInfo (Some "10.0.0.5") None)]) ->
               synced [("node1", mkInfo (Some "10.0.0.5") None)]
                      "/home/pi/supervisor_data" "/home/pi/data" n l \/
               given_up n l).
Proof.
  apply (main_accounts_for_every_node Examples.env_healthy Examples.config_defaults []).
  intros keys n H. exact H.
Defined.

End RunProps.


(** ** The passes of src/queue_shipped_data.py *)

Module PassProps.
Import Py World Logic Rules PyFacts QueueShippedData QueueSpec PassSpec.
Local Open Scope py_scope.

(** X7: [rsync_shipped_data] makes sure of the data root, runs the copy
    once and logs its outcome; it returns [True] exactly when the copy
    exits with 0, and no exception leaves it ([CalledProcessError] is
    caught). *)
Theorem rsync_shipped_data_outcome (env : oracle) (ip hostname : string) (w : world) :
  let rc := fst (fst (proc env (S (length w)) (rsync_argv ip))) in
  rsync_shipped_data env ip hostname w
    = (w ++ [EvMakedirs SUPERVISOR_DATA_ROOT;
             EvRun (rsync_argv ip) rc;
             if rc =? 0
             then EvLog "Pulled shipped data from {} ({}) -> {}"
                        [AStr hostname; AStr ip; AStr SUPERVISOR_DATA_ROOT]
             else EvLog "Failed to rsync shipped data from {} ({})" [AStr hostname; AStr ip]],
       Ret (rc =? 0)).
Proof.
  intros rc. subst rc.
  unfold rsync_shipped_data, try_except, subprocess_check_output, subprocess_run,
    os_makedirs, log, bind, emit, ret, raise, rsync_argv.
  cbn [fst snd]. rewrite length_app, Nat.add_1_r. cbn [length].
  destruct (proc env (S (length w)) _) as [[rc out] err]. cbn.
  destruct (rc =? 0); cbn; rewrite <- !app_assoc; reflexivity.
Qed.

Section Program.
Variable env : oracle.

(** [for node in nodes] with a body that relates each node to its
    update through the events it adds. *)
Lemma for_nodes_related (R : list event -> Node -> Node -> Prop)
    (body : Node -> M Node) (nodes : list Node) :
  (forall l1 l l2 a b, R l a b -> R (l1 ++ l ++ l2) a b) ->
  (forall node, In node nodes -> returns (body node) (fun l node' => R l node node')) ->
  returns (for_nodes body nodes) (fun l nodes' => Forall2 (R l) nodes nodes').
Proof.
  intros Hmono. induction nodes as [| node rest IH]; intros Hbody; simpl.
  - apply returns_ret. constructor.
  - eapply returns_bind; [apply Hbody; left; reflexivity |]. intros l1 node' H1.
    eapply returns_bind; [apply IH; intros; apply Hbody; right; assumption |].
    intros l2 rest' H2. apply returns_ret. constructor.
    + apply (Hmono [] l1 (l2 ++ [])). exact H1.
    + eapply Forall2_impl; [exact H2 |]. intros a b H. apply (Hmono l1 l2 []). exact H.
Qed.

Lemma classified_mono (l1 l l2 : list event) (a b : Node) :
  classified l a b -> classified (l1 ++ l ++ l2) a b.
Proof.
  unfold classified. intros (? & ? & ? & H). repeat split; try assumption.
  destruct H as [[? ?] | ?]; [left; split; [assumption |] | right; assumption].
  rewrite !in_app_iff. auto.
Qed.

(** The probe returns a latency only after a ping that exited with 0. *)
Lemma ping_latency_some (ip : string) :
  returns (ping_latency env ip 3)
          (fun l o => o <> None -> In (EvRun (ping_argv ip) 0) l).
Proof.
  unfold ping_latency. apply returns_try_except.
  - eapply returns_bind; [apply returns_check_output |]. intros l1 out ->.
    apply returns_lift. intros o _ _. rewrite app_nil_r. left. reflexivity.
  - intros [] h [= <-]. apply returns_ret. intros l1 H. contradiction.
Qed.

Lemma ping_nodes_classified (nodes : list Node) :
  returns (ping_nodes env nodes) (fun l nodes' => Forall2 (classified l) nodes nodes').
Proof.
  unfold ping_nodes. apply for_nodes_related; [apply classified_mono |]. intros node _.
  eapply returns_bind; [apply ping_latency_some |]. intros l1 latency H1.
  destruct latency as [x |].
  - apply returns_skip; [apply QueueProps.queue_log_emits_any | intros _].
    apply returns_ret. intros l2. unfold classified, set_state. simpl.
    repeat split. left. split; [reflexivity |].
    rewrite !in_app_iff. left. apply H1. discriminate.
  - apply returns_skip; [apply QueueProps.queue_log_emits_any | intros _].
    apply returns_ret. intros l2. unfold classified, set_state. simpl. auto.
Qed.
End Program.

Lemma flag_stays_refl (flagged : bool) (a : Node) : flag_stays flagged a a.
Proof. unfold flag_stays. auto. Qed.

Lemma flag_stays_trans (flagged : bool) (a b c : Node) :
  flag_stays flagged a b -> flag_stays flagged b c -> flag_stays flagged a c.
Proof.
  unfold flag_stays. intros (? & ? & ?) (? & ? & ?). repeat split; try congruence; auto.
Qed.

Lemma flag_stays_all_trans (flagged : bool) (l1 l2 l3 : list Node) :
  Forall2 (flag_stays flagged) l1 l2 -> Forall2 (flag_stays flagged) l2 l3 ->
  Forall2 (flag_stays flagged) l1 l3.
Proof.
  intros H12. revert l3. induction H12 as [| a b l1 l2 Hab _ IH]; intros l3 H23.
  - inversion H23. constructor.
  - inversion H23 as [| ? c ? l3' Hbc H23']; subst.
    constructor; [eapply flag_stays_trans; eauto | auto].
Qed.

Lemma flag_stays_all_refl (flagged : bool) (nodes : list Node) :
  Forall2 (flag_stays flagged) nodes nodes.
Proof. induction nodes; constructor; auto using flag_stays_refl. Qed.

(** A node of the later list is a node of the earlier one, with its
    address, and with its flag if that was [flagged]. *)
Lemma flag_stays_In (flagged : bool) (nodes nodes' : list Node) (node' : Node) :
  Forall2 (flag_stays flagged) nodes nodes' -> In node' nodes' ->
  exists node, In node nodes /\ flag_stays flagged node node'.
Proof.
  induction 1 as [| a b l1 l2 Hab _ IH]; intros Hin; [destruct Hin |].
  destruct Hin as [<- | Hin].
  - exists a. split; [left; reflexivity | exact Hab].
  - destruct (IH Hin) as (node & Hn & Hs). exists node. split; [right; exact Hn | exact Hs].
Qed.

Lemma copies_only_later (flagged : bool) (nodes nodes' : list Node) (e : event) :
  Forall2 (flag_stays (negb flagged)) nodes nodes' ->
  copies_only flagged nodes' e -> copies_only flagged nodes e.
Proof.
  intros H. destruct e as [| | argv rc | |]; simpl; auto.
  intros (node' & Hin & Hargv).
  destruct (flag_stays_In _ _ _ _ H Hin) as (node & Hn & _ & Hip & Hflag).
  exists node. split; [exact Hn |]. rewrite <- Hip.
  destruct Hargv as [-> | [Hf ->]]; [left; reflexivity | right].
  split; [| reflexivity].
  destruct (transfer_fail node) eqn:E, flagged; simpl in *; try reflexivity;
    rewrite Hflag in Hf by reflexivity; discriminate.
Qed.

Section Passes.
Variable env : oracle.

Lemma ping_nodes_hoare (flagged : bool) (nodes : list Node) :
  hoare (copies_only flagged nodes) (Forall2 same_flag nodes)
        (ping_nodes env nodes).
Proof.
  unfold ping_nodes. apply QueueProps.for_nodes_hoare. intros node Hin.
  eapply hoare_bind.
  - apply hoare_emits. apply QueueProps.queue_ping_latency_emits. intros rc. simpl.
    exists node. auto.
  - intros latency _.
    destruct latency; (eapply hoare_bind; [apply hoare_emits; unfold log; apply emits_emit; exact I |]);
      intros _ _; apply hoare_ret; unfold same_flag, flag_stays, set_state; simpl; auto.
Qed.


Lemma ping_dead_nodes_flags (flagged : bool) (nodes : list Node) :
  hoare (copies_only flagged nodes) (Forall2 same_flag nodes) (ping_dead_nodes env nodes).
Proof.
  unfold ping_dead_nodes. apply QueueProps.for_nodes_hoare. intros node Hin.
  destruct (negb (String.eqb (state node) "alive")).
  - eapply hoare_bind.
    + apply hoare_emits. apply QueueProps.queue_ping_latency_emits. intros rc. simpl.
      exists node. auto.
    + intros latency _. destruct latency.
      * eapply hoare_bind; [apply hoare_emits; unfold log; apply emits_emit; exact I |].
        intros _ _. apply hoare_ret. unfold same_flag, flag_stays, set_state. simpl. auto.
      * apply hoare_ret. unfold same_flag, flag_stays. auto.
  - apply hoare_ret. unfold same_flag, flag_stays. auto.
Qed.

Lemma same_flag_stays (flagged : bool) (nodes nodes' : list Node) :
  Forall2 same_flag nodes nodes' -> Forall2 (flag_stays flagged) nodes nodes'.
Proof.
  intros H. eapply Forall2_impl; [exact H |]. intros a b [Ht Hf]. destruct flagged; assumption.
Qed.

(** The first attempt copies from nodes whose flag is not set, and only
    ever sets a flag. *)
Lemma first_attempt_hoare (nodes : list Node) :
  hoare (copies_only false nodes) (Forall2 (flag_stays true) nodes)
    (for_nodes (fun node =>
      log "Attempting data transfer from {} ({})" [AStr (name node); AStr (ip node)] ;;
      if String.eqb (state node) "alive" && negb (transfer_fail node) then
        success <- rsync_shipped_data env (ip node) (name node) ;;
        log "Node {} transfer success: {}" [AStr (name node); ABool success] ;;
        if negb success then
          log "Node {}: transfer_fail flag set to True" [AStr (name node)] ;;
          ret (set_transfer_fail node true)
        else ret node
      else ret node) nodes).
Proof.
  apply QueueProps.for_nodes_hoare. intros node Hin.
  eapply hoare_bind; [apply hoare_emits; unfold log; apply emits_emit; exact I |].
  intros _ _.
  destruct (String.eqb (state node) "alive") ; simpl; [| apply hoare_ret, flag_stays_refl].
  destruct (transfer_fail node) eqn:Hflag; simpl; [apply hoare_ret, flag_stays_refl |].
  eapply hoare_bind.
  { apply hoare_emits. apply QueueProps.rsync_shipped_data_emits; simpl; auto.
    intros rc. exists node. auto. }
  intros success _.
  eapply hoare_bind; [apply hoare_emits; unfold log; apply emits_emit; exact I |].
  intros _ _. destruct success; simpl.
  - apply hoare_ret, flag_stays_refl.
  - eapply hoare_bind; [apply hoare_emits; unfold log; apply emits_emit; exact I |].
    intros _ _. apply hoare_ret. unfold flag_stays, set_transfer_fail. simpl. auto.
Qed.

Lemma initial_pass_hoare (nodes : list Node) :
  hoare (copies_only false nodes) (Forall2 (flag_stays true) nodes) (initial_pass env nodes).
Proof.
  unfold initial_pass.
  eapply hoare_bind; [apply hoare_emits; unfold log; apply emits_emit; exact I |].
  intros _ _.
  eapply hoare_bind; [apply ping_nodes_hoare |]. intros nodes1 H1.
  eapply hoare_bind; [apply hoare_emits; unfold save_nodes; apply emits_emit; exact I |].
  intros _ _.
  eapply hoare_bind; [apply hoare_emits; unfold log; apply emits_emit; exact I |].
  intros _ _.
  eapply hoare_bind.
  { eapply hoare_weaken; [apply (first_attempt_hoare nodes1) | | intros nodes2 H2; exact H2].
    intros e. apply copies_only_later. apply (same_flag_stays true). exact H1. }
  intros nodes2 H2.
  eapply hoare_bind; [apply hoare_emits; unfold save_nodes; apply emits_emit; exact I |].
  intros _ _. apply hoare_ret.
  eapply flag_stays_all_trans; [apply (same_flag_stays true); exact H1 | exact H2].
Qed.

(** The retries of a cycle copy from nodes whose flag is set, and only
    ever clear a flag. *)
Lemma retries_hoare (nodes : list Node) :
  hoare (copies_only true nodes) (Forall2 (flag_stays false) nodes)
    (for_nodes (fun node =>
      log "Attempting data transfer from {} ({})" [AStr (name node); AStr (ip node)] ;;
      if String.eqb (state node) "alive" && transfer_fail node then
        success <- rsync_shipped_data env (ip node) (name node) ;;
        log "Node {} transfer success: {}" [AStr (name node); ABool success] ;;
        if success then
          log "Node {}: transfer_fail flag cleared" [AStr (name node)] ;;
          ret (set_transfer_fail node false)
        else ret node
      else ret node) nodes).
Proof.
  apply QueueProps.for_nodes_hoare. intros node Hin.
  eapply hoare_bind; [apply hoare_emits; unfold log; apply emits_emit; exact I |].
  intros _ _.
  destruct (String.eqb (state node) "alive") ; simpl; [| apply hoare_ret, flag_stays_refl].
  destruct (transfer_fail node) eqn:Hflag; simpl; [| apply hoare_ret, flag_stays_refl].
  eapply hoare_bind.
  { apply hoare_emits. apply QueueProps.rsync_shipped_data_emits; simpl; auto.
    intros rc. exists node. auto. }
  intros success _.
  eapply hoare_bind; [apply hoare_emits; unfold log; apply emits_emit; exact I |].
  intros _ _. destruct success; simpl.
  - eapply hoare_bind; [apply hoare_emits; unfold log; apply emits_emit; exact I |].
    intros _ _. apply hoare_ret. unfold flag_stays, set_transfer_fail. simpl. auto.
  - apply hoare_ret, flag_stays_refl.
Qed.

Lemma retry_cycle_flags (nodes : list Node) :
  hoare (copies_only true nodes) (Forall2 (flag_stays false) nodes) (retry_cycle env nodes).
Proof.
  unfold retry_cycle.
  eapply hoare_bind; [apply hoare_emits; unfold log; apply emits_emit; exact I |].
  intros _ _.
  eapply hoare_bind; [apply hoare_emits; apply emits_time_sleep; exact I |].
  intros _ _.
  eapply hoare_bind; [apply ping_dead_nodes_flags |]. intros nodes1 H1.
  eapply hoare_bind; [apply hoare_emits; unfold save_nodes; apply emits_emit; exact I |].
  intros _ _.
  eapply hoare_bind; [apply hoare_emits; unfold log; apply emits_emit; exact I |].
  intros _ _.
  eapply hoare_bind.
  { eapply hoare_weaken; [apply (retries_hoare nodes1) | | intros nodes2 H2; exact H2].
    intros e. apply copies_only_later. apply (same_flag_stays false). exact H1. }
  intros nodes2 H2.
  eapply hoare_bind; [apply hoare_emits; unfold save_nodes; apply emits_emit; exact I |].
  intros _ _. apply hoare_ret.
  eapply flag_stays_all_trans; [apply (same_flag_stays false); exact H1 | exact H2].
Qed.

Lemma retry_loop_flags (n : nat) (nodes : list Node) :
  hoare (copies_only true nodes) (Forall2 (flag_stays false) nodes) (retry_loop env n nodes).
Proof.
  revert nodes. induction n as [| n IH]; intros nodes; simpl.
  - apply hoare_ret. apply flag_stays_all_refl.
  - eapply hoare_bind; [apply retry_cycle_flags |].
    intros nodes1 H1. eapply hoare_weaken; [apply IH | |].
    + intros e. apply copies_only_later. exact H1.
    + intros nodes2. apply flag_stays_all_trans. exact H1.
Qed.
End Passes.

(** X8: when [ping_nodes] returns, every node is the node it was (same
    name, address and flag) with its state set to "alive" or "dead", and
    a node is "alive" only if the pass ran a ping of its address that
    exited with 0. *)
Theorem ping_nodes_classifies (env : oracle) (nodes : list Node) (w : world) :
  exists l,
    fst (ping_nodes env nodes w) = w ++ l /\
    forall nodes', snd (ping_nodes env nodes w) = Ret nodes' ->
                   Forall2 (classified l) nodes nodes'.
Proof. apply ping_nodes_classified. Qed.

(** X9: the first pass of [main] (classification and first attempt)
    starts no other process than a ping of a node or a copy from a node
    whose flag [transfer_fail] was not set when the pass began; and it
    never clears a flag: a node whose flag was set still has it set when
    the pass returns. *)
Theorem initial_pass_copies_unflagged (env : oracle) (nodes : list Node) (w : world) :
  exists l,
    fst (initial_pass env nodes w) = w ++ l /\
    Forall (copies_only false nodes) l /\
    forall nodes', snd (initial_pass env nodes w) = Ret nodes' ->
                   Forall2 (flag_stays true) nodes nodes'.
Proof. apply initial_pass_hoare. Qed.

(** X10: through any number of retry cycles, the loop starts no other
    process than a ping of a node or a copy from a node whose flag
    [transfer_fail] was set when the loop began; and it never sets a
    flag: a node whose flag was clear still has it clear when the cycles
    return, so that a node whose data was pulled is not contacted for a
    copy again. *)
Theorem retry_loop_copies_flagged (env : oracle) (n : nat) (nodes : list Node) (w : world) :
  exists l,
    fst (retry_loop env n nodes w) = w ++ l /\
    Forall (copies_only true nodes) l /\
    forall nodes', snd (retry_loop env n nodes w) = Ret nodes' ->
                   Forall2 (flag_stays false) nodes nodes'.
Proof. apply retry_loop_flags. Qed.

End PassProps.


(** ** The records of the BEAM package through a run *)

Module RecordProps.
Import Py World Logic Rules PyFacts Beam RecordSpec.
Local Open Scope py_scope.

Section Related.
Variable R : node_state -> node_state -> Prop.
Hypothesis R_refl : forall r, R r r.
Hypothesis R_trans : forall a b c, R a b -> R b c -> R a c.

Lemma related_refl (s : gmap string node_state) : related R s s.
Proof. intros n. destruct (s !! n); constructor. apply R_refl. Qed.

Lemma related_trans (s0 s1 s2 : gmap string node_state) :
  related R s0 s1 -> related R s1 s2 -> related R s0 s2.
Proof.
  intros H1 H2 n. specialize (H1 n). specialize (H2 n).
  destruct H1 as [a b Hab |]; inversion H2; subst; constructor. eauto.
Qed.

Lemma related_update (f : node_state -> node_state) (s s' : gmap string node_state)
    (name : string) :
  (forall r, R r (f r)) -> update f s name = Ret s' -> related R s s'.
Proof.
  unfold update. intros Hf. destruct (s !! name) as [r |] eqn:E; [| discriminate].
  intros [= <-] n. destruct (decide (name = n)) as [<- | Hne].
  - rewrite lookup_insert_eq, E. constructor. apply Hf.
  - rewrite lookup_insert_ne by exact Hne. destruct (s !! n); constructor. apply R_refl.
Qed.

Lemma hoare_update (P : event -> Prop) (f : node_state -> node_state)
    (s0 s : gmap string node_state) (name : string) :
  (forall r, R r (f r)) -> related R s0 s ->
  hoare P (related R s0) (lift (update f s name)).
Proof.
  intros Hf H0. apply hoare_lift. intros s' Hs'.
  eapply related_trans; [exact H0 | eapply related_update; eauto].
Qed.
End Related.

Lemma daily_keeps_refl (r : node_state) : daily_keeps r r.
Proof. unfold daily_keeps. auto. Qed.

Lemma daily_keeps_trans (a b c : node_state) :
  daily_keeps a b -> daily_keeps b c -> daily_keeps a c.
Proof.
  unfold daily_keeps. intros [H1 H2] [H3 H4]. split; [congruence |].
  destruct H4 as [H4 | H4]; [rewrite H4; exact H2 | auto].
Qed.

Lemma check_keeps_refl (r : node_state) : check_keeps r r.
Proof. unfold check_keeps. auto. Qed.

Lemma check_keeps_trans (a b c : node_state) :
  check_keeps a b -> check_keeps b c -> check_keeps a c.
Proof.
  unfold check_keeps. intros [H1 H2] [H3 H4]. split; [congruence |].
  destruct H4 as [H4 | H4]; [rewrite H4; exact H2 | auto].
Qed.

Ltac step_any := apply hoare_emits; unfold save_json, log, ping, json_dump; repeat emits_step; simpl; eauto.

Section Program.
Variable env : oracle.
Variable P : event -> Prop.
Hypothesis P_log : forall t a, P (EvLog t a).
Hypothesis P_ping : forall ip rc, P (EvRun ["ping"; "-c"; "1"; "-W"; "1"; ip] rc).

Let upd_daily := hoare_update daily_keeps daily_keeps_refl daily_keeps_trans P.
Let upd_check := hoare_update check_keeps check_keeps_refl check_keeps_trans P.

(** The health check of a node, within [check_keeps]. *)
Lemma probe_keeps (lf name : string) (info : node_info) (s0 state : gmap string node_state) :
  related check_keeps s0 state ->
  hoare P (related check_keeps s0) (SupervisorPingCheck.probe env lf name info state).
Proof.
  intros H0. unfold SupervisorPingCheck.probe.
  eapply hoare_bind; [step_any |]. intros ip _.
  eapply hoare_bind; [step_any |]. intros is_alive _.
  eapply hoare_bind; [step_any |]. intros came_online _.
  eapply hoare_bind with (Q1 := related check_keeps s0).
  { destruct came_online; [| apply hoare_ret; exact H0].
    eapply hoare_bind; [apply upd_check; [| exact H0] |].
    { intros r. unfold check_keeps. simpl. auto. }
    intros s1 H1. eapply hoare_bind; [step_any |]. intros now _.
    eapply hoare_bind; [apply upd_check; [| exact H1] |].
    { intros r. unfold check_keeps. simpl. auto. }
    intros s2 H2. eapply hoare_bind; [step_any |]. intros _ _.
    apply hoare_ret. exact H2. }
  intros s1 H1.
  eapply hoare_bind; [step_any |]. intros went_offline _.
  destruct went_offline; [| apply hoare_ret; exact H1].
  eapply hoare_bind; [apply upd_check; [| exact H1] |].
  { intros r. unfold check_keeps. simpl. auto. }
  intros s2 H2. eapply hoare_bind; [step_any |]. intros now _.
  eapply hoare_bind; [apply upd_check; [| exact H2] |].
  { intros r. unfold check_keeps. simpl. auto. }
  intros s3 H3. eapply hoare_bind; [step_any |]. intros _ _.
  apply hoare_ret. exact H3.
Qed.

Lemma probe_all_keeps (lf : string) (items : list (string * node_info))
    (s0 state : gmap string node_state) :
  related check_keeps s0 state ->
  hoare P (related check_keeps s0) (SupervisorPingCheck.probe_all env lf items state).
Proof.
  revert state. induction items as [| [name info] rest IH]; intros state H0; simpl.
  - apply hoare_ret. exact H0.
  - eapply hoare_bind; [apply probe_keeps; exact H0 |]. intros s1 H1. apply IH. exact H1.
Qed.

(** Without a flag to catch up, the catch-up of a node does nothing. *)
Lemma catch_up_idle (config : config) (lf name : string) (info : node_info)
    (state : gmap string node_state) :
  (forall n r, state !! n = Some r -> fail_to_request_data r <> Some true) ->
  hoare P (fun state' => state' = state)
        (SupervisorPingCheck.catch_up env config lf name info state).
Proof.
  intros Hclear. unfold SupervisorPingCheck.catch_up.
  eapply hoare_bind with (Q1 := fun failed => failed = false).
  { apply hoare_lift. intros failed. unfold get_flag.
    destruct (state !! name) as [r |] eqn:E; [| discriminate].
    specialize (Hclear name r E).
    destruct (fail_to_request_data r) as [[] |]; [contradiction | | discriminate].
    intros [= <-]. reflexivity. }
  intros failed ->. simpl.
  eapply hoare_bind with (Q1 := fun due => due = false); [apply hoare_ret; reflexivity |].
  intros due ->. apply hoare_ret. reflexivity.
Qed.

Lemma catch_up_all_idle (config : config) (lf : string) (items : list (string * node_info))
    (state : gmap string node_state) :
  (forall n r, state !! n = Some r -> fail_to_request_data r <> Some true) ->
  hoare P (fun state' => state' = state)
        (SupervisorPingCheck.catch_up_all env config lf items state).
Proof.
  intros Hclear. induction items as [| [name info] rest IH]; simpl.
  - apply hoare_ret. reflexivity.
  - eapply hoare_bind; [apply catch_up_idle; exact Hclear |]. intros s1 ->. exact IH.
Qed.

Lemma related_clear (s s' : gmap string node_state) :
  related check_keeps s s' ->
  (forall n r, s !! n = Some r -> fail_to_request_data r <> Some true) ->
  forall n r, s' !! n = Some r -> fail_to_request_data r <> Some true.
Proof.
  intros Hrel Hclear n r' Hr'. specialize (Hrel n). rewrite Hr' in Hrel.
  inversion Hrel as [r ? [_ Hk] Hr |]; subst. symmetry in Hr. specialize (Hclear n r Hr).
  destruct Hk as [-> | ->]; [exact Hclear | discriminate].
Qed.

Hypothesis P_dump : forall path data, P (EvDump path data).

Lemma check_main_idle (config : config) (state : gmap string node_state) :
  (forall n r, state !! n = Some r -> fail_to_request_data r <> Some true) ->
  emits P (SupervisorPingCheck.main env config state).
Proof.
  intros Hclear. unfold SupervisorPingCheck.main. cbv zeta.
  apply emits_bind; [unfold log; apply emits_emit; apply P_log | intros _].
  eapply does_mono.
  - eapply hoare_bind.
    + apply probe_all_keeps. apply related_refl. apply check_keeps_refl.
    + intros s1 H1. eapply hoare_bind.
      * apply catch_up_all_idle. eapply related_clear; eassumption.
      * intros s2 _. apply hoare_emits with (P := P).
        unfold save_json, log, json_dump. repeat emits_step; auto.
  - cbv beta. intros l r [H _]. exact H.
Qed.
End Program.

(** *** A node without a record *)

Lemma does_both {A} (c : M A) (R1 R2 : list event -> res A -> Prop) :
  does c R1 -> does c R2 -> does c (fun l r => R1 l r /\ R2 l r).
Proof.
  intros H1 H2 w. destruct (H1 w) as (l & Hl & HR1), (H2 w) as (l' & Hl' & HR2).
  rewrite Hl in Hl'. apply app_inv_head in Hl'. subst l'. eauto.
Qed.

Lemma writes_nothing_intro {A} (c : M A) :
  emits no_dump c -> completes c -> writes_nothing c.
Proof.
  intros He Hc w. destruct (He w) as (l & Hl & H). exists l. split; [exact Hl |].
  split; [exact H | apply Hc].
Qed.

Lemma writes_nothing_emits {A} (c : M A) : writes_nothing c -> emits no_dump c.
Proof. intros H. eapply does_mono; [exact H |]. cbv beta. intros l r [Hl _]. exact Hl. Qed.

Lemma writes_nothing_completes {A} (c : M A) : writes_nothing c -> completes c.
Proof. intros H w. destruct (H w) as (l & _ & _ & Hr). exact Hr. Qed.

Lemma aborts_now {A B} (c : M A) (k : A -> M B) : aborts c -> aborts (bind c k).
Proof.
  intros Hc. eapply does_bind; [exact Hc | | |].
  - intros l1 a [[e He] _]. discriminate.
  - intros l1 e [_ H]. split; [eauto | exact H].
  - intros l1 [[e He] _]. discriminate.
Qed.

Lemma aborts_later {A B} (c : M A) (k : A -> M B) (Q : A -> Prop) :
  writes_nothing c -> hoare (fun _ => True) Q c ->
  (forall a, Q a -> aborts (k a)) -> aborts (bind c k).
Proof.
  intros Hw Hq Hk. eapply does_bind; [exact (does_both _ _ _ Hw Hq) | | |].
  - intros l1 a [[Hl _] [_ Ha]]. eapply does_mono; [apply Hk; auto |].
    cbv beta. intros l2 r [He Hl2]. split; [exact He | apply Forall_app; auto].
  - intros l1 e [[Hl _] _]. split; [eauto | exact Hl].
  - intros l1 [[_ Hf] _]. contradiction.
Qed.

Lemma aborts_update (f : node_state -> node_state) (state : gmap string node_state)
    (name : string) :
  state !! name = None -> aborts (lift (update f state name)).
Proof.
  intros H. apply does_lift. unfold update. rewrite H. split; [eauto | constructor].
Qed.

Lemma aborts_get_flag (field : string) (proj : node_state -> option bool)
    (state : gmap string node_state) (name : string) :
  state !! name = None -> aborts (lift (get_flag field proj state name)).
Proof.
  intros H. apply does_lift. unfold get_flag. rewrite H. split; [eauto | constructor].
Qed.

Lemma related_missing (R : node_state -> node_state -> Prop)
    (s s' : gmap string node_state) (name : string) :
  related R s s' -> s !! name = None -> s' !! name = None.
Proof. intros H E. specialize (H name). rewrite E in H. inversion H. reflexivity. Qed.

Ltac quiet_step :=
  apply writes_nothing_intro;
  [ unfold save_json, log, ping, json_dump; repeat emits_step; exact I
  | unfold save_json, log, ping, json_dump; repeat completes_step ].

Ltac any_step := apply hoare_emits; unfold save_json, log, ping, json_dump;
                 repeat emits_step; exact I.

Section Missing.
Variable env : oracle.

Lemma completes_update (f : node_state -> node_state) (state : gmap string node_state)
    (name : string) : completes (lift (update f state name)).
Proof. apply completes_lift. unfold update. destruct (state !! name); discriminate. Qed.

Lemma completes_get_flag (field : string) (proj : node_state -> option bool)
    (state : gmap string node_state) (name : string) :
  completes (lift (get_flag field proj state name)).
Proof.
  apply completes_lift. unfold get_flag. destruct (state !! name) as [r |]; [| discriminate].
  destruct (proj r); discriminate.
Qed.

Lemma completes_datetime_now : completes (datetime_now_isoformat env).
Proof. intros w. discriminate. Qed.

Lemma completes_info_ip_get (info : node_info) : completes (lift (info_ip_get info)).
Proof. apply completes_lift. unfold info_ip_get. destruct (info_ip info); discriminate. Qed.

Lemma daily_rsync_data_quiet (ip name : string) (config : config) (lf : string) :
  writes_nothing (TransferWithRetry.rsync_data env ip name config lf).
Proof.
  unfold TransferWithRetry.rsync_data. apply writes_nothing_intro.
  - apply emits_bind; [apply emits_emit; exact I | intros _].
    generalize (retry_delay config).
    induction (range 1 (max_retries config + 1)) as [| attempt rest IH]; intros delay; simpl.
    + apply emits_ret.
    + unfold log. repeat first [apply IH | emits_step]; exact I.
  - apply completes_bind; [apply completes_emit | intros _].
    generalize (retry_delay config).
    induction (range 1 (max_retries config + 1)) as [| attempt rest IH]; intros delay; simpl.
    + apply completes_ret.
    + unfold log.
      repeat first [apply IH | apply completes_lift, int_mul_outcome | completes_step].
Qed.

Lemma check_rsync_data_quiet (ip name : string) (config : config) (lf : string) :
  writes_nothing (SupervisorPingCheck.rsync_data env ip name config lf).
Proof.
  unfold SupervisorPingCheck.rsync_data. apply writes_nothing_intro.
  - apply emits_bind; [apply emits_emit; exact I | intros _].
    generalize (retry_delay config).
    induction (range 1 (max_retries config + 1)) as [| attempt rest IH]; intros delay; simpl.
    + apply emits_ret.
    + unfold log. repeat first [apply IH | emits_step]; exact I.
  - apply completes_bind; [apply completes_emit | intros _].
    generalize (retry_delay config).
    induction (range 1 (max_retries config + 1)) as [| attempt rest IH]; intros delay; simpl.
    + apply completes_ret.
    + unfold log.
      repeat first [apply IH | apply completes_lift, int_mul_outcome | completes_step].
Qed.

Lemma visit_aborts (config : config) (lf name : string) (info : node_info)
    (state : gmap string node_state) :
  state !! name = None -> aborts (TransferWithRetry.visit env config lf name info state).
Proof.
  intros Hmiss. unfold TransferWithRetry.visit.
  eapply aborts_later with (Q := fun _ => True);
    [apply writes_nothing_intro; [repeat emits_step | apply completes_info_ip_get]
    | any_step | intros ip _].
  eapply aborts_later with (Q := fun _ => True); [quiet_step | any_step | intros alive _].
  destruct alive; simpl.
  - eapply aborts_later with (Q := fun _ => True);
      [apply daily_rsync_data_quiet
      | apply hoare_emits; eapply emits_weaken;
        [apply writes_nothing_emits, daily_rsync_data_quiet | auto]
      | intros success _].
    destruct success; apply aborts_now, aborts_update, Hmiss.
  - eapply aborts_later with (Q := fun _ => True); [quiet_step | any_step | intros _ _].
    apply aborts_now, aborts_update, Hmiss.
Qed.

Lemma visit_quiet (config : config) (lf name : string) (info : node_info)
    (state : gmap string node_state) :
  writes_nothing (TransferWithRetry.visit env config lf name info state).
Proof.
  unfold TransferWithRetry.visit. apply writes_nothing_intro.
  - unfold log, ping.
    repeat first
      [ apply writes_nothing_emits, daily_rsync_data_quiet
      | emits_step ]; exact I.
  - unfold log, ping.
    repeat first
      [ apply writes_nothing_completes, daily_rsync_data_quiet
      | apply completes_update | apply completes_info_ip_get
      | apply completes_datetime_now
      | completes_step ].
Qed.

Lemma probe_quiet (lf name : string) (info : node_info) (state : gmap string node_state) :
  writes_nothing (SupervisorPingCheck.probe env lf name info state).
Proof.
  unfold SupervisorPingCheck.probe. apply writes_nothing_intro.
  - unfold log, ping. repeat emits_step; exact I.
  - unfold log, ping, and_then.
    repeat first
      [ apply completes_update | apply completes_get_flag | apply completes_info_ip_get
      | apply completes_datetime_now
      | completes_step ].
Qed.

Lemma probe_aborts (lf name : string) (info : node_info) (state : gmap string node_state) :
  state !! name = None -> aborts (SupervisorPingCheck.probe env lf name info state).
Proof.
  intros Hmiss. unfold SupervisorPingCheck.probe.
  eapply aborts_later with (Q := fun _ => True);
    [apply writes_nothing_intro; [repeat emits_step | apply completes_info_ip_get]
    | any_step | intros ip _].
  eapply aborts_later with (Q := fun _ => True); [quiet_step | any_step | intros is_alive _].
  destruct is_alive; simpl.
  - apply aborts_now, aborts_now, aborts_get_flag, Hmiss.
  - eapply aborts_later with (Q := fun b => b = false);
      [quiet_step | apply hoare_ret; reflexivity | intros came_online ->].
    eapply aborts_later with (Q := fun s => s = state);
      [quiet_step | apply hoare_ret; reflexivity | intros s ->].
    apply aborts_now, aborts_get_flag, Hmiss.
Qed.
End Missing.

Ltac step_true := apply hoare_emits; unfold save_json, log, ping, json_dump;
                  repeat emits_step; try exact I; simpl; auto.

Section Keeps.
Variable env : oracle.

Let T : event -> Prop := fun _ => True.
Let upd_daily := hoare_update daily_keeps daily_keeps_refl daily_keeps_trans T.
Let upd_check := hoare_update check_keeps check_keeps_refl check_keeps_trans T.

Lemma check_rsync_data_any (ip name : string) (config : config) (lf : string) :
  emits T (SupervisorPingCheck.rsync_data env ip name config lf).
Proof.
  unfold SupervisorPingCheck.rsync_data. apply emits_bind; [apply emits_emit; exact I | intros _].
  generalize (retry_delay config).
  induction (range 1 (max_retries config + 1)) as [| attempt rest IH]; intros delay; simpl.
  - apply emits_ret.
  - unfold log. repeat first [apply IH | emits_step]; exact I.
Qed.

Lemma daily_rsync_data_any (ip name : string) (config : config) (lf : string) :
  emits T (TransferWithRetry.rsync_data env ip name config lf).
Proof.
  unfold TransferWithRetry.rsync_data. apply emits_bind; [apply emits_emit; exact I | intros _].
  generalize (retry_delay config).
  induction (range 1 (max_retries config + 1)) as [| attempt rest IH]; intros delay; simpl.
  - apply emits_ret.
  - unfold log. repeat first [apply IH | emits_step]; exact I.
Qed.

Lemma catch_up_keeps (config : config) (lf name : string) (info : node_info)
    (s0 state : gmap string node_state) :
  related check_keeps s0 state ->
  hoare T (related check_keeps s0) (SupervisorPingCheck.catch_up env config lf name info state).
Proof.
  intros H0. unfold SupervisorPingCheck.catch_up.
  eapply hoare_bind; [step_true |]. intros failed _.
  eapply hoare_bind; [step_true |]. intros due _.
  destruct due; [| apply hoare_ret; exact H0].
  eapply hoare_bind; [step_true |]. intros _ _.
  eapply hoare_bind; [step_true |]. intros ip _.
  eapply hoare_bind; [apply hoare_emits, check_rsync_data_any |]. intros success _.
  destruct success; [| apply hoare_ret; exact H0].
  eapply hoare_bind; [apply upd_check; [| exact H0] |].
  { intros r. unfold check_keeps. simpl. auto. }
  intros s1 H1. eapply hoare_bind; [step_true |]. intros _ _.
  apply hoare_ret. exact H1.
Qed.

Lemma catch_up_all_keeps (config : config) (lf : string) (items : list (string * node_info))
    (s0 state : gmap string node_state) :
  related check_keeps s0 state ->
  hoare T (related check_keeps s0) (SupervisorPingCheck.catch_up_all env config lf items state).
Proof.
  revert state. induction items as [| [name info] rest IH]; intros state H0; simpl.
  - apply hoare_ret. exact H0.
  - eapply hoare_bind; [apply catch_up_keeps; exact H0 |]. intros s1 H1. apply IH. exact H1.
Qed.

Lemma check_main_keeps (config : config) (state : gmap string node_state) :
  hoare T (related check_keeps state) (SupervisorPingCheck.main env config state).
Proof.
  unfold SupervisorPingCheck.main. cbv zeta.
  eapply hoare_bind; [step_true |]. intros _ _.
  eapply hoare_bind.
  { apply (probe_all_keeps env T); [intros; exact I | intros; exact I |].
    apply related_refl, check_keeps_refl. }
  intros s1 H1.
  eapply hoare_bind; [apply catch_up_all_keeps; exact H1 |]. intros s2 H2.
  eapply hoare_bind; [step_true |]. intros _ _.
  eapply hoare_bind; [step_true |]. intros _ _.
  apply hoare_ret. exact H2.
Qed.

Lemma visit_keeps (config : config) (lf name : string) (info : node_info)
    (s0 state : gmap string node_state) :
  related daily_keeps s0 state ->
  hoare T (related daily_keeps s0) (TransferWithRetry.visit env config lf name info state).
Proof.
  intros H0. unfold TransferWithRetry.visit.
  eapply hoare_bind; [step_true |]. intros ip _.
  eapply hoare_bind; [step_true |]. intros alive _.
  destruct alive; simpl.
  - eapply hoare_bind; [apply hoare_emits, daily_rsync_data_any |]. intros success _.
    destruct success.
    + eapply hoare_bind; [apply upd_daily; [| exact H0] |].
      { intros r. unfold daily_keeps. simpl. auto. }
      intros s1 H1. eapply hoare_bind; [step_true |]. intros _ _.
      apply hoare_ret. exact H1.
    + eapply hoare_bind; [apply upd_daily; [| exact H0] |].
      { intros r. unfold daily_keeps. simpl. auto. }
      intros s1 H1. eapply hoare_bind; [step_true |]. intros now _.
      eapply hoare_bind; [apply upd_daily; [| exact H1] |].
      { intros r. unfold daily_keeps. simpl. auto. }
      intros s2 H2. eapply hoare_bind; [step_true |]. intros _ _.
      apply hoare_ret. exact H2.
  - eapply hoare_bind; [step_true |]. intros _ _.
    eapply hoare_bind; [apply upd_daily; [| exact H0] |].
    { intros r. unfold daily_keeps. simpl. auto. }
    intros s1 H1. eapply hoare_bind; [step_true |]. intros now _.
    apply upd_daily; [| exact H1].
    intros r. unfold daily_keeps. simpl. auto.
Qed.

Lemma visit_all_keeps (config : config) (lf : string) (items : list (string * node_info))
    (s0 state : gmap string node_state) :
  related daily_keeps s0 state ->
  hoare T (related daily_keeps s0) (TransferWithRetry.visit_all env config lf items state).
Proof.
  revert state. induction items as [| [name info] rest IH]; intros state H0; simpl.
  - apply hoare_ret. exact H0.
  - eapply hoare_bind; [apply visit_keeps; exact H0 |]. intros s1 H1. apply IH. exact H1.
Qed.

Lemma daily_main_keeps (config : config) (state : gmap string node_state) :
  hoare T (related daily_keeps state) (TransferWithRetry.main env config state).
Proof.
  unfold TransferWithRetry.main. cbv zeta.
  eapply hoare_bind; [step_true |]. intros _ _.
  eapply hoare_bind; [apply visit_all_keeps, related_refl, daily_keeps_refl |].
  intros s1 H1.
  eapply hoare_bind; [step_true |]. intros _ _.
  eapply hoare_bind; [step_true |]. intros _ _.
  apply hoare_ret. exact H1.
Qed.

(** *** A configured node without a record stops the run *)

Lemma visit_all_aborts (config : config) (lf : string) (items : list (string * node_info))
    (state : gmap string node_state) (name : string) :
  In name (map fst items) -> state !! name = None ->
  aborts (TransferWithRetry.visit_all env config lf items state).
Proof.
  revert state. induction items as [| [name0 info0] rest IH]; intros state Hin Hmiss; simpl.
  - destruct Hin.
  - destruct (state !! name0) as [r |] eqn:E.
    + eapply aborts_later;
        [apply visit_quiet | apply visit_keeps, related_refl, daily_keeps_refl |].
      intros s1 H1. apply IH.
      * destruct Hin as [Hn | Hn]; [simpl in Hn; congruence | exact Hn].
      * eapply related_missing; eassumption.
    + apply aborts_now, visit_aborts, E.
Qed.

Lemma probe_all_aborts (lf : string) (items : list (string * node_info))
    (state : gmap string node_state) (name : string) :
  In name (map fst items) -> state !! name = None ->
  aborts (SupervisorPingCheck.probe_all env lf items state).
Proof.
  revert state. induction items as [| [name0 info0] rest IH]; intros state Hin Hmiss; simpl.
  - destruct Hin.
  - destruct (state !! name0) as [r |] eqn:E.
    + eapply aborts_later;
        [apply probe_quiet
        | apply (probe_keeps env T); [intros; exact I | intros; exact I
                                     | apply related_refl, check_keeps_refl] |].
      intros s1 H1. apply IH.
      * destruct Hin as [Hn | Hn]; [simpl in Hn; congruence | exact Hn].
      * eapply related_missing; eassumption.
    + apply aborts_now, probe_aborts, E.
Qed.

Lemma daily_main_aborts (config : config) (state : gmap string node_state) (name : string) :
  In name (map fst (nodes config)) -> state !! name = None ->
  aborts (TransferWithRetry.main env config state).
Proof.
  intros Hin Hmiss. unfold TransferWithRetry.main. cbv zeta.
  eapply aborts_later with (Q := fun _ => True); [quiet_step | any_step | intros _ _].
  eapply aborts_now, visit_all_aborts; eassumption.
Qed.

Lemma check_main_aborts (config : config) (state : gmap string node_state) (name : string) :
  In name (map fst (nodes config)) -> state !! name = None ->
  aborts (SupervisorPingCheck.main env config state).
Proof.
  intros Hin Hmiss. unfold SupervisorPingCheck.main. cbv zeta.
  eapply aborts_later with (Q := fun _ => True); [quiet_step | any_step | intros _ _].
  eapply aborts_now, probe_all_aborts; eassumption.
Qed.
End Keeps.

(** X11: the daily run (transfer_with_retry.py of the BEAM package)
    never marks a node alive and never touches [last_online_time]: when
    it returns, the state holds the same nodes, and in every record
    [last_online_time] is what it was and [node_alive] is what it was or
    [False]. *)
Theorem daily_run_never_marks_alive (env : oracle) (config : config)
    (state : gmap string node_state) (w : world) :
  exists l,
    fst (TransferWithRetry.main env config state w) = w ++ l /\
    forall state', snd (TransferWithRetry.main env config state w) = Ret state' ->
                   related daily_keeps state state'.
Proof.
  destruct (daily_main_keeps env config state w) as (l & Hl & _ & H). eauto.
Qed.

(** X12: the health check (supervisor_ping_check.py) never sets the
    flag [fail_to_request_data] and never touches [last_fail_time]: when
    it returns, the state holds the same nodes, and in every record
    [last_fail_time] is what it was and the flag is what it was or
    [False]. *)
Theorem health_check_never_flags (env : oracle) (config : config)
    (state : gmap string node_state) (w : world) :
  exists l,
    fst (SupervisorPingCheck.main env config state w) = w ++ l /\
    forall state', snd (SupervisorPingCheck.main env config state w) = Ret state' ->
                   related check_keeps state state'.
Proof.
  destruct (check_main_keeps env config state w) as (l & Hl & _ & H). eauto.
Qed.

(** X13: when a node of the configuration has no record in the state,
    the daily run and the health check both end by an exception and
    supervisor_state.json is not written: what the run had recorded for
    the nodes before is lost. *)
Theorem missing_record_stops_the_run (env : oracle) (config : config)
    (state : gmap string node_state) (name : string) (w : world) :
  In name (map fst (nodes config)) -> state !! name = None ->
  (exists l e, TransferWithRetry.main env config state w = (w ++ l, Raise e) /\
               Forall no_dump l) /\
  (exists l e, SupervisorPingCheck.main env config state w = (w ++ l, Raise e) /\
               Forall no_dump l).
Proof.
  intros Hin Hmiss. split.
  - destruct (daily_main_aborts env config state name Hin Hmiss w) as (l & Hl & [e He] & Hd).
    exists l, e. split; [| exact Hd].
    rewrite (surjective_pairing (TransferWithRetry.main env config state w)), Hl, He.
    reflexivity.
  - destruct (check_main_aborts env config state name Hin Hmiss w) as (l & Hl & [e He] & Hd).
    exists l, e. split; [| exact Hd].
    rewrite (surjective_pairing (SupervisorPingCheck.main env config state w)), Hl, He.
    reflexivity.
Qed.

(** node1 is configured and the state is empty. *)
Lemma missing_record_stops_the_run_witness :
  (exists l e, TransferWithRetry.main Examples.env_all_down Examples.beam_config
                 Examples.state_empty [] = ([] ++ l, Raise e) /\
               Forall no_dump l) /\
  (exists l e, SupervisorPingCheck.main Examples.env_all_down Examples.beam_config
                 Examples.state_empty [] = ([] ++ l, Raise e) /\
               Forall no_dump l).
Proof.
  apply (missing_record_stops_the_run Examples.env_all_down Examples.beam_config
           Examples.state_empty "node1" []).
  - simpl. auto.
  - reflexivity.
Defined.

(** X15: when no record has the flag [fail_to_request_data] set, the
    health check starts no copy: the only processes are pings, no
    directory is made and no sleep is taken, whatever the pings answer. *)
Theorem health_check_without_flags_is_idle (env : oracle) (config : config)
    (state : gmap string node_state) (w : world) :
  (forall n r, state !! n = Some r -> fail_to_request_data r <> Some true) ->
  exists l,
    fst (SupervisorPingCheck.main env config state w) = w ++ l /\ Forall idle l.
Proof.
  intros Hclear.
  apply (check_main_idle env idle); simpl; eauto.
Qed.

(** node1 is recorded offline, with no transfer to catch up. *)
Lemma health_check_without_flags_is_idle_witness :
  exists l,
    fst (SupervisorPingCheck.main Examples.env_healthy Examples.beam_config
           Examples.state_offline []) = [] ++ l /\ Forall idle l.
Proof.
  apply (health_check_without_flags_is_idle Examples.env_healthy Examples.beam_config
           Examples.state_offline []).
  intros n r H. unfold Examples.state_offline in H.
  apply lookup_singleton_Some in H. destruct H as [_ <-]. discriminate.
Defined.

(** X16: in the daily run, a node whose ping fails is marked offline
    and has [last_offline_time] stamped, whatever its record said before
    (also when it was offline already), and no copy is started for it. *)
Theorem daily_visit_offline (env : oracle) (config : config) (lf name : string)
    (info : node_info) (state : gmap string node_state) (w : world)
    (ip : string) (r : node_state) :
  info_ip info = Some ip -> state !! name = Some r ->
  fst (fst (proc env (length w) ["ping"; "-c"; "1"; "-W"; "1"; ip])) <> 0 ->
  TransferWithRetry.visit env config lf name info state w
    = (w ++ [EvRun ["ping"; "-c"; "1"; "-W"; "1"; ip]
                   (fst (fst (proc env (length w) ["ping"; "-c"; "1"; "-W"; "1"; ip])));
             EvLog "{}: Node offline, setting node_alive=false" [AStr name]],
       Ret (<[name := set_last_offline_time (isotime env (S (S (length w))))
                        (set_node_alive false r)]> state)).
Proof.
  intros Hip Hr Hrc.
  unfold TransferWithRetry.visit, info_ip_get, ping, update, log, subprocess_run,
    datetime_now_isoformat, bind, lift, emit, ret.
  rewrite Hip.
  destruct (proc env (length w) ["ping"; "-c"; "1"; "-W"; "1"; ip]) as [[rc out] err].
  cbn in Hrc |- *. destruct (Z.eqb_spec rc 0) as [E | E]; [contradiction |].
  cbn. rewrite Hr. cbn. rewrite lookup_insert_eq. cbn.
  rewrite insert_insert_eq, !length_app, <- app_assoc. cbn.
  rewrite Nat.add_1_r. cbn. rewrite Nat.add_1_r. reflexivity.
Qed.

(** node1, recorded offline since the first of January, does not answer
    on the second: the stamp moves to the second. *)
Lemma daily_visit_offline_witness :
  TransferWithRetry.visit Examples.env_all_down Examples.beam_config "/home/pi/supervisor.log"
    "node1" (mkInfo (Some "10.0.0.5") None) Examples.state_offline []
    = ([] ++ [EvRun ["ping"; "-c"; "1"; "-W"; "1"; "10.0.0.5"] 1;
              EvLog "{}: Node offline, setting node_alive=false" [AStr "node1"]],
       Ret (<["node1" := set_last_offline_time "2026-01-02T00:00:00"
                           (set_node_alive false
                              (mkState (Some false) (Some false) None
                                       (Some "2026-01-01T00:00:00") None))]>
              Examples.state_offline)).
Proof.
  apply (daily_visit_offline Examples.env_all_down Examples.beam_config
           "/home/pi/supervisor.log" "node1" (mkInfo (Some "10.0.0.5") None)
           Examples.state_offline [] "10.0.0.5"
           (mkState (Some false) (Some false) None (Some "2026-01-01T00:00:00") None)).
  - reflexivity.
  - reflexivity.
  - simpl. discriminate.
Defined.

End RecordProps.


(** ** src/node_heartbeat.py *)

Module HeartbeatProps.
Import Py World Logic Rules PyFacts NodeHeartbeat HeartbeatSpec.
Local Open Scope py_scope.

Section Loop.
Variable env : oracle.
Variables node_id sup_user sup_host heartbeat_dir : string.
Variables interval ping_timeout : Z.
Hypothesis interval_ok : 0 <= interval <= sleep_max.

Let ping := ping_cmd sup_host ping_timeout.
Let touch := touch_cmd sup_user sup_host heartbeat_dir
                       (heartbeat_dir +:+ "/" +:+ node_id +:+ ".alive").

Lemma does_run_ok (argv : list string) :
  does (result <- subprocess_run env argv ;; ret (returncode result =? 0))%py
       (fun l r => exists rc, l = [EvRun argv rc] /\ r = Ret (rc =? 0)).
Proof.
  intros w. unfold bind, subprocess_run, ret.
  destruct (proc env (length w) argv) as [[rc out] err]. simpl.
  exists [EvRun argv rc]. split; [reflexivity |]. exists rc. auto.
Qed.

Lemma does_nap :
  does (time_sleep interval) (fun l r => l = [EvSleep interval] /\ r = Ret tt).
Proof. apply does_time_sleep; [auto | lia | lia]. Qed.

(** One iteration: one ping, the ssh if the ping was answered, and one
    sleep, whatever the two processes return. *)
Lemma beat_once :
  does (beat env node_id sup_user sup_host heartbeat_dir interval ping_timeout)
       (fun l r => r = Ret tt /\ sleeps l = [interval] /\ beat_runs ping touch (runs l)).
Proof.
  unfold beat.
  eapply does_bind; [apply does_run_ok | | intros l1 e (rc & _ & [=]) | intros l1 (rc & _ & [=])].
  intros l1 reachable (rc & -> & [= ->]).
  destruct (Z.eqb_spec rc 0) as [-> | Hrc]; cbn [negb].
  - eapply does_bind;
      [apply does_run_ok | | intros l2 e (rc & _ & [=]) | intros l2 (rc & _ & [=])].
    intros l2 sent (rc2 & -> & [= ->]).
    eapply does_bind with (R1 := fun l r => sleeps l = [] /\ runs l = [] /\ r = Ret tt).
    + destruct (rc2 =? 0); unfold log; apply does_emit; auto.
    + intros l3 [] (Hs & Hr & _). eapply does_mono; [apply does_nap |]. cbv beta.
      intros l4 r [-> ->]. split; [reflexivity |].
      rewrite !TransferWithRetryProps.sleeps_app, !TransferWithRetryProps.runs_app, Hs, Hr.
      split; [reflexivity |]. right. exists rc2. reflexivity.
    + intros l3 e (_ & _ & [=]).
    + intros l3 (_ & _ & [=]).
  - eapply does_bind with (R1 := fun l r => sleeps l = [] /\ runs l = [] /\ r = Ret tt).
    + unfold log. apply does_emit. auto.
    + intros l3 [] (Hs & Hr & _). eapply does_mono; [apply does_nap |]. cbv beta.
      intros l4 r [-> ->]. split; [reflexivity |].
      rewrite !TransferWithRetryProps.sleeps_app, !TransferWithRetryProps.runs_app, Hs, Hr.
      split; [reflexivity |]. left. exists rc. auto.
    + intros l3 e (_ & _ & [=]).
    + intros l3 (_ & _ & [=]).
Qed.

Lemma beats_run (n : nat) :
  does (beats env n node_id sup_user sup_host heartbeat_dir interval ping_timeout)
       (fun l r => r = Ret tt /\ sleeps l = repeat interval n /\
                   exists its, runs l = concat its /\ length its = n /\
                               Forall (beat_runs ping touch) its).
Proof.
  induction n as [| n IH]; simpl.
  - apply does_ret. split; [reflexivity |]. split; [reflexivity |]. exists []. auto.
  - eapply does_bind; [apply beat_once | | intros l1 e ([=] & _) | intros l1 ([=] & _)].
    intros l1 [] (_ & Hs1 & Hr1). eapply does_mono; [apply IH |]. cbv beta.
    intros l2 r (-> & Hs2 & its & Hr2 & Hlen & Hits). split; [reflexivity |].
    rewrite TransferWithRetryProps.sleeps_app, TransferWithRetryProps.runs_app, Hs1, Hs2, Hr2.
    split; [reflexivity |]. exists (runs l1 :: its). simpl. auto.
Qed.
End Loop.

(** X17: with every required key in config.json and an interval that
    [time.sleep] accepts, the heartbeat loop goes on whatever the pings
    and the ssh commands return: after the start line, each of the [n]
    iterations runs one ping of the supervisor, runs the ssh command that
    touches the marker only if that ping exited with 0, and then sleeps
    for the interval (60 s by default) once; nothing is raised. *)
Theorem heartbeat_loop_runs (env : oracle) (n : nat) (node_id host : string)
    (user : option string) (heartbeat_dir : string) (interval timeout : option Z) (w : world) :
  let cfg := mkConfig (Some (mkGlobal (Some node_id)))
                      (Some (mkSupervisor (Some host) user (Some heartbeat_dir)
                                          interval timeout)) in
  let ping := ping_cmd host (default 2 timeout) in
  let touch := touch_cmd (default "pi" user) host heartbeat_dir
                         (heartbeat_dir +:+ "/" +:+ node_id +:+ ".alive") in
  0 <= default 60 interval <= sleep_max ->
  exists l its,
    main env n cfg w
      = (w ++ EvLog "Starting heartbeat for {} to {}@{}"
                    [AStr node_id; AStr (default "pi" user); AStr host] :: l,
         Ret tt) /\
    sleeps l = repeat (default 60 interval) n /\
    runs l = concat its /\ length its = n /\ Forall (beat_runs ping touch) its.
Proof.
  intros cfg ping touch Hint.
  destruct (beats_run env node_id (default "pi" user) host heartbeat_dir
              (default 60 interval) (default 2 timeout) Hint n
              (w ++ [EvLog "Starting heartbeat for {} to {}@{}"
                           [AStr node_id; AStr (default "pi" user); AStr host]]))
    as (l & Hl & Hr & Hs & its & Hruns & Hlen & Hits).
  exists l, its. split; [| auto].
  unfold main, cfg, getitem, lift, log, emit, bind. cbn.
  rewrite (surjective_pairing (beats _ _ _ _ _ _ _ _ _)), Hl, Hr, <- app_assoc. reflexivity.
Qed.

(** Two iterations with the defaults: two pings, two touches, two
    sleeps of 60 s. *)
Lemma heartbeat_loop_runs_witness :
  exists l its,
    main Examples.env_healthy 2
         (mkConfig (Some (mkGlobal (Some "node1")))
                   (Some (mkSupervisor (Some "10.0.0.1") None
                                       (Some "/home/pi/supervisor/heartbeats") None None))) []
      = ([] ++ EvLog "Starting heartbeat for {} to {}@{}"
                     [AStr "node1"; AStr "pi"; AStr "10.0.0.1"] :: l,
         Ret tt) /\
    sleeps l = repeat 60 2 /\
    runs l = concat its /\ length its = 2%nat /\
    Forall (beat_runs (ping_cmd "10.0.0.1" 2)
                      (touch_cmd "pi" "10.0.0.1" "/home/pi/supervisor/heartbeats"
                                 "/home/pi/supervisor/heartbeats/node1.alive")) its.
Proof.
  apply (heartbeat_loop_runs Examples.env_healthy 2 "node1" "10.0.0.1" None
           "/home/pi/supervisor/heartbeats" None None []).
  unfold sleep_max. simpl. lia.
Defined.

Lemma index_cons_last {A} (x y : A) (l : list A) :
  index (x :: y :: l) (-1) = index (y :: l) (-1).
Proof.
  unfold index. cbn [length]. change (-1 <? 0) with true. cbv iota.
  set (m := length l).
  replace (-1 + Z.of_nat (S (S m))) with (Z.of_nat (S m)) by lia.
  replace (-1 + Z.of_nat (S m)) with (Z.of_nat m) by lia.
  destruct (Z.ltb_spec (Z.of_nat (S m)) 0); [lia |].
  destruct (Z.leb_spec (Z.of_nat (S (S m))) (Z.of_nat (S m))); [lia |].
  destruct (Z.ltb_spec (Z.of_nat m) 0); [lia |].
  destruct (Z.leb_spec (Z.of_nat (S m)) (Z.of_nat m)); [lia |].
  cbn [orb]. rewrite !Nat2Z.id. reflexivity.
Qed.

Lemma index_last_char (s : string) (c : ascii) :
  last_char s = Some c -> index (list_ascii_of_string s) (-1) = Ret c.
Proof.
  induction s as [| x s IH]; [discriminate |].
  destruct s as [| y s'].
  - intros H. injection H as ->. reflexivity.
  - intros H. cbn [list_ascii_of_string]. rewrite index_cons_last. apply IH. exact H.
Qed.

(** X18: [send_heartbeat] runs one ssh command, which touches the file
    that [has_fresh_heartbeat] of src/transfer_with_retry.py looks for,
    [os.path.join(heartbeat_dir, node_id + ".alive")], when the directory
    ends with a character other than "/" and the node id does not start
    with "/"; it returns [True] exactly when ssh exits with 0. *)
Theorem heartbeat_touches_the_marker (env : oracle) (node_id user host heartbeat_dir : string)
    (c : ascii) (w : world) :
  last_char heartbeat_dir = Some c -> c <> "/"%char ->
  String.prefix "/" node_id = false ->
  exists rc,
    send_heartbeat env node_id user host heartbeat_dir w
      = (w ++ [EvRun (touch_cmd user host heartbeat_dir
                                (path_join heartbeat_dir (node_id +:+ ".alive"))) rc],
         Ret (rc =? 0)).
Proof.
  intros Hlast Hc Hid.
  assert (Hpath : path_join heartbeat_dir (node_id +:+ ".alive")
                  = heartbeat_dir +:+ "/" +:+ node_id +:+ ".alive").
  { unfold path_join.
    assert (Hp : String.prefix "/" (node_id +:+ ".alive") = false).
    { destruct node_id as [| x s]; [reflexivity |].
      change (String x s +:+ ".alive") with (String x (s +:+ ".alive")).
      cbn [String.prefix] in *.
      destruct (ascii_dec "/" x); [destruct s; discriminate | reflexivity]. }
    rewrite Hp, (index_last_char _ _ Hlast).
    destruct (String.eqb_spec heartbeat_dir EmptyString) as [-> | _]; [discriminate |].
    destruct c as [[] [] [] [] [] [] [] []]; try reflexivity. contradiction. }
  rewrite Hpath. unfold send_heartbeat, touch_cmd, bind, subprocess_run, ret. cbv zeta.
  destruct (proc env (length w) _) as [[rc out] err]. exists rc. reflexivity.
Qed.

(** For node1 and /home/pi/supervisor/heartbeats the file touched is
    /home/pi/supervisor/heartbeats/node1.alive. *)
Lemma heartbeat_touches_the_marker_witness :
  exists rc,
    send_heartbeat Examples.env_healthy "node1" "pi" "10.0.0.1"
                   "/home/pi/supervisor/heartbeats" []
      = ([] ++ [EvRun (touch_cmd "pi" "10.0.0.1" "/home/pi/supervisor/heartbeats"
                                 (path_join "/home/pi/supervisor/heartbeats"
                                            ("node1" +:+ ".alive"))) rc],
         Ret (rc =? 0)).
Proof.
  apply (heartbeat_touches_the_marker Examples.env_healthy "node1" "pi" "10.0.0.1"
           "/home/pi/supervisor/heartbeats" "s" []).
  - reflexivity.
  - discriminate.
  - reflexivity.
Defined.

(** X19: when config.json lacks [global], [global.node_id],
    [supervisor], [supervisor.host] or [supervisor.heartbeat_dir], [main]
    of src/node_heartbeat.py raises [KeyError] at once: nothing is
    logged and no process is started. *)
Theorem heartbeat_needs_its_keys (env : oracle) (n : nat) (cfg : config) (w : world) :
  global cfg = None \/
  (exists g, global cfg = Some g /\ node_id g = None) \/
  supervisor cfg = None \/
  (exists s, supervisor cfg = Some s /\ (host s = None \/ heartbeat_dir s = None)) ->
  exists key, main env n cfg w = (w, Raise (KeyError key)).
Proof.
  destruct cfg as [g s]. cbn [global supervisor].
  intros [-> | [(g0 & -> & Hid) | [-> | (s0 & -> & Hs)]]].
  - exists "global". reflexivity.
  - exists "node_id". unfold main, getitem, lift, bind. cbn. rewrite Hid. reflexivity.
  - destruct g as [[[id |]] |]; eexists; reflexivity.
  - destruct g as [[[id |]] |]; try (eexists; reflexivity).
    destruct s0 as [[h |] u [d |] i t]; cbn in Hs;
      try (eexists; reflexivity).
    + destruct Hs; discriminate.
    + exists "heartbeat_dir". reflexivity.
Qed.

(** Without [heartbeat_dir] the script stops on [KeyError]. *)
Lemma heartbeat_needs_its_keys_witness :
  exists key,
    main Examples.env_healthy 2
         (mkConfig (Some (mkGlobal (Some "node1")))
                   (Some (mkSupervisor (Some "10.0.0.1") None None None None))) []
      = ([], Raise (KeyError key)).
Proof.
  apply (heartbeat_needs_its_keys Examples.env_healthy 2
           (mkConfig (Some (mkGlobal (Some "node1")))
                     (Some (mkSupervisor (Some "10.0.0.1") None None None None))) []).
  right. right. right. eexists. split; [reflexivity |]. right. reflexivity.
Defined.

End HeartbeatProps.

(** ** src/transfer_with_retry.py: the processes of a cycle *)

Module TargetProps.
Import Py World Logic Rules PyFacts TransferWithRetry RunSpec.
Local Open Scope py_scope.


Section Cycle.
Variable env : oracle.
Variable nodes_cfg : list (string * node_info).
Variables log_file supervisor_data_dir remote_data_path heartbeat_dir : string.
Variables heartbeat_max_age max_retries retry_delay max_cycles cycle_delay : Z.
Variable backoff_factor : float.
Variable remaining0 : list string.

Let fresh := Trace.fresh_at env heartbeat_dir heartbeat_max_age.
Let P := targets_fresh env nodes_cfg supervisor_data_dir remote_data_path heartbeat_dir
                       heartbeat_max_age remaining0.





End Cycle.


End TargetProps.


(** ** transfer_with_retry.py of the BEAM package: what a visit records *)

Module OutcomeProps.
Import Py World Logic Rules PyFacts Beam EngineSpec RecordSpec.
Local Open Scope py_scope.

Lemma exits_zero (cmd : list string) (fails : list Z) (codes : list Z) (b : bool) :
  Forall (fun rc => rc <> 0) fails -> codes = fails ++ (if b then [0] else []) ->
  if b then In 0 codes else Forall (fun rc => rc <> 0) codes.
Proof.
  intros Hf ->. destruct b.
  - apply in_or_app. right. left. reflexivity.
  - rewrite app_nil_r. exact Hf.
Qed.

Lemma update_present (f : node_state -> node_state) (state : gmap string node_state)
    (name : string) (r : node_state) :
  state !! name = Some r -> update f state name = Ret (<[name := f r]> state).
Proof. intros H. unfold update. rewrite H. reflexivity. Qed.

Lemma visit_reachable (env : oracle) (config : config) (lf name : string)
    (state : gmap string node_state) (ip : string) (r : node_state) :
  state !! name = Some r ->
  returns (success <- TransferWithRetry.rsync_data env ip name config lf ;;
           if success then
             state <- lift (update (set_fail_to_request_data false) state name) ;;
             log "{}: Data pull succeeded." [AStr name] lf ;;
             ret state
           else
             state <- lift (update (set_fail_to_request_data true) state name) ;;
             now <- datetime_now_isoformat env ;;
             state <- lift (update (set_last_fail_time now) state name) ;;
             log "{}: Data pull FAILED." [AStr name] lf ;;
             ret state)%py
          (recorded env (rsync_cmd ip name config) name r state).
Proof.
  intros Hr.
  eapply returns_bind; [apply EngineProps.daily_rsync_data_spec |].
  intros l1 success (fails & Hf & Hc & _).
  pose proof (exits_zero (rsync_cmd ip name config) fails _ success Hf Hc) as Hz.
  assert (Hstep : forall (A : Type) (c : M A) (s' : gmap string node_state),
            emits (aside (rsync_cmd ip name config)) c ->
            (if success
             then s' = <[name := set_fail_to_request_data false r]> state
             else exists t, s' = <[name := set_last_fail_time (isotime env t)
                                             (set_fail_to_request_data true r)]> state) ->
            returns (c ;; ret s')%py
                    (fun l2 s'' => recorded env (rsync_cmd ip name config) name r state
                                            (l1 ++ l2) s'')).
  { intros A c s' Hc' Hs'. eapply returns_bind; [apply returns_of_emits; exact Hc' |].
    intros l2 a Hl2. cbv beta in Hl2. apply returns_ret.
    destruct (EngineProps.aside_exits _ _ Hl2) as [E _].
    unfold recorded. rewrite !EngineProps.exits_app, E. cbn [app]. rewrite !app_nil_r.
    destruct success; [left | right]; auto. }
  destruct success.
  - rewrite (update_present _ _ _ _ Hr).
    eapply returns_bind with (Q1 := fun l s1 => l = [] /\ s1 = <[name := set_fail_to_request_data false r]> state).
    { apply returns_lift. intros s1 [= <-]. auto. }
    intros l2 s1 [-> ->]. cbn [app].
    eapply returns_mono; [apply (Hstep _ (log "{}: Data pull succeeded." [AStr name] lf)) |].
    + unfold log. apply emits_emit. exact I.
    + reflexivity.
    + cbv beta. auto.
  - rewrite (update_present _ _ _ _ Hr).
    eapply returns_bind with (Q1 := fun l s1 => l = [] /\ s1 = <[name := set_fail_to_request_data true r]> state).
    { apply returns_lift. intros s1 [= <-]. auto. }
    intros l2 s1 [-> ->]. cbn [app].
    eapply returns_bind with (Q1 := fun l now => l = [] /\ exists t, now = isotime env t).
    { apply does_datetime_now. intros t a [= <-]. eauto. }
    intros l3 now [-> [t ->]]. cbn [app].
    rewrite (update_present _ _ _ (set_fail_to_request_data true r)) by apply lookup_insert_eq.
    rewrite insert_insert_eq.
    eapply returns_bind with
      (Q1 := fun l s2 => l = [] /\ s2 = <[name := set_last_fail_time (isotime env t)
                                                (set_fail_to_request_data true r)]> state).
    { apply returns_lift. intros s2 [= <-]. auto. }
    intros l4 s2 [-> ->]. cbn [app].
    eapply returns_mono; [apply (Hstep _ (log "{}: Data pull FAILED." [AStr name] lf)) |].
    + unfold log. apply emits_emit. exact I.
    + eauto.
    + cbv beta. auto.
Qed.


(** *** How a visit ends *)

Lemma ends_ret {A} (E : exn -> Prop) (Q : A -> Prop) (a : A) : Q a -> ends E Q (ret a).
Proof. intros H. apply does_ret. exact H. Qed.

Lemma ends_emit (E : exn -> Prop) (e : event) : ends E (fun _ => True) (emit e).
Proof. apply does_emit. exact I. Qed.

Lemma ends_bind {A B} (E : exn -> Prop) (Q1 : A -> Prop) (Q : B -> Prop)
    (c : M A) (k : A -> M B) :
  ends E Q1 c -> (forall a, Q1 a -> ends E Q (k a)) -> ends E Q (bind c k).
Proof.
  intros Hc Hk. eapply does_bind; [exact Hc | | auto | auto].
  intros l1 a Ha. cbv beta in Ha. eapply does_mono; [apply Hk; exact Ha |]. auto.
Qed.

Lemma ends_weaken {A} (E : exn -> Prop) (Q Q' : A -> Prop) (c : M A) :
  ends E Q c -> (forall a, Q a -> Q' a) -> ends E Q' c.
Proof.
  intros Hc HQ. eapply does_mono; [exact Hc |].
  intros l [a | e |]; auto.
Qed.

(** [int(delay * backoff_factor)] raises nothing but [ValueError] and
    [OverflowError]. *)
Lemma int_mul_ends (i : Z) (k : num) : ends bad_delay (fun _ => True) (lift (int_mul i k)).
Proof.
  apply does_lift.
  unfold int_mul, mul_int_float, float_of_int, int_of_float, rbind, bad_delay.
  destruct k as [j | f]; [exact I |].
  destruct (PrimFloat.is_infinity (float_of_Z i)); [auto |].
  destruct (Prim2SF _); simpl; auto.
Qed.

Lemma time_sleep_ends (secs : Z) : ends bad_delay (fun _ => True) (time_sleep secs).
Proof. apply does_time_sleep; unfold bad_delay; auto. Qed.

Lemma daily_rsync_attempts_ends (env : oracle) (attempts : list Z) (name : string)
    (cmd : list string) (config : config) (lf : string) (delay : Z) :
  ends bad_delay (fun _ => True)
       (TransferWithRetry.rsync_attempts env attempts name cmd config lf delay).
Proof.
  revert delay. induction attempts as [| attempt rest IH]; intros delay; simpl.
  - apply ends_ret. exact I.
  - eapply ends_bind; [apply ends_emit |]. intros _ _.
    eapply ends_bind with (Q1 := fun _ => True).
    { apply does_subprocess_run. intros t. destruct (proc env t cmd) as [[rc out] err]. exact I. }
    intros result _.
    destruct (returncode result =? 0).
    + eapply ends_bind; [apply ends_emit |]. intros _ _. apply ends_ret. exact I.
    + eapply ends_bind; [apply ends_emit |]. intros _ _.
      eapply ends_bind; [apply time_sleep_ends |]. intros _ _.
      eapply ends_bind; [apply int_mul_ends |]. intros d _. apply IH.
Qed.

(** With the record of the node there, what follows an answered ping
    ends normally or on a delay that cannot be slept. *)
Lemma visit_reachable_ends (env : oracle) (config : config) (lf name : string)
    (state : gmap string node_state) (ip : string) (r : node_state) :
  state !! name = Some r ->
  ends bad_delay (fun _ => True)
       (success <- TransferWithRetry.rsync_data env ip name config lf ;;
        if success then
          state <- lift (update (set_fail_to_request_data false) state name) ;;
          log "{}: Data pull succeeded." [AStr name] lf ;;
          ret state
        else
          state <- lift (update (set_fail_to_request_data true) state name) ;;
          now <- datetime_now_isoformat env ;;
          state <- lift (update (set_last_fail_time now) state name) ;;
          log "{}: Data pull FAILED." [AStr name] lf ;;
          ret state)%py.
Proof.
  intros Hr.
  eapply ends_bind with (Q1 := fun _ => True).
  { unfold TransferWithRetry.rsync_data.
    eapply ends_bind; [apply ends_emit |]. intros _ _. apply daily_rsync_attempts_ends. }
  intros success _.
  destruct success.
  - rewrite (update_present _ _ _ _ Hr).
    eapply ends_bind with (Q1 := fun _ => True); [apply does_lift; exact I |]. intros s1 _.
    eapply ends_bind; [apply ends_emit |]. intros _ _. apply ends_ret. exact I.
  - rewrite (update_present _ _ _ _ Hr).
    eapply ends_bind with (Q1 := fun s1 => s1 = <[name := set_fail_to_request_data true r]> state);
      [apply does_lift; reflexivity |]. intros s1 ->.
    eapply ends_bind with (Q1 := fun _ => True); [apply does_datetime_now; intros; exact I |].
    intros now _.
    rewrite (update_present _ _ _ (set_fail_to_request_data true r)) by apply lookup_insert_eq.
    eapply ends_bind with (Q1 := fun _ => True); [apply does_lift; exact I |]. intros s2 _.
    eapply ends_bind; [apply ends_emit |]. intros _ _. apply ends_ret. exact I.
Qed.

(** X21: the daily run at a node that has an address and a record and
    answers the ping. The ping is the first event; what follows ends
    normally, or by [ValueError] or [OverflowError] when a delay cannot be
    slept or computed. When it ends normally, the state returned is the one
    given with the record of this node alone rewritten: its
    [fail_to_request_data] is cleared if a copy exited with 0, and if
    every copy failed it is set and [last_fail_time] is stamped. *)
Theorem daily_visit_records_outcome (env : oracle) (config : config) (lf name : string)
    (info : node_info) (state : gmap string node_state) (w : world)
    (ip : string) (r : node_state) :
  info_ip info = Some ip -> state !! name = Some r ->
  fst (fst (proc env (length w) ["ping"; "-c"; "1"; "-W"; "1"; ip])) = 0 ->
  exists l,
    fst (TransferWithRetry.visit env config lf name info state w)
      = w ++ EvRun ["ping"; "-c"; "1"; "-W"; "1"; ip] 0 :: l /\
    match snd (TransferWithRetry.visit env config lf name info state w) with
    | Ret state' => recorded env (rsync_cmd ip name config) name r state l state'
    | Raise e => bad_delay e
    | OutOfFuel => False
    end.
Proof.
  intros Hip Hr Hrc.
  destruct (RecordProps.does_both _ _ _ (visit_reachable env config lf name state ip r Hr)
              (visit_reachable_ends env config lf name state ip r Hr)
              (w ++ [EvRun ["ping"; "-c"; "1"; "-W"; "1"; ip] 0])) as (l & Hl & Hspec & Hend).
  exists l.
  match type of Hl with
  | fst (?k _) = _ =>
      assert (E : TransferWithRetry.visit env config lf name info state w
                  = k (w ++ [EvRun ["ping"; "-c"; "1"; "-W"; "1"; ip] 0]))
  end.
  { unfold TransferWithRetry.visit, info_ip_get, ping.
    unfold bind at 1. unfold lift at 1. rewrite Hip.
    unfold bind at 1. unfold bind at 1. unfold subprocess_run at 1.
    destruct (proc env (length w) ["ping"; "-c"; "1"; "-W"; "1"; ip]) as [[rc out] err].
    cbn [fst] in Hrc. subst rc. reflexivity. }
  rewrite E, Hl, <- app_assoc. split; [reflexivity |].
  revert Hspec Hend. rewrite <- E.
  destruct (snd (TransferWithRetry.visit env config lf name info state w)) as [s' | e |];
    intros Hspec Hend; auto.
Qed.

(** node1 answers the ping and its copies fail: the flag is set. *)
Lemma daily_visit_records_outcome_witness :
  exists l,
    fst (TransferWithRetry.visit Examples.env_copy_fails Examples.beam_config
           "/home/pi/supervisor.log" "node1" (mkInfo (Some "10.0.0.5") None)
           Examples.state_offline [])
      = [] ++ EvRun ["ping"; "-c"; "1"; "-W"; "1"; "10.0.0.5"] 0 :: l /\
    match snd (TransferWithRetry.visit Examples.env_copy_fails Examples.beam_config
                 "/home/pi/supervisor.log" "node1" (mkInfo (Some "10.0.0.5") None)
                 Examples.state_offline []) with
    | Ret state' =>
        recorded Examples.env_copy_fails (rsync_cmd "10.0.0.5" "node1" Examples.beam_config)
                 "node1" (mkState (Some false) (Some false) None (Some "2026-01-01T00:00:00") None)
                 Examples.state_offline l state'
    | Raise e => bad_delay e
    | OutOfFuel => False
    end.
Proof.
  apply (daily_visit_records_outcome Examples.env_copy_fails Examples.beam_config
           "/home/pi/supervisor.log" "node1" (mkInfo (Some "10.0.0.5") None)
           Examples.state_offline [] "10.0.0.5").
  - reflexivity.
  - reflexivity.
  - vm_compute. reflexivity.
Defined.

End OutcomeProps.


(** ** src/queue_shipped_data.py: node_states.json *)

Module NodeStatesProps.
Import Py World NodeStates.

(** [d[k] = v] for a key that is new appends the item. *)
Lemma dict_set_fresh {V} (d : list (string * V)) (k : string) (v : V) :
  ~ In k (map fst d) -> TransferWithRetry.dict_set d k v = d ++ [(k, v)].
Proof.
  induction d as [| [k' v'] d IH]; simpl; intros Hk; [reflexivity |].
  destruct (String.eqb_spec k' k) as [-> | Hne]; [tauto |].
  rewrite IH by tauto. reflexivity.
Qed.

(** The comprehension of [save_nodes] over nodes of distinct names keeps
    one entry per node, in the order of the list. *)
Lemma data_of_distinct (nodes : list Node) (data : list (string * entry)) :
  NoDup (map fst data ++ map name nodes) ->
  fold_left (fun data node => TransferWithRetry.dict_set data (name node) (to_dict node))
            nodes data
  = data ++ map (fun node => (name node, to_dict node)) nodes.
Proof.
  revert data. induction nodes as [| node rest IH]; intros data Hnd; simpl.
  - rewrite app_nil_r. reflexivity.
  - simpl in Hnd. pose proof (List.NoDup_remove _ _ _ (proj1 (NoDup_ListNoDup _) Hnd)) as [_ Hnew].
    rewrite dict_set_fresh by (intros H; apply Hnew, in_or_app; left; exact H).
    rewrite IH.
    + rewrite <- app_assoc. reflexivity.
    + rewrite map_app, <- app_assoc. exact Hnd.
Qed.

Lemma load_nodes_nodes (path : string) (data : list (string * entry)) :
  snd (load_nodes path (Some data))
  = map (fun item : string * entry =>
         mkNode (fst item) (entry_ip (snd item))
                (default false (entry_transfer_fail (snd item)))
                (default "unknown" (entry_state (snd item)))) data.
Proof.
  unfold load_nodes. cbn [snd]. rewrite map_map.
  apply map_ext. intros [k e]. reflexivity.
Qed.

(** X22: node_states.json round trips. Nodes of distinct names that
    [save_nodes] writes are the nodes [load_nodes] reads back, flags and
    states included and in the same order; and a file that is loaded and
    saved again holds the same nodes in the same order, each with its
    address, and with [transfer_fail] and [state] written out where they
    were absent ([False] and "unknown"). *)
Theorem node_states_round_trip (path : string) :
  (forall nodes, NoDup (map name nodes) ->
                 snd (load_nodes path (Some (data_of nodes))) = nodes) /\
  (forall data, NoDup (map fst data) ->
                data_of (snd (load_nodes path (Some data)))
                = map (fun item =>
                         (fst item,
                          mkEntry (entry_ip (snd item))
                                  (Some (default false (entry_transfer_fail (snd item))))
                                  (Some (default "unknown" (entry_state (snd item))))))
                      data).
Proof.
  split.
  - intros nodes Hnd. rewrite load_nodes_nodes. unfold data_of.
    rewrite data_of_distinct by exact Hnd. cbn [app]. rewrite map_map.
    rewrite <- (map_id nodes) at 2. apply map_ext. intros [n i t s]. reflexivity.
  - intros data Hnd. rewrite load_nodes_nodes. unfold data_of.
    rewrite data_of_distinct.
    + cbn [app]. rewrite map_map. apply map_ext. intros [k e]. reflexivity.
    + cbn [map app]. rewrite map_map. cbn [name fst]. exact Hnd.
Qed.

End NodeStatesProps.
